(** * mimir: a Rocq model of the store, ingestion, chunking and embedding code

    The development embeds the Go functions named in each module's header
    and proves (or refutes) the properties the specification states about
    them.  Go values are modelled as follows:

    - [int], [int64]: [Z]; 64-bit wrap-around is written out where the
      source can overflow ([wrap64]);
    - [string]: the list of runes that decoding the string yields
      ([gostring]), a byte outside any valid encoding counting as one rune
      that is neither white space nor a letter; the [strings] and [regexp]
      functions the code calls are defined on runes as the Go library
      defines them;
    - [error]: a tree of sentinels, driver errors and [fmt.Errorf] wrappers,
      with [errors.Is] and [errors.As] walking the [%w] chain;
    - a PostgreSQL table: the list of its rows, with the constraints of the
      migration files checked by the statements that the code sends;
    - pointers that may be nil: [option];
    - libraries outside the repository (the SHA-256 digest, the HTML
      parser, the sentence tokenizer, the JSON reader, the file system and
      the HTTP client): parameters of the functions that call them.

    Each call is modelled as it runs on its own; where the code comments on
    a race with another client of the database, the other client's step is
    a parameter. *)

From Stdlib Require Import ZArith List Lia Bool Ascii String Sorted.
From stdpp Require Import base option list gmap strings.

Local Open Scope Z_scope.

(** ** Integers *)

Module GoInt.

(** [wrap64 z] is [z] reduced to the range of a Go [int64]. *)
Definition wrap64 (z : Z) : Z := (z + 2 ^ 63) mod 2 ^ 64 - 2 ^ 63.

(** [shl64 a n] is the Go expression [a << n] at type [int64] for a shift
    count [n >= 0]; a negative count panics at run time ([None]). *)
Definition shl64 (a n : Z) : option Z :=
  if n <? 0 then None else Some (wrap64 (Z.shiftl a n)).

Definition mul64 (a b : Z) : Z := wrap64 (a * b).

End GoInt.

(** ** Strings *)

Module GoString.

Definition rune := Z.
Definition gostring := list rune.

(** The runes of an ASCII literal. *)
Definition runes (s : string) : gostring :=
  map (fun a => Z.of_N (N_of_ascii a)) (list_ascii_of_string s).

(** The newline rune, and the separators made of it. *)
Definition nl : rune := 10.

Definition rune_eqb (a b : rune) : bool := Z.eqb a b.

Fixpoint eqb (s t : gostring) : bool :=
  match s, t with
  | [], [] => true
  | a :: s', b :: t' => rune_eqb a b && eqb s' t'
  | _, _ => false
  end.

(** [unicode.IsSpace]. *)
Definition isSpace (r : rune) : bool :=
  ((9 <=? r) && (r <=? 13)) || (r =? 32) || (r =? 133) || (r =? 160)
  || (r =? 5760) || ((8192 <=? r) && (r <=? 8202))
  || (r =? 8232) || (r =? 8233) || (r =? 8239) || (r =? 8287)
  || (r =? 12288).

Fixpoint trimLeft (s : gostring) : gostring :=
  match s with
  | r :: s' => if isSpace r then trimLeft s' else s
  | [] => []
  end.

(** [strings.TrimSpace]. *)
Definition TrimSpace (s : gostring) : gostring :=
  rev (trimLeft (rev (trimLeft s))).

(** [strings.Fields]: the maximal runs of non-space runes, in order.
    [cur] is the field being read, reversed. *)
Fixpoint fieldsAux (cur : gostring) (s : gostring) : list gostring :=
  match s with
  | [] => match cur with [] => [] | _ => [rev cur] end
  | r :: s' =>
      if isSpace r
      then match cur with
           | [] => fieldsAux [] s'
           | _ => rev cur :: fieldsAux [] s'
           end
      else fieldsAux (r :: cur) s'
  end.

Definition Fields (s : gostring) : list gostring := fieldsAux [] s.

(** [strings.Join]. *)
Fixpoint Join (l : list gostring) (sep : gostring) : gostring :=
  match l with
  | [] => []
  | [x] => x
  | x :: l' => x ++ sep ++ Join l' sep
  end.

Fixpoint HasPrefix (s p : gostring) : bool :=
  match p, s with
  | [], _ => true
  | b :: p', a :: s' => rune_eqb a b && HasPrefix s' p'
  | _ :: _, [] => false
  end.

Definition HasSuffix (s p : gostring) : bool := HasPrefix (rev s) (rev p).

(** [strings.Split s sep] for a non-empty separator: cut at every
    occurrence of [sep], scanning from the left.  [cur] is the piece being
    read, reversed; [skip] counts the runes of a separator that was just
    recognised and is still to be passed over. *)
Fixpoint splitAux (sep : gostring) (skip : nat) (cur : gostring)
  (s : gostring) : list gostring :=
  match s with
  | [] => [rev cur]
  | r :: s' =>
      match skip with
      | S k => splitAux sep k cur s'
      | O =>
          if HasPrefix s sep
          then rev cur :: splitAux sep (length sep - 1)%nat [] s'
          else splitAux sep O (r :: cur) s'
      end
  end.

Definition Split (s sep : gostring) : list gostring := splitAux sep O [] s.

(** [strings.Contains]. *)
Fixpoint Contains (s sub : gostring) : bool :=
  HasPrefix s sub ||
  match s with
  | [] => false
  | _ :: s' => Contains s' sub
  end.

(** [unicode.ToUpper], as far as a comparison of the result with an ASCII
    string can tell: ASCII letters, and the two runes outside ASCII whose
    upper case is an ASCII letter (U+017F and U+0131). *)
Definition toUpperRune (r : rune) : rune :=
  if (97 <=? r) && (r <=? 122) then r - 32
  else if r =? 383 then 83
  else if r =? 305 then 73
  else r.

Definition ToUpper (s : gostring) : gostring := map toUpperRune s.

(** [unicode.ToLower], with the same provision (U+212A and U+0130 have an
    ASCII lower case). *)
Definition toLowerRune (r : rune) : rune :=
  if (65 <=? r) && (r <=? 90) then r + 32
  else if r =? 8490 then 107
  else if r =? 304 then 105
  else r.

Definition ToLower (s : gostring) : gostring := map toLowerRune s.

End GoString.

(** ** Errors *)

Module GoErrors.
Import GoString.

(** A Go [error] value.  [Errorf fmt args] is [fmt.Errorf(fmt, args...)];
    an argument formatted with [%w] is the error that [Unwrap] returns. *)
Inductive error : Type :=
| ErrNotFound              (* store.ErrNotFound *)
| ErrDuplicate             (* store.ErrDuplicate *)
| ErrConflict              (* store.ErrConflict *)
| ErrForeignKeyViolation   (* store.ErrForeignKeyViolation *)
| ErrNoRows                (* pgx.ErrNoRows *)
| ErrNotExist              (* os.ErrNotExist *)
| ErrPermission            (* os.ErrPermission *)
| ErrCtx                   (* ctx.Err(): context.Canceled or DeadlineExceeded *)
| PgError (code : gostring)  (* *pgconn.PgError with its SQLSTATE code *)
| ErrOther (msg : gostring)  (* any other error of a library *)
| Errorf (fmt : string) (args : list fmtarg)
with fmtarg : Type :=
| AStr (s : gostring)      (* %s, %q *)
| AInt (n : Z)             (* %d *)
| AVal (e : error)         (* %v of an error: printed, not wrapped *)
| AWrap (e : error).       (* %w *)

(** The first [%w] argument: what [errors.Unwrap] yields. *)
Fixpoint wrapped (args : list fmtarg) : option error :=
  match args with
  | [] => None
  | AWrap e :: _ => Some e
  | _ :: args' => wrapped args'
  end.

(** [sentinel e]: [e] is one of the package-level error variables, which
    [errors.Is] compares by identity. *)
Definition same_sentinel (e target : error) : bool :=
  match e, target with
  | ErrNotFound, ErrNotFound
  | ErrDuplicate, ErrDuplicate
  | ErrConflict, ErrConflict
  | ErrForeignKeyViolation, ErrForeignKeyViolation
  | ErrNoRows, ErrNoRows
  | ErrNotExist, ErrNotExist
  | ErrPermission, ErrPermission
  | ErrCtx, ErrCtx => true
  | _, _ => false
  end.

(** [errors.Is err target] for a sentinel [target]. *)
Fixpoint Is (err target : error) : bool :=
  same_sentinel err target ||
  match err with
  | Errorf _ args =>
      (fix go (l : list fmtarg) : bool :=
         match l with
         | [] => false
         | AWrap e :: _ => Is e target
         | _ :: l' => go l'
         end) args
  | _ => false
  end.

(** [errors.As(err, &pgErr)] with [pgErr : *pgconn.PgError]: the SQLSTATE
    code of the first [PgError] on the [%w] chain. *)
Fixpoint AsPgError (err : error) : option gostring :=
  match err with
  | PgError code => Some code
  | Errorf _ args =>
      (fix go (l : list fmtarg) : option gostring :=
         match l with
         | [] => None
         | AWrap e :: _ => AsPgError e
         | _ :: l' => go l'
         end) args
  | _ => None
  end.

(** Does the message of [err] print the integer [n]? *)
Fixpoint mentionsInt (n : Z) (err : error) : bool :=
  match err with
  | Errorf _ args =>
      (fix go (l : list fmtarg) : bool :=
         match l with
         | [] => false
         | AInt m :: l' => (m =? n) || go l'
         | AVal e :: l' => mentionsInt n e || go l'
         | AWrap e :: l' => mentionsInt n e || go l'
         | AStr _ :: l' => go l'
         end) args
  | _ => false
  end.

End GoErrors.

(** ** Embedding providers with fallback

    [SimpleRetryStrategy.NextBackoff],
    [FallbackEmbeddingService.GenerateEmbedding] and
    [FallbackEmbeddingService.GenerateEmbeddings]. *)

Module Fallback.
Import GoInt GoString GoErrors.

Record SimpleRetryStrategy := {
  MaxAttempts : Z;
  BaseDelayMs : Z
}.

(** [NextBackoff]: [Some ms], or [None] where [1 << attempt] panics. *)
Definition NextBackoff (s : SimpleRetryStrategy) (attempt : Z) : option Z :=
  if MaxAttempts s <=? 0 then Some (-1)
  else if attempt >=? MaxAttempts s then Some (-1)
  else
    match shl64 1 attempt with
    | None => None
    | Some p =>
        let backoff := mul64 (BaseDelayMs s) p in
        let maxDelay := 30000 in
        Some (if backoff >? maxDelay then maxDelay else backoff)
    end.

(** What one provider call returns. *)
Inductive reply (V : Type) : Type :=
| Vec (v : V)
| Failed (e : error).
Arguments Vec {V} v.
Arguments Failed {V} e.

(** The world the call runs in: the [k]-th provider invocation of this call,
    made to the provider at index [i], returns [provide k i]; the context is
    found cancelled after the [k]-th invocation when [cancelledAfter k], and
    is cancelled during the wait that follows it when [cancelledWaiting k]. *)
Record world (V : Type) := {
  provide : nat -> nat -> reply V;
  cancelledAfter : nat -> bool;
  cancelledWaiting : nat -> bool
}.
Arguments provide {V} w k i.
Arguments cancelledAfter {V} w k.
Arguments cancelledWaiting {V} w k.

(** The service and the locals of the running call. *)
Record state := {
  ActiveProvider : nat;        (* s.ActiveProvider *)
  initialProviderIndex : nat;
  attempt : Z;
  lastErr : option error;
  calls : nat                  (* provider invocations made so far *)
}.

Inductive outcome (V : Type) : Type :=
| Returned (v : V)
| NoProviders (e : error)
| Cancelled (e : error)
| Exhausted (e : error)   (* "all embedding providers failed ..." *)
| Panicked.
Arguments Returned {V} v.
Arguments NoProviders {V} e.
Arguments Cancelled {V} e.
Arguments Exhausted {V} e.
Arguments Panicked {V}.

Definition lastErrArg (e : option error) : list fmtarg :=
  match e with Some e' => [AWrap e'] | None => [] end.

(** The part of the loop body after a failed attempt, shared by the two
    methods: ask the strategy, then either rotate or wait and retry. *)
Definition afterFailure {V : Type} (strategy : Z -> option Z)
  (numProviders : nat) (w : world V) (st : state) (lastErr' : option error)
  (exhaustedMsg cancelledMsg : string) : outcome V + state :=
  match strategy (attempt st) with
  | None => inl Panicked
  | Some backoffMs =>
      if backoffMs <? 0 then
        let nextProviderIndex :=
          ((ActiveProvider st + 1) mod numProviders)%nat in
        if Nat.eqb nextProviderIndex (initialProviderIndex st)
        then inl (Exhausted (Errorf exhaustedMsg (lastErrArg lastErr')))
        else inr {| ActiveProvider := nextProviderIndex;
                    initialProviderIndex := nextProviderIndex;
                    attempt := 0;
                    lastErr := lastErr';
                    calls := S (calls st) |}
      else if cancelledWaiting w (calls st)
      then inl (Cancelled (Errorf cancelledMsg [AWrap ErrCtx]))
      else inr {| ActiveProvider := ActiveProvider st;
                  initialProviderIndex := initialProviderIndex st;
                  attempt := attempt st + 1;
                  lastErr := lastErr';
                  calls := S (calls st) |}
  end.

(** One iteration of the loop of [GenerateEmbedding].  [names] are the
    providers' names, one per provider. *)
Definition GenerateEmbedding_step {V : Type} (strategy : Z -> option Z)
  (names : list gostring) (w : world V) (st : state) : outcome V + state :=
  match names !! ActiveProvider st with
  | None => inl Panicked
  | Some name =>
      let r := provide w (calls st) (ActiveProvider st) in
      if cancelledAfter w (calls st)
      then inl (Cancelled
             (Errorf "context cancelled during embedding generation: %w"
                     [AWrap ErrCtx]))
      else
        match r with
        | Vec v => inl (Returned v)
        | Failed err =>
            let lastErr' :=
              Some (Errorf "provider %s failed: %w" [AStr name; AWrap err]) in
            afterFailure strategy (length names) w st lastErr'
              "all embedding providers failed after cycling through: last error: %w"
              "context cancelled while waiting to retry: %w"
        end
  end.

(** One iteration of the loop of [GenerateEmbeddings]: a reply of the wrong
    length counts as a failure. *)
Definition GenerateEmbeddings_step {V : Type} (strategy : Z -> option Z)
  (names : list gostring) (texts : nat) (w : world (list V)) (st : state)
  : outcome (list V) + state :=
  match names !! ActiveProvider st with
  | None => inl Panicked
  | Some name =>
      let r := provide w (calls st) (ActiveProvider st) in
      if cancelledAfter w (calls st)
      then inl (Cancelled
             (Errorf "context cancelled during batch embedding generation: %w"
                     [AWrap ErrCtx]))
      else
        let continue (lastErr' : option error) :=
          afterFailure strategy (length names) w st lastErr'
            "all embedding providers failed batch generation after cycling through: last error: %w"
            "context cancelled while waiting to retry batch: %w" in
        match r with
        | Vec vecs =>
            if negb (Nat.eqb (length vecs) texts)
            then continue
                   (Some (Errorf
                      "provider %s returned mismatched vector count (%d != %d)"
                      [AStr name; AInt (Z.of_nat (length vecs));
                       AInt (Z.of_nat texts)]))
            else inl (Returned vecs)
        | Failed err =>
            continue
              (Some (Errorf "provider %s failed batch generation: %w"
                            [AStr name; AWrap err]))
        end
  end.

(** The [for] loop, run for at most [fuel] iterations.  [inl (o, n)]: the
    method returned [o] after [n] provider invocations; [inr st]: the loop is
    still running after [fuel] iterations, in state [st]. *)
Fixpoint loop {V : Type} (step : state -> outcome V + state) (fuel : nat)
  (st : state) : outcome V * nat + state :=
  match fuel with
  | O => inr st
  | S fuel' =>
      match step st with
      | inl o => inl (o, S (calls st))
      | inr st' => loop step fuel' st'
      end
  end.

Definition start (active : nat) : state :=
  {| ActiveProvider := active; initialProviderIndex := active;
     attempt := 0; lastErr := None; calls := O |}.

(** [GenerateEmbedding] on a service whose active index is [active]. *)
Definition GenerateEmbedding {V : Type} (strategy : Z -> option Z)
  (names : list gostring) (active : nat) (w : world V) (fuel : nat)
  : outcome V * nat + state :=
  match names with
  | [] => inl (NoProviders (Errorf "no embedding providers configured" []), O)
  | _ => loop (GenerateEmbedding_step strategy names w) fuel (start active)
  end.

Definition GenerateEmbeddings {V : Type} (strategy : Z -> option Z)
  (names : list gostring) (active : nat) (texts : nat) (w : world (list V))
  (fuel : nat) : outcome (list V) * nat + state :=
  match names with
  | [] => inl (NoProviders (Errorf "no embedding providers configured" []), O)
  | _ => loop (GenerateEmbeddings_step strategy names texts w) fuel
              (start active)
  end.

(** A world in which every provider fails on every attempt and the context
    is never cancelled. *)
Definition allFail (V : Type) (e : error) : world V :=
  {| provide := fun _ _ => Failed e;
     cancelledAfter := fun _ => false;
     cancelledWaiting := fun _ => false |}.

(** The strategy that [NewFallbackEmbeddingService] installs by default. *)
Definition defaultStrategy : SimpleRetryStrategy :=
  {| MaxAttempts := 3; BaseDelayMs := 100 |}.

(** An invariant of the loop.  After the first attempt of a call, the index that the exhaustion test
    compares with is the active index itself. *)
Definition rotating (n : nat) (st : state) : Prop :=
  initialProviderIndex st = ActiveProvider st
  /\ (ActiveProvider st < n)%nat
  /\ 0 <= attempt st.

End Fallback.

(** ** The primary store

    [calculateHash], [CreateContent], [CreateContentIfNotExists],
    [FindContentByHash], [GetContentsByIDs], [ListContent] and
    [RecordJobEnqueue] of package [primary], over a model of the tables of
    [migrations/001_init.sql] that they touch. *)

Module Store.
Import GoString GoErrors.

(** [models.Content]. *)
Record Content := {
  ID : Z;
  SourceID : Z;
  Title : gostring;
  Body : gostring;
  ContentHash : gostring;
  FilePath : option gostring;
  FileSize : option Z;
  ContentType : gostring;
  Metadata : option gostring;       (* json.RawMessage; nil is None *)
  EmbeddingID : option gostring;
  IsEmbedded : bool;
  LastAccessedAt : option Z;
  ModifiedAt : option Z;
  Summary : option gostring;
  CreatedAt : Z;
  UpdatedAt : Z
}.

#[global] Instance Content_eq_dec : EqDecision Content.
Proof. solve_decision. Defined.

(** [models.Tag], as far as the queries read it. *)
Record Tag := {
  TagID : Z;
  TagName : gostring
}.

(** [store.JobRecordParams]. *)
Record JobRecordParams := {
  JobID : gostring;                  (* uuid.UUID *)
  TaskType : gostring;
  Payload : option gostring;         (* []byte; nil is None *)
  Queue : gostring;
  Status : gostring;
  RelatedEntityType : gostring;
  RelatedEntityID : Z
}.

(** A row of [background_jobs], as far as [RecordJobEnqueue] writes it. *)
Record JobRow := {
  job_row_id : Z;
  job_id : gostring;
  job_task_type : gostring;
  job_payload : gostring;
  job_queue : gostring;
  job_status : gostring;
  job_related_entity_type : gostring;
  job_related_entity_id : option Z;  (* sql.NullInt64 *)
  job_created_at : Z;
  job_updated_at : Z
}.

(** The database.  [faults] is what the connection will do to the
    statements to come: the next statement fails with [e], without effect,
    when the head is [Some e]; it runs when the head is [None] or the list is
    empty.  Failures that do not depend on the tables (a lost connection, a
    cancelled context, a value the server cannot parse) are faults. *)
Record db := {
  content : list Content;            (* rows of content, oldest first *)
  content_id_seq : Z;                (* last value of the BIGSERIAL *)
  sources : list Z;                  (* ids of the rows of sources *)
  tags : list Tag;
  content_tags : list (Z * Z);       (* (content_id, tag_id) *)
  background_jobs : list JobRow;
  background_jobs_id_seq : Z;
  faults : list (option error)
}.

Definition with_faults (d : db) (f : list (option error)) : db :=
  {| content := content d; content_id_seq := content_id_seq d;
     sources := sources d; tags := tags d; content_tags := content_tags d;
     background_jobs := background_jobs d;
     background_jobs_id_seq := background_jobs_id_seq d; faults := f |}.

Definition with_content (d : db) (rows : list Content) (seq : Z) : db :=
  {| content := rows; content_id_seq := seq;
     sources := sources d; tags := tags d; content_tags := content_tags d;
     background_jobs := background_jobs d;
     background_jobs_id_seq := background_jobs_id_seq d;
     faults := faults d |}.

Definition with_jobs (d : db) (rows : list JobRow) (seq : Z) : db :=
  {| content := content d; content_id_seq := content_id_seq d;
     sources := sources d; tags := tags d; content_tags := content_tags d;
     background_jobs := rows; background_jobs_id_seq := seq;
     faults := faults d |}.

(** Sending a statement: the fault, if any, and the connection after it. *)
Definition send (d : db) : option error * db :=
  match faults d with
  | [] => (None, d)
  | f :: fs => (f, with_faults d fs)
  end.

(** *** Hashing *)

Definition hexDigit (n : Z) : rune :=
  if n <? 10 then 48 + n else 87 + n.

(** [hex.EncodeToString]. *)
Definition EncodeToString (bytes : list Z) : gostring :=
  flat_map (fun b => [hexDigit (b / 16); hexDigit (b mod 16)]) bytes.

Section WithSHA256.

(** [sha256.Sum256] of the bytes of a string (package crypto/sha256). *)
Variable Sum256 : gostring -> list Z.

Definition calculateHash (body : gostring) : gostring :=
  EncodeToString (Sum256 body).

(** *** Statements on [content] *)

(** [SELECT ... FROM content WHERE content_hash = $1], read with
    [QueryRow(...).Scan]: the first row, or [pgx.ErrNoRows]. *)
Definition select_by_hash (d : db) (hash : gostring)
  : (Content + error) * db :=
  match send d with
  | (Some e, d') => (inr e, d')
  | (None, d') =>
      match List.find (fun c => eqb (ContentHash c) hash) (content d') with
      | Some c => (inl c, d')
      | None => (inr ErrNoRows, d')
      end
  end.

(** [INSERT INTO content (...) VALUES (...) RETURNING id, created_at,
    updated_at].  The sequence is advanced first and is not rolled back; the
    unique index on [content_hash] is checked when the row is written
    (SQLSTATE 23505), the foreign key on [source_id] at the end of the
    statement (23503). *)
Definition insert_content (d : db) (c : Content) (now : Z)
  : (Z * Z * Z + error) * db :=
  match send d with
  | (Some e, d') => (inr e, d')
  | (None, d') =>
      let id := content_id_seq d' + 1 in
      if existsb (fun r => eqb (ContentHash r) (ContentHash c)) (content d')
      then (inr (PgError (runes "23505")), with_content d' (content d') id)
      else if negb (existsb (Z.eqb (SourceID c)) (sources d'))
      then (inr (PgError (runes "23503")), with_content d' (content d') id)
      else
        let row :=
          {| ID := id; SourceID := SourceID c; Title := Title c;
             Body := Body c; ContentHash := ContentHash c;
             FilePath := FilePath c; FileSize := FileSize c;
             ContentType := ContentType c; Metadata := Metadata c;
             EmbeddingID := None; IsEmbedded := false;
             LastAccessedAt := None; ModifiedAt := ModifiedAt c;
             Summary := Summary c; CreatedAt := now; UpdatedAt := now |} in
        (inl (id, now, now), with_content d' (content d' ++ [row]) id)
  end.

Definition set_hash (c : Content) (h : gostring) : Content :=
  {| ID := ID c; SourceID := SourceID c; Title := Title c; Body := Body c;
     ContentHash := h; FilePath := FilePath c; FileSize := FileSize c;
     ContentType := ContentType c; Metadata := Metadata c;
     EmbeddingID := EmbeddingID c; IsEmbedded := IsEmbedded c;
     LastAccessedAt := LastAccessedAt c; ModifiedAt := ModifiedAt c;
     Summary := Summary c; CreatedAt := CreatedAt c;
     UpdatedAt := UpdatedAt c |}.

Definition set_metadata (c : Content) (m : option gostring) : Content :=
  {| ID := ID c; SourceID := SourceID c; Title := Title c; Body := Body c;
     ContentHash := ContentHash c; FilePath := FilePath c;
     FileSize := FileSize c; ContentType := ContentType c; Metadata := m;
     EmbeddingID := EmbeddingID c; IsEmbedded := IsEmbedded c;
     LastAccessedAt := LastAccessedAt c; ModifiedAt := ModifiedAt c;
     Summary := Summary c; CreatedAt := CreatedAt c;
     UpdatedAt := UpdatedAt c |}.

Definition set_returning (c : Content) (id created updated : Z) : Content :=
  {| ID := id; SourceID := SourceID c; Title := Title c; Body := Body c;
     ContentHash := ContentHash c; FilePath := FilePath c;
     FileSize := FileSize c; ContentType := ContentType c;
     Metadata := Metadata c; EmbeddingID := EmbeddingID c;
     IsEmbedded := IsEmbedded c; LastAccessedAt := LastAccessedAt c;
     ModifiedAt := ModifiedAt c; Summary := Summary c; CreatedAt := created;
     UpdatedAt := updated |}.

(** [CreateContent].  The struct behind the pointer argument is returned
    as it is when the method returns. *)
Definition CreateContent (now : Z) (d : db) (content0 : Content)
  : option error * Content * db :=
  let c1 := set_hash content0 (calculateHash (Body content0)) in
  let c2 := match Metadata c1 with
            | None => set_metadata c1 (Some (runes "{}"))
            | Some _ => c1
            end in
  match insert_content d c2 now with
  | (inl (id, created, updated), d') =>
      (None, set_returning c2 id created updated, d')
  | (inr err, d') =>
      let isCode (code : string) :=
        match AsPgError err with
        | Some c => eqb c (runes code)
        | None => false
        end in
      if isCode "23503" then
        (Some (Errorf "source ID %d does not exist: %w"
                 [AInt (SourceID c2); AWrap ErrForeignKeyViolation]), c2, d')
      else if isCode "23505" then
        (Some (Errorf
           "content with hash %s already exists (use CreateContentIfNotExists): %w"
           [AStr (ContentHash c2); AWrap ErrDuplicate]), c2, d')
      else
        (Some (Errorf "failed to insert content: %w" [AWrap err]), c2, d')
  end.

(** [FindContentByHash]. *)
Definition FindContentByHash (d : db) (hash : gostring)
  : (Content + error) * db :=
  match select_by_hash d hash with
  | (inl c, d') => (inl c, d')
  | (inr err, d') =>
      if Is err ErrNoRows then (inr ErrNotFound, d')
      else (inr (Errorf "failed to find content by hash %s: %w"
                   [AStr hash; AWrap err]), d')
  end.

(** [CreateContentIfNotExists].  [between] is what other clients of the
    database do to it after this call has looked the hash up and before it
    inserts.  The result is [(existed, err)], the struct behind the pointer
    argument, and the database. *)
Definition CreateContentIfNotExists (now : Z) (between : db -> db) (d : db)
  (content0 : Content) : (bool * option error) * Content * db :=
  let c1 := set_hash content0 (calculateHash (Body content0)) in
  let '(found, d1) := FindContentByHash d (ContentHash c1) in
  let fresh (_ : unit) :=
    let '(err, c2, d2) := CreateContent now (between d1) c1 in
    match err with
    | None => ((false, None), c2, d2)
    | Some e =>
        let unique_violation :=
          match AsPgError e with
          | Some code => eqb code (runes "23505")
          | None => false
          end in
        if unique_violation then
          match FindContentByHash d2 (ContentHash c2) with
          | (inr errFetch, d3) =>
              ((false,
                Some (Errorf
                  "failed to fetch concurrently inserted content (hash %s): %w"
                  [AStr (ContentHash c2); AWrap errFetch])), c2, d3)
          | (inl existing, d3) => ((true, None), existing, d3)
          end  (* FindContentByHash never returns (nil, nil) *)
        else
          ((false, Some (Errorf "failed to create new content: %w" [AWrap e])),
           c2, d2)
    end in
  match found with
  | inr err =>
      if negb (Is err ErrNotFound) then
        ((false,
          Some (Errorf "failed checking for existing content by hash: %w"
                  [AWrap err])), c1, d1)
      else fresh tt
  | inl existing => ((true, None), existing, d1)
  end.

(** No row of [content] carries the hash [h]. *)
Definition unhashed (d : db) (h : gostring) : Prop :=
  existsb (fun r => eqb (ContentHash r) h) (content d) = false.

(** The row that [CreateContent] stores for [c] at time [now] when the
    sequence stands at [seq]. *)
Definition stored (c : Content) (seq now : Z) : Content :=
  {| ID := seq + 1; SourceID := SourceID c; Title := Title c;
     Body := Body c; ContentHash := calculateHash (Body c);
     FilePath := FilePath c; FileSize := FileSize c;
     ContentType := ContentType c;
     Metadata := match Metadata c with
                 | None => Some (runes "{}")
                 | Some m => Some m
                 end;
     EmbeddingID := None; IsEmbedded := false; LastAccessedAt := None;
     ModifiedAt := ModifiedAt c; Summary := Summary c; CreatedAt := now;
     UpdatedAt := now |}.

End WithSHA256.

(** *** [GetContentsByIDs] *)

(** [SELECT ... FROM content WHERE id = ANY($1)], read with [Query]. *)
Definition select_by_ids (d : db) (ids : list Z)
  : (list Content + error) * db :=
  match send d with
  | (Some e, d') => (inr e, d')
  | (None, d') =>
      (inl (List.filter (fun c => existsb (Z.eqb (ID c)) ids) (content d')),
       d')
  end.

(** The loop over [rows]: [contentsMap[content.ID] = content]. *)
Definition collect (rows : list Content) : gmap Z Content :=
  fold_left (fun m c => <[ID c := c]> m) rows ∅.

(** [GetContentsByIDs]; a nil pointer in the result is [None]. *)
Definition GetContentsByIDs (d : db) (ids : list Z)
  : (list (option Content) + error) * db :=
  match ids with
  | [] => (inl [], d)
  | _ =>
      match select_by_ids d ids with
      | (inr err, d') =>
          (inr (Errorf "failed to query contents by IDs: %w" [AWrap err]), d')
      | (inl rows, d') =>
          let contentsMap := collect rows in
          (inl (map (fun id => contentsMap !! id) ids), d')
      end
  end.

(** *** [ListContent] *)

(** The value of an [ORDER BY] column in a row. *)
Inductive key : Type :=
| KInt (z : Z)
| KStr (s : gostring)
| KNull.

Fixpoint str_le (s t : gostring) : bool :=
  match s, t with
  | [], _ => true
  | _ :: _, [] => false
  | a :: s', b :: t' =>
      if a <? b then true else if b <? a then false else str_le s' t'
  end.

(** The order of the database on keys: integers and timestamps by value,
    text by code point, NULL after every value. *)
Definition key_le (a b : key) : bool :=
  match a, b with
  | _, KNull => true
  | KNull, _ => false
  | KInt x, KInt y => x <=? y
  | KInt _, KStr _ => true
  | KStr _, KInt _ => false
  | KStr s, KStr t => str_le s t
  end.

(** The columns of [content] that can be named in [ORDER BY]. *)
Definition column (name : gostring) : option (Content -> key) :=
  if eqb name (runes "c.id") then Some (fun c => KInt (ID c))
  else if eqb name (runes "c.title") then Some (fun c => KStr (Title c))
  else if eqb name (runes "c.created_at")
       then Some (fun c => KInt (CreatedAt c))
  else if eqb name (runes "c.updated_at")
       then Some (fun c => KInt (UpdatedAt c))
  else if eqb name (runes "c.modified_at")
       then Some (fun c => match ModifiedAt c with
                           | Some t => KInt t
                           | None => KNull
                           end)
  else None.

(** [ASC] or [DESC] applied to the order on keys. *)
Definition directed (dir : gostring) (a b : key) : bool :=
  if eqb dir (runes "DESC") then key_le b a else key_le a b.

Fixpoint insert_sorted {A : Type} (le : A -> A -> bool) (x : A)
  (l : list A) : list A :=
  match l with
  | [] => [x]
  | y :: l' => if le x y then x :: l else y :: insert_sorted le x l'
  end.

Definition sort {A : Type} (le : A -> A -> bool) (l : list A) : list A :=
  fold_right (insert_sorted le) [] l.

(** The query that [ListContent] assembles: the tag names bound to the
    placeholders of [WHERE t.name IN (...)] (no join and no [WHERE] when
    empty), the column and direction written into [ORDER BY], and the values
    bound to [LIMIT] and [OFFSET]. *)
Record listQuery := {
  tagNames : list gostring;
  orderBy : gostring;
  direction : gostring;
  limitArg : Z;
  offsetArg : Z
}.

(** The rows of [content c JOIN content_tags ct ON c.id = ct.content_id
    JOIN tags t ON ct.tag_id = t.id WHERE t.name IN names], one per matching
    pair of association and tag. *)
Definition joined (d : db) (names : list gostring) : list Content :=
  flat_map (fun c =>
    flat_map (fun ct =>
      flat_map (fun t =>
        if (ID c =? fst ct) && (snd ct =? TagID t)
           && existsb (eqb (TagName t)) names
        then [c] else [])
        (tags d))
      (content_tags d))
    (content d).

(** [SELECT DISTINCT c.* FROM content c ... ORDER BY ... LIMIT ... OFFSET ...]. *)
Definition select_list (d : db) (q : listQuery)
  : (list Content + error) * db :=
  match send d with
  | (Some e, d') => (inr e, d')
  | (None, d') =>
      match column (orderBy q) with
      | None => (inr (PgError (runes "42703")), d')
      | Some col =>
          let rows := match tagNames q with
                      | [] => content d'
                      | names => joined d' names
                      end in
          let ordered :=
            sort (fun a b => directed (direction q) (col a) (col b))
                 (remove_dups rows) in
          (inl (take (Z.to_nat (limitArg q))
                     (drop (Z.to_nat (offsetArg q)) ordered)), d')
      end
  end.

(** [validSortColumns]. *)
Definition validSortColumns : gset gostring :=
  {[ runes "c.id"; runes "c.title"; runes "c.created_at";
     runes "c.updated_at"; runes "c.modified_at" ]}.

(** The query built by [ListContent] from its arguments. *)
Definition listContentQuery (limit offset : Z) (sortBy sortOrder : gostring)
  (filterTags : list gostring) : listQuery :=
  let sortBy1 :=
    if bool_decide (sortBy ∈ validSortColumns) then sortBy
    else runes "c.created_at" in
  let sortOrder1 := ToUpper sortOrder in
  let sortOrder2 :=
    if negb (eqb sortOrder1 (runes "ASC"))
       && negb (eqb sortOrder1 (runes "DESC"))
    then runes "DESC" else sortOrder1 in
  let limit1 := if limit <=? 0 then 20 else limit in
  let offset1 := if offset <? 0 then 0 else offset in
  {| tagNames := filterTags; orderBy := sortBy1; direction := sortOrder2;
     limitArg := limit1; offsetArg := offset1 |}.

(** [ListContent]. *)
Definition ListContent (d : db) (limit offset : Z)
  (sortBy sortOrder : gostring) (filterTags : list gostring)
  : (list Content + error) * db :=
  match select_list d (listContentQuery limit offset sortBy sortOrder
                         filterTags) with
  | (inr err, d') =>
      (inr (Errorf "failed to list content: %w" [AWrap err]), d')
  | (inl contents, d') => (inl contents, d')
  end.

(** *** [RecordJobEnqueue] *)

(** [INSERT INTO background_jobs (...) VALUES (...) ON CONFLICT (job_id) DO
    NOTHING RETURNING id], read with [QueryRow(...).Scan]: the id of the new
    row, or [pgx.ErrNoRows] when a row with this [job_id] exists and nothing
    was inserted.  The sequence is advanced in both cases. *)
Definition insert_job (d : db) (jobID taskType payload queue status
  relatedEntityType : gostring) (relatedID : option Z) (now : Z)
  : (Z + error) * db :=
  match send d with
  | (Some e, d') => (inr e, d')
  | (None, d') =>
      let id := background_jobs_id_seq d' + 1 in
      if existsb (fun r => eqb (job_id r) jobID) (background_jobs d')
      then (inr ErrNoRows, with_jobs d' (background_jobs d') id)
      else
        let row :=
          {| job_row_id := id; job_id := jobID; job_task_type := taskType;
             job_payload := payload; job_queue := queue;
             job_status := status;
             job_related_entity_type := relatedEntityType;
             job_related_entity_id := relatedID;
             job_created_at := now; job_updated_at := now |} in
        (inl id, with_jobs d' (background_jobs d' ++ [row]) id)
  end.

(** [RecordJobEnqueue]: the returned error ([None] is nil). *)
Definition RecordJobEnqueue (now : Z) (d : db) (params : JobRecordParams)
  : option error * db :=
  let payloadJSON := match Payload params with
                     | Some p => p
                     | None => runes "{}"
                     end in
  let relatedID := if RelatedEntityID params =? 0 then None
                   else Some (RelatedEntityID params) in
  match insert_job d (JobID params) (TaskType params) payloadJSON
          (Queue params) (Status params) (RelatedEntityType params)
          relatedID now with
  | (inr err, d') =>
      if Is err ErrNoRows then (None, d')
      else (Some (Errorf
              "failed to record job enqueue event for JobID %s: %w"
              [AStr (JobID params); AWrap err]), d')
  | (inl insertedID, d') => (None, d')
  end.

(** The number of rows of [background_jobs] with the task UUID [u]. *)
Definition jobRows (d : db) (u : gostring) : nat :=
  length (List.filter (fun r => eqb (job_id r) u) (background_jobs d)).

(** *** Sample data *)

(** A database with one source (id 1) and nothing else. *)
Definition oneSourceDB : db :=
  {| content := []; content_id_seq := 0; sources := [1]; tags := [];
     content_tags := []; background_jobs := [];
     background_jobs_id_seq := 0; faults := [] |}.

(** What [buildContentModel] makes of an input that is not a file: a
    struct with the source, title, body and content type set and every
    other field at its zero value. *)
Definition newContent (sourceID : Z) (title body contentType : gostring)
  : Content :=
  {| ID := 0; SourceID := sourceID; Title := title; Body := body;
     ContentHash := []; FilePath := None; FileSize := None;
     ContentType := contentType; Metadata := None;
     EmbeddingID := None; IsEmbedded := false; LastAccessedAt := None;
     ModifiedAt := None; Summary := None; CreatedAt := 0; UpdatedAt := 0 |}.

Definition rawContent (sourceID : Z) (title body : gostring) : Content :=
  newContent sourceID title body (runes "text/plain; charset=utf-8").

(** What the ordering and the tag filter of [ListContent] are stated
    with. *)
Definition ascending (keyOf : Content -> key) (l : list Content) : Prop :=
  Sorted (fun a b => key_le (keyOf a) (keyOf b) = true) l.

Definition descending (keyOf : Content -> key) (l : list Content) : Prop :=
  Sorted (fun a b => key_le (keyOf b) (keyOf a) = true) l.

(** [c] is associated with a tag whose name is among [names]. *)
Definition bears (d : db) (c : Content) (names : list gostring) : Prop :=
  exists t, In t (tags d) /\ In (ID c, TagID t) (content_tags d)
            /\ In (TagName t) names.

(** [c] is a row that a listing filtered by [filterTags] selects. *)
Definition selected (d : db) (filterTags : list gostring) (c : Content)
  : Prop :=
  In c (content d) /\ (filterTags = [] \/ bears d c filterTags).

(** Two rows whose titles and creation times are in opposite orders. *)
Definition rowB : Content :=
  {| ID := 1; SourceID := 1; Title := runes "b"; Body := runes "first";
     ContentHash := runes "h1"; FilePath := None; FileSize := None;
     ContentType := runes "text/plain"; Metadata := None;
     EmbeddingID := None; IsEmbedded := false; LastAccessedAt := None;
     ModifiedAt := None; Summary := None; CreatedAt := 100;
     UpdatedAt := 100 |}.

Definition rowA : Content :=
  {| ID := 2; SourceID := 1; Title := runes "a"; Body := runes "second";
     ContentHash := runes "h2"; FilePath := None; FileSize := None;
     ContentType := runes "text/plain"; Metadata := None;
     EmbeddingID := None; IsEmbedded := false; LastAccessedAt := None;
     ModifiedAt := None; Summary := None; CreatedAt := 200;
     UpdatedAt := 200 |}.

Definition twoRowDB : db := with_content oneSourceDB [rowB; rowA] 2.

End Store.

(** ** Chunking

    Package [chunking]: [estimateTokens], [calculateSentenceOverlap],
    [FallbackChunker.Chunk], [MarkdownChunker.Chunk], [htmlChunker.Chunk],
    [isBlockElement], [simpleChunkText], [getOverlap] and
    [ContentAwareChunk]. *)

Module Chunking.
Import GoString GoErrors Store.

Definition DefaultMaxTokens : Z := 200.
Definition DefaultOverlap : Z := 50.

(** A value stored in [Metadata map[string]interface{}]. *)
Inductive value : Type :=
| VInt (n : Z)
| VStr (s : gostring)
| VStrs (l : list gostring).

Record Chunk := {
  Text : gostring;
  Metadata : gmap string value
}.

Definition len {A : Type} (l : list A) : Z := Z.of_nat (length l).

(** [estimateTokens]. *)
Definition estimateTokens (text : gostring) : Z := len (Fields text).

(** The three statements with which every [Chunk] method validates its
    parameters ("Validate and apply defaults for chunking parameters"). *)
Definition applyDefaults (maxTokens overlap : Z) : Z * Z :=
  let maxTokens := if maxTokens <=? 0 then DefaultMaxTokens else maxTokens in
  let overlap := if overlap <? 0 then DefaultOverlap else overlap in
  let overlap := if overlap >=? maxTokens then maxTokens - 1 else overlap in
  (maxTokens, overlap).

Section WithTokenizer.

(** [sentences.NewSentenceTokenizer(nil)] of package neurosnap/sentences:
    [None] when it returns nil, else the function from a text to the texts
    of its sentences ([Tokenize]). *)
Variable tokenizer : option (gostring -> list gostring).

(** The loop of [calculateSentenceOverlap] that walks the sentences from
    the last one backwards; [revSents] are the sentences still to visit. *)
Fixpoint pickSentences (overlapTokens : Z) (revSents : list gostring)
  (overlapSentences : list gostring) (accumulatedTokens : Z)
  : list gostring :=
  match revSents with
  | [] => overlapSentences
  | s :: rest =>
      let sentenceText := TrimSpace s in
      if eqb sentenceText [] then
        pickSentences overlapTokens rest overlapSentences accumulatedTokens
      else
        let sentenceTokens := estimateTokens sentenceText in
        if accumulatedTokens + sentenceTokens <=? overlapTokens then
          pickSentences overlapTokens rest (sentenceText :: overlapSentences)
            (accumulatedTokens + sentenceTokens)
        else
          match overlapSentences with
          | [] => [sentenceText]
          | _ => overlapSentences
          end
  end.

(** [calculateSentenceOverlap]. *)
Definition calculateSentenceOverlap (text : gostring) (overlapTokens : Z)
  : gostring :=
  if (overlapTokens <=? 0) || eqb text [] then []
  else
    match tokenizer with
    | None =>
        let words := Fields text in
        let overlapTokens :=
          if overlapTokens >? len words then len words else overlapTokens in
        if (len words =? 0) || (overlapTokens <=? 0) then []
        else Join (drop (Z.to_nat (len words - overlapTokens)) words)
                  (runes " ") ++ runes " "
    | Some tokenize =>
        match tokenize text with
        | [] => []
        | sents =>
            match pickSentences overlapTokens (rev sents) [] 0 with
            | [] => []
            | overlapSentences =>
                Join overlapSentences (runes " ") ++ runes " "
            end
        end
    end.

(** The loop that cuts the words of a long line into runs of [maxTokens]
    words; [words] is [words[startIndex:]].  The loop makes progress because
    [maxTokens >= 1] after validation; [fuel] bounds its iterations. *)
Fixpoint wordChunks (fuel : nat) (maxTokens : Z) (words : list gostring)
  : list gostring :=
  match fuel with
  | O => []
  | S fuel' =>
      match words with
      | [] => []
      | _ =>
          let n := Z.to_nat (Z.min maxTokens (len words)) in
          Join (take n words) (runes " ")
            :: wordChunks fuel' maxTokens (drop n words)
      end
  end.

Definition linePieces (maxTokens : Z) (line : gostring) : list gostring :=
  let line := TrimSpace line in
  if eqb line [] then []
  else if estimateTokens line <=? maxTokens then [line]
  else let words := Fields line in
       wordChunks (length words) maxTokens words.

Definition paragraphPieces (maxTokens : Z) (para : gostring)
  : list gostring :=
  let para := TrimSpace para in
  if eqb para [] then []
  else if estimateTokens para <=? maxTokens then [para]
  else flat_map (linePieces maxTokens) (Split para [nl]).

(** The paragraph, line and word splitting that [FallbackChunker.Chunk]
    and the [processSection] closure of [MarkdownChunker.Chunk] both spell
    out: the pieces of [text] before overlap is applied. *)
Definition intermediateChunks (maxTokens : Z) (text : gostring)
  : list gostring :=
  flat_map (paragraphPieces maxTokens) (Split text [nl; nl]).

(** The variables of the assembling loop.  [chunkIndex] and [finalChunks]
    outlive a section of the Markdown chunker; the other two are reset. *)
Record assembly := {
  currentChunk : gostring;
  currentTokens : Z;
  chunkIndex : Z;
  finalChunks : list Chunk
}.

(** The loop "Apply Overlap and create final Chunks", which the two
    chunkers share up to the metadata they attach: [meta i w] is the
    metadata of the chunk with index [i], with the warning when [w]. *)
Fixpoint assemble (meta : Z -> bool -> gmap string value)
  (maxTokens overlap : Z) (pieces : list gostring) (a : assembly)
  : assembly :=
  match pieces with
  | [] => a
  | piece :: rest =>
      let pieceTokens := estimateTokens piece in
      let a1 :=
        if (currentTokens a >? 0)
           && (currentTokens a + pieceTokens >? maxTokens) then
          let finalizedChunkText := TrimSpace (currentChunk a) in
          let out := finalChunks a ++
                     [{| Text := finalizedChunkText;
                         Metadata := meta (chunkIndex a) false |}] in
          let idx := chunkIndex a + 1 in
          let overlapText :=
            calculateSentenceOverlap finalizedChunkText overlap in
          let tokens := estimateTokens overlapText in
          if (tokens + pieceTokens >? maxTokens) && (tokens >? 0) then
            {| currentChunk := []; currentTokens := 0;
               chunkIndex := idx + 1;
               finalChunks := out ++
                 [{| Text := TrimSpace overlapText;
                     Metadata := meta idx true |}] |}
          else
            {| currentChunk := overlapText; currentTokens := tokens;
               chunkIndex := idx; finalChunks := out |}
        else a in
      let sep :=
        if negb (eqb (currentChunk a1) [])
           && negb (HasSuffix (currentChunk a1) (runes " "))
        then runes " " else [] in
      let text := currentChunk a1 ++ sep ++ piece in
      let tokens := currentTokens a1 + pieceTokens in
      let a2 :=
        match rest with
        | [] =>
            if negb (eqb (TrimSpace text) []) then
              {| currentChunk := text; currentTokens := tokens;
                 chunkIndex := chunkIndex a1 + 1;
                 finalChunks := finalChunks a1 ++
                   [{| Text := TrimSpace text;
                       Metadata := meta (chunkIndex a1) false |}] |}
            else
              {| currentChunk := text; currentTokens := tokens;
                 chunkIndex := chunkIndex a1;
                 finalChunks := finalChunks a1 |}
        | _ =>
            {| currentChunk := text; currentTokens := tokens;
               chunkIndex := chunkIndex a1; finalChunks := finalChunks a1 |}
        end in
      assemble meta maxTokens overlap rest a2
  end.

(** *** The fallback chunker *)

Definition fallbackMeta (i : Z) (warning : bool) : gmap string value :=
  if warning then
    <["warning" := VStr (runes "Overlap truncated due to large piece following")]>
      {["chunk_index" := VInt i]}
  else {["chunk_index" := VInt i]}.

(** [FallbackChunker.Chunk]; it returns no error. *)
Definition FallbackChunker_Chunk (content : Content) (maxTokens overlap : Z)
  : list Chunk :=
  let text := TrimSpace (Body content) in
  if eqb text [] then []
  else
    let '(maxTokens, overlap) := applyDefaults maxTokens overlap in
    match intermediateChunks maxTokens text with
    | [] => []
    | pieces =>
        finalChunks
          (assemble fallbackMeta maxTokens overlap pieces
             {| currentChunk := []; currentTokens := 0; chunkIndex := 0;
                finalChunks := [] |})
    end.

(** *** The Markdown chunker *)

(** The class [\s] of package regexp: tab, newline, form feed, carriage
    return, space. *)
Definition isRegexpSpace (r : rune) : bool :=
  (r =? 9) || (r =? 10) || (r =? 12) || (r =? 13) || (r =? 32).

Fixpoint span (p : rune -> bool) (s : gostring) : nat :=
  match s with
  | r :: s' => if p r then S (span p s') else O
  | [] => O
  end.

(** A match of the heading pattern of the source (in multi-line mode: a
    line start, two or more hashes, one or more [\s], a group holding the
    rest of the line, the line end) that starts at the head of [s], a line
    start: the numbers of runes matched by the hashes, by the white space and
    by the group.  The three are greedy and the first choice succeeds or no
    choice does: after fewer hashes there is no space, and the group always
    stops in front of a newline or at the end of the text. *)
Definition headingAt (s : gostring) : option (nat * nat * nat) :=
  let hashes := span (fun r => r =? 35) s in
  if (hashes <? 2)%nat then None
  else
    let s1 := drop hashes s in
    let spaces := span isRegexpSpace s1 in
    if (spaces =? 0)%nat then None
    else
      let s2 := drop spaces s1 in
      Some (hashes, spaces, span (fun r => negb (r =? nl)) s2).

(** [re.FindAllStringSubmatchIndex(text, -1)]: for each match, in order,
    the positions [(m0, m1, g0, g1)] of the match and of its group.  The
    scan reads the rune at position [pos]; [lineStart] tells whether [^]
    matches there; [skip] runes of the last match are still to be passed
    over. *)
Fixpoint findAll (pos : nat) (lineStart : bool) (skip : nat) (s : gostring)
  : list (nat * nat * nat * nat) :=
  match s with
  | [] => []
  | r :: s' =>
      match skip with
      | S k => findAll (S pos) (r =? nl) k s'
      | O =>
          match (if lineStart then headingAt s else None) with
          | Some (hashes, spaces, rest) =>
              let g0 := (pos + hashes + spaces)%nat in
              let m1 := (g0 + rest)%nat in
              (pos, m1, g0, m1)
                :: findAll (S pos) (r =? nl) (m1 - pos - 1)%nat s'
          | None => findAll (S pos) (r =? nl) O s'
          end
      end
  end.

(** [s[i:j]]. *)
Definition slice {A : Type} (s : list A) (i j : nat) : list A :=
  take (j - i)%nat (drop i s).

Definition markdownMeta (heading : gostring) (i : Z) (warning : bool)
  : gmap string value :=
  let base : gmap string value :=
    <["source_heading" := VStr heading]> {["chunk_index" := VInt i]} in
  if warning then <["warning" := VStr (runes "Overlap truncated")]> base
  else base.

(** The closure [processSection]: [(chunkIndex, finalChunks)] before and
    after. *)
Definition processSection (maxTokens overlap : Z)
  (sectionText heading : gostring) (st : Z * list Chunk)
  : Z * list Chunk :=
  let sectionText := TrimSpace sectionText in
  if eqb sectionText [] then st
  else
    let a := assemble (markdownMeta heading) maxTokens overlap
               (intermediateChunks maxTokens sectionText)
               {| currentChunk := []; currentTokens := 0;
                  chunkIndex := fst st; finalChunks := snd st |} in
    (chunkIndex a, finalChunks a).

(** The loop over [matches]; [ms] are the matches from the current one. *)
Fixpoint processSections (maxTokens overlap : Z) (text : gostring)
  (ms : list (nat * nat * nat * nat)) (st : Z * list Chunk)
  : Z * list Chunk :=
  match ms with
  | [] => st
  | (m0, m1, g0, g1) :: rest =>
      let start := m1 in
      let headingText := TrimSpace (slice text g0 g1) in
      let end_ := match rest with
                  | (n0, _, _, _) :: _ => n0
                  | [] => length text
                  end in
      processSections maxTokens overlap text rest
        (processSection maxTokens overlap (slice text start end_)
           headingText st)
  end.

(** [MarkdownChunker.Chunk]; it returns no error. *)
Definition MarkdownChunker_Chunk (content : Content) (maxTokens overlap : Z)
  : list Chunk :=
  let text := TrimSpace (Body content) in
  if eqb text [] then []
  else
    let '(maxTokens, overlap) := applyDefaults maxTokens overlap in
    let matches := findAll O true O text in
    match matches with
    | [] => snd (processSection maxTokens overlap text [] (0, []))
    | (m0, _, _, _) :: _ =>
        snd (processSections maxTokens overlap text matches
               (processSection maxTokens overlap (slice text O m0) []
                  (0, [])))
    end.

(** *** The HTML chunker *)

(** [html.NodeType] and [html.Node] of golang.org/x/net/html: a node with
    its children from [FirstChild] along [NextSibling]. *)
Inductive NodeType : Type :=
| ErrorNode | TextNode | DocumentNode | ElementNode | CommentNode
| DoctypeNode | RawNode.

#[warnings="-register-all"]
Inductive Node : Type :=
| mkNode (type : NodeType) (Data : gostring) (children : list Node).

Definition isElement (t : NodeType) : bool :=
  match t with ElementNode => true | _ => false end.

Definition isText (t : NodeType) : bool :=
  match t with TextNode => true | _ => false end.

Definition oneOf (names : list string) (s : gostring) : bool :=
  existsb (fun n => eqb s (runes n)) names.

(** [ignoreTags]. *)
Definition ignoreTags (tag : gostring) : bool :=
  oneOf ["script"; "style"; "head"; "nav"; "footer"; "aside"; "form";
         "noscript"]%string tag.

(** [isBlockElement]. *)
Definition isBlockElement (n : Node) : bool :=
  match n with
  | mkNode t data _ =>
      isElement t &&
      oneOf ["address"; "article"; "aside"; "blockquote"; "canvas"; "dd";
             "div"; "dl"; "dt"; "fieldset"; "figcaption"; "figure";
             "footer"; "form"; "h1"; "h2"; "h3"; "h4"; "h5"; "h6"; "header";
             "hr"; "li"; "main"; "nav"; "noscript"; "ol"; "p"; "pre";
             "section"; "table"; "tfoot"; "ul"; "video"]%string data
  end.

(** [getOverlap]. *)
Definition getOverlap (text : gostring) (overlap : Z) : gostring :=
  let trimmedText := TrimSpace text in
  if (overlap <=? 0) || eqb trimmedText [] then []
  else
    let words := Fields trimmedText in
    if len words <=? overlap then trimmedText
    else Join (drop (Z.to_nat (len words - overlap)) words) (runes " ").

(** The loop of [simpleChunkText]; [fuel] bounds its iterations (each one
    advances [startIndex] by one word at least). *)
Fixpoint simpleChunkLoop (fuel : nat) (words : list gostring)
  (maxTokens overlap : Z) (parserType : gostring)
  (startIndex chunkIndex : Z) : list Chunk :=
  match fuel with
  | O => []
  | S fuel' =>
      let totalWords := len words in
      if startIndex <? totalWords then
        let endIndex := startIndex + maxTokens in
        let endIndex := if endIndex >? totalWords then totalWords
                        else endIndex in
        let endIndex := if endIndex <=? startIndex then startIndex + 1
                        else endIndex in
        let chunkText :=
          Join (slice words (Z.to_nat startIndex) (Z.to_nat endIndex))
               (runes " ") in
        let nextStart := startIndex + maxTokens - overlap in
        let nextStart := if nextStart <=? startIndex then startIndex + 1
                         else nextStart in
        {| Text := chunkText;
           Metadata := <["chunk_index" := VInt chunkIndex]>
                         {["parser" := VStr parserType]} |}
          :: simpleChunkLoop fuel' words maxTokens overlap parserType
               nextStart (chunkIndex + 1)
      else []
  end.

(** [simpleChunkText]. *)
Definition simpleChunkText (text : gostring) (maxTokens overlap : Z)
  (parserType : gostring) : list Chunk :=
  let words := Fields text in
  simpleChunkLoop (length words) words maxTokens overlap parserType 0 0.

(** The variables that the closure [traverse] shares with [Chunk]. *)
Record walk := {
  wChunk : gostring;            (* currentChunk *)
  wTokens : Z;                  (* currentTokens *)
  wIndex : Z;                   (* chunkIndex *)
  wIsBlock : bool;              (* isBlock *)
  wTags : list gostring;        (* currentBlockTags *)
  wChunks : list Chunk          (* chunks *)
}.

Definition htmlMeta (i : Z) (tags : list gostring) : gmap string value :=
  <["source_tags" := VStrs tags]> {["chunk_index" := VInt i]}.

Definition endsBlank (s : gostring) : bool :=
  HasSuffix s (runes " ") || HasSuffix s [nl].

Definition separate (w : walk) : walk :=
  {| wChunk := wChunk w ++ [nl; nl]; wTokens := wTokens w;
     wIndex := wIndex w; wIsBlock := wIsBlock w; wTags := wTags w;
     wChunks := wChunks w |}.

(** What [traverse] does with the text of a text node. *)
Definition addText (maxTokens overlap : Z) (data : gostring) (w : walk)
  : walk :=
  let text := TrimSpace data in
  if eqb text [] then w
  else
    let wordCount := len (Fields text) in
    let w1 :=
      if (wTokens w + wordCount >? maxTokens) && (len (wChunk w) >? 0) then
        let overlappedText := getOverlap (wChunk w) overlap in
        let sep := if negb (eqb overlappedText [])
                      && negb (endsBlank overlappedText)
                   then runes " " else [] in
        {| wChunk := overlappedText ++ sep;
           wTokens := len (Fields overlappedText);
           wIndex := wIndex w + 1; wIsBlock := wIsBlock w;
           wTags := wTags w;
           wChunks := wChunks w ++
             [{| Text := TrimSpace (wChunk w);
                 Metadata := htmlMeta (wIndex w) (wTags w) |}] |}
      else w in
    let sep := if (len (wChunk w1) >? 0) && negb (endsBlank (wChunk w1))
               then runes " " else [] in
    {| wChunk := wChunk w1 ++ sep ++ text;
       wTokens := wTokens w1 + wordCount;
       wIndex := wIndex w1; wIsBlock := wIsBlock w1; wTags := wTags w1;
       wChunks := wChunks w1 |}.

(** The closure [traverse], applied to a node [n] whose [NextSibling] is
    [next]. *)
Fixpoint traverse (maxTokens overlap : Z) (n : Node) (next : option Node)
  (w : walk) {struct n} : walk :=
  match n with
  | mkNode t data children =>
      if isElement t && ignoreTags data then w
      else
        let w1 :=
          if wIsBlock w && (len (wChunk w) >? 0)
             && negb (HasSuffix (wChunk w) [nl; nl])
          then separate w else w in
        let w2 := if isText t then addText maxTokens overlap data w1
                  else w1 in
        let pushedTag := isBlockElement n in
        let w3 :=
          {| wChunk := wChunk w2; wTokens := wTokens w2;
             wIndex := wIndex w2; wIsBlock := pushedTag;
             wTags := if pushedTag then wTags w2 ++ [data] else wTags w2;
             wChunks := wChunks w2 |} in
        let w4 :=
          (fix each (cs : list Node) (w : walk) {struct cs} : walk :=
             match cs with
             | [] => w
             | c :: cs' =>
                 each cs' (traverse maxTokens overlap c (head cs') w)
             end) children w3 in
        let w5 :=
          if wIsBlock w4 && (len (wChunk w4) >? 0)
             && negb (HasSuffix (wChunk w4) [nl; nl])
          then
            let isNextBlock := match next with
                               | Some nx => isBlockElement nx
                               | None => false
                               end in
            if negb isNextBlock || match next with None => true | Some _ => false end
            then separate w4 else w4
          else w4 in
        if pushedTag && (len (wTags w5) >? 0) then
          {| wChunk := wChunk w5; wTokens := wTokens w5;
             wIndex := wIndex w5; wIsBlock := wIsBlock w5;
             wTags := take (length (wTags w5) - 1)%nat (wTags w5);
             wChunks := wChunks w5 |}
        else w5
  end.

Section WithParser.

(** [html.Parse] on the text of a string. *)
Variable Parse : gostring -> Node + error.

(** [htmlChunker.Chunk]; it returns no error.  The statements are in the
    order of the source: the remaining chunk is flushed and the emptiness
    of [chunks] is tested before [traverse(doc)] is reached. *)
Definition htmlChunker_Chunk (content : Content) (maxTokens overlap : Z)
  : list Chunk :=
  let body := TrimSpace (Body content) in
  if eqb body [] then []
  else
    let '(maxTokens, overlap) := applyDefaults maxTokens overlap in
    match Parse body with
    | inr err =>
        simpleChunkText (Body content) maxTokens overlap
          (runes "html-fallback")
    | inl doc =>
        let w0 := {| wChunk := []; wTokens := 0; wIndex := 0;
                     wIsBlock := false; wTags := []; wChunks := [] |} in
        let w1 :=
          if len (wChunk w0) >? 0 then
            {| wChunk := wChunk w0; wTokens := wTokens w0;
               wIndex := wIndex w0; wIsBlock := wIsBlock w0;
               wTags := wTags w0;
               wChunks := wChunks w0 ++
                 [{| Text := TrimSpace (wChunk w0);
                     Metadata := htmlMeta (wIndex w0) (wTags w0) |}] |}
          else w0 in
        if (len (wChunks w1) =? 0) && negb (eqb body []) then
          simpleChunkText (Body content) maxTokens overlap
            (runes "html-fallback")
        else wChunks (traverse maxTokens overlap doc None w1)
    end.

(** *** Choosing the chunker *)

(** [json.Unmarshal] of the metadata into a map, followed by
    [meta["chunker"].(string)]: the string under the key [chunker], when
    the metadata is a JSON object that has one. *)
Variable chunkerOverride : gostring -> option gostring.

Definition stamp (parser : gostring) (chunks : list Chunk) : list Chunk :=
  let totalChunks := len chunks in
  map (fun c =>
         {| Text := Text c;
            Metadata := <["total_chunks" := VInt totalChunks]>
                          (<["parser" := VStr parser]> (Metadata c)) |})
      chunks.

(** [ContentAwareChunk].  No [Chunk] method returns an error, so the
    branch that retries with the fallback chunker does not run. *)
Definition ContentAwareChunk (content : Content) (maxTokens overlap : Z)
  : list Chunk :=
  let targetChunkerType :=
    match Store.Metadata content with
    | Some m =>
        if len m >? 0 then
          match chunkerOverride m with
          | Some override =>
              if negb (eqb override []) then ToLower override
              else runes "fallback"
          | None => runes "fallback"
          end
        else runes "fallback"
    | None => runes "fallback"
    end in
  let targetChunkerType :=
    if eqb targetChunkerType (runes "fallback") then
      let contentTypeLower := ToLower (ContentType content) in
      if Contains contentTypeLower (runes "markdown") then runes "markdown"
      else if Contains contentTypeLower (runes "html") then runes "html"
      else targetChunkerType
    else targetChunkerType in
  if eqb targetChunkerType (runes "markdown") then
    stamp (runes "markdown") (MarkdownChunker_Chunk content maxTokens overlap)
  else if eqb targetChunkerType (runes "html") then
    stamp (runes "html") (htmlChunker_Chunk content maxTokens overlap)
  else
    stamp (runes "fallback") (FallbackChunker_Chunk content maxTokens overlap).

(** The four entry points of the package that take chunking parameters. *)
Definition entryPoints : list (Content -> Z -> Z -> list Chunk) :=
  [FallbackChunker_Chunk; MarkdownChunker_Chunk; htmlChunker_Chunk;
   ContentAwareChunk].

End WithParser.

End WithTokenizer.

(** *** What the properties are stated with *)

(** The number of runes of [s] that start a field: a rune that is not white
    space and follows white space or nothing ([afterSpace] tells which holds
    at the head of [s]). *)
Fixpoint fieldStarts (afterSpace : bool) (s : gostring) : nat :=
  match s with
  | [] => O
  | r :: s' =>
      ((if afterSpace && negb (isSpace r) then 1 else 0)
       + fieldStarts (isSpace r) s')%nat
  end.

(** The Markdown document of the specification's example. *)
Definition markdownExample : Content :=
  newContent 1 (runes "notes")
    (runes "## Intro" ++ [nl] ++ runes "para1" ++ [nl; nl]
     ++ runes "## Body" ++ [nl] ++ runes "para2")
    (runes "text/markdown").

(** An HTML document with a paragraph and a script. *)
Definition htmlExample : Content :=
  newContent 1 (runes "page") (runes "<p>Hello</p><script>x()</script>")
    (runes "text/html").

(** The tree that [html.Parse] builds for [htmlExample]. *)
Definition htmlExampleTree : Node :=
  mkNode DocumentNode []
    [mkNode ElementNode (runes "html")
       [mkNode ElementNode (runes "head") [];
        mkNode ElementNode (runes "body")
          [mkNode ElementNode (runes "p") [mkNode TextNode (runes "Hello") []];
           mkNode ElementNode (runes "script")
             [mkNode TextNode (runes "x()") []]]]].

(** The metadata values of a list of chunks under one key. *)
Definition metadataOf (key : string) (chunks : list Chunk)
  : list (option value) :=
  map (fun c => Metadata c !! key) chunks.

End Chunking.

(** ** The input processor

    [defaultProcessor.Process] of package [inputprocessor], over the file
    system and the network it reaches through [os], [net/url] and
    [net/http]. *)

Module InputProcessor.
Import GoString GoErrors.

(** [inputprocessor.Result]. *)
Record Result := {
  Body : gostring;
  ContentType : gostring;
  FilePath : option gostring;
  FileSize : option Z;
  URL : option gostring;
  Mtime : option Z;
  Metadata : gmap string gostring
}.

(** [os.FileInfo], as far as it is read. *)
Record FileInfo := {
  IsDir : bool;
  Size : Z;
  ModTime : Z
}.

(** [*url.URL], as far as it is read: the scheme and the result of
    [String()]. *)
Record ParsedURL := {
  Scheme : gostring;
  urlString : gostring
}.

(** The request that [http.NewRequestWithContext(ctx, method, url, nil)]
    builds; [reqCtx] names the context it is bound to. *)
Record Request := {
  reqCtx : Z;
  reqMethod : gostring;
  reqURL : gostring
}.

(** [*http.Response], as far as it is read: the status code, the
    [Content-Type] header (empty when absent), what [io.ReadAll] returns for
    the body, and what it returns for the first 1024 bytes of the body. *)
Record Response := {
  StatusCode : Z;
  contentTypeHeader : gostring;
  readAll : gostring + error;
  bodyHint : gostring
}.

(** The environment of a call. *)
Record world := {
  Stat : gostring -> FileInfo + error;          (* os.Stat *)
  ReadFile : gostring -> gostring + error;      (* os.ReadFile *)
  Abs : gostring -> gostring + error;           (* filepath.Abs *)
  DetectContentType : gostring -> gostring;     (* http.DetectContentType *)
  FormatRFC3339 : Z -> gostring;                (* Time.Format(time.RFC3339) *)
  urlParse : gostring -> ParsedURL + error;     (* url.Parse *)
  newRequestErr : gostring -> option error;     (* http.NewRequestWithContext *)
  Do : Request -> Response + error;             (* http.DefaultClient.Do *)
  StatusText : Z -> gostring                    (* http.StatusText *)
}.

Definition StatusOK : Z := 200.

Definition emptyResult : Result :=
  {| Body := []; ContentType := []; FilePath := None; FileSize := None;
     URL := None; Mtime := None; Metadata := ∅ |}.

(** The part of [Process] under "Detect URL" and "Default: Treat as Raw
    String", reached when the input is not a file. *)
Definition processURLOrRaw (w : world) (ctx : Z) (input : gostring)
  : Result * option error :=
  let res := emptyResult in
  let raw :=
    ({| Body := input; ContentType := runes "text/plain; charset=utf-8";
        FilePath := None; FileSize := None; URL := None; Mtime := None;
        Metadata := {["input_type" := runes "raw"]} |}, None) in
  match urlParse w input with
  | inr urlErr => raw
  | inl parsedURL =>
      if eqb (Scheme parsedURL) (runes "http")
         || eqb (Scheme parsedURL) (runes "https") then
        match newRequestErr w input with
        | Some reqErr =>
            (res, Some (Errorf "failed to create request for URL '%s': %w"
                          [AStr input; AWrap reqErr]))
        | None =>
            let req := {| reqCtx := ctx; reqMethod := runes "GET";
                          reqURL := input |} in
            match Do w req with
            | inr httpErr =>
                (res, Some (Errorf "failed to fetch URL '%s': %w"
                              [AStr input; AWrap httpErr]))
            | inl resp =>
                if negb (StatusCode resp =? StatusOK) then
                  (res,
                   Some (Errorf
                     "failed to fetch URL '%s': status code %d %s - Body Hint: %s"
                     [AStr input; AInt (StatusCode resp);
                      AStr (StatusText w (StatusCode resp));
                      AStr (bodyHint resp)]))
                else
                  match readAll resp with
                  | inr readErr =>
                      (res,
                       Some (Errorf
                         "failed to read response body from URL '%s': %w"
                         [AStr input; AWrap readErr]))
                  | inl bodyBytes =>
                      let ct := contentTypeHeader resp in
                      let ct := if eqb ct [] then DetectContentType w bodyBytes
                                else ct in
                      ({| Body := bodyBytes; ContentType := ct;
                          FilePath := None; FileSize := None;
                          URL := Some (urlString parsedURL); Mtime := None;
                          Metadata := {["input_type" := runes "url"]} |},
                       None)
                  end
            end
        end
      else raw
  end.

(** [defaultProcessor.Process]: the result and the error ([None] is nil). *)
Definition Process (w : world) (ctx : Z) (input : gostring)
  : Result * option error :=
  let res := emptyResult in
  match Stat w input with
  | inl fi =>
      if IsDir fi then processURLOrRaw w ctx input
      else
        match ReadFile w input with
        | inr readErr =>
            if Is readErr ErrPermission then
              (res, Some (Errorf "permission denied reading file '%s': %w"
                            [AStr input; AWrap readErr]))
            else
              (res, Some (Errorf "failed to read file '%s': %w"
                            [AStr input; AWrap readErr]))
        | inl data =>
            let absPath := match Abs w input with
                           | inl p => p
                           | inr pathErr => input
                           end in
            ({| Body := data; ContentType := DetectContentType w data;
                FilePath := Some absPath; FileSize := Some (Size fi);
                URL := None; Mtime := Some (ModTime fi);
                Metadata :=
                  <["mtime" := FormatRFC3339 w (ModTime fi)]>
                    {["input_type" := runes "file"]} |}, None)
        end
  | inr err =>
      if negb (Is err ErrNotExist) then
        (res, Some (Errorf "failed to stat input '%s': %w"
                      [AStr input; AWrap err]))
      else processURLOrRaw w ctx input
  end.

(** [input] is not on the file system: [os.Stat] reports that it does not
    exist. *)
Definition notOnDisk (w : world) (input : gostring) : Prop :=
  exists e, Stat w input = inr e /\ Is e ErrNotExist = true.

(** *** Sample environment *)

(** No file exists; every input parses as an [https] URL that prints as
    itself; every request is answered with the status [code] and the body
    "ok", of type [text/plain]. *)
Definition answering (code : Z) : world :=
  {| Stat := fun _ => inr (Errorf "stat %s: %w" [AWrap ErrNotExist]);
     ReadFile := fun _ => inr ErrNotExist;
     Abs := fun p => inl p;
     DetectContentType := fun _ => runes "text/plain; charset=utf-8";
     FormatRFC3339 := fun _ => [];
     urlParse := fun s => inl {| Scheme := runes "https"; urlString := s |};
     newRequestErr := fun _ => None;
     Do := fun _ => inl {| StatusCode := code;
                           contentTypeHeader := runes "text/plain";
                           readAll := inl (runes "ok");
                           bodyHint := runes "ok" |};
     StatusText := fun _ => [] |}.

End InputProcessor.

(** ** The content service

    [ContentService.AddContent] of package [services], with its helpers
    [processInput], [getOrCreateSource], [buildContentModel],
    [getSourceURLFromInputResult] and [enqueueEmbeddingJobIfPossible]. *)

Module ContentService.
Import GoString GoErrors Store.

(** [models.Source], as far as it is read. *)
Record Source := {
  SourceRowID : Z;
  SourceRowName : gostring
}.

Record GetOrCreateSourceParams := {
  Name : gostring;
  Type_ : gostring;
  Desc : option gostring;
  URL : option gostring
}.

Record AddContentParams := {
  SourceName : gostring;
  Title : gostring;
  RawInput : gostring;
  SourceType : gostring
}.

(** [ContentWithCategories], as far as it is read. *)
Record ContentWithCategories := {
  Tags : list gostring
}.

(** The task handed to [JobClient.Enqueue] with its options. *)
Record EnqueueRequest := {
  taskType : gostring;
  taskPayload : gostring;
  relatedEntityType : gostring;
  relatedEntityID : Z;
  queue : gostring;
  maxRetry : Z;
  timeoutMinutes : Z
}.

(** A call made to a collaborator of the service. *)
Inductive call : Type :=
| Process (rawInput : gostring)
| GetOrCreateSource (params : GetOrCreateSourceParams)
| CreateContentIfNotExists (content : Content)
| EnqueueEmbeddingJob (contentID : Z)
| CategorizeContent (title body : gostring)
| GetOrCreateTagsByName (names : list gostring)
| AddTagsToContent (contentID : Z) (tagIDs : list Z)
| Enqueue (request : EnqueueRequest).

(** The calls that enrich a stored content: jobs, categorisation, tags. *)
Definition enriching (c : call) : bool :=
  match c with
  | Process _ | GetOrCreateSource _ | CreateContentIfNotExists _ => false
  | _ => true
  end.

Section WithCollaborators.

(** The state of everything outside the service: database, queue, file
    system, network. *)
Variable W : Type.

(** A computation that reads and changes the outside state and records the
    calls it makes. *)
Definition M (A : Type) : Type := W * list call -> A * (W * list call).

Definition ret {A : Type} (a : A) : M A := fun s => (a, s).

Definition bind {A B : Type} (m : M A) (k : A -> M B) : M B :=
  fun s => let '(a, s') := m s in k a s'.

(** A call to a collaborator: it is recorded, then it runs. *)
Definition invoke {A : Type} (c : call) (f : W -> A * W) : M A :=
  fun s => let '(a, w') := f (fst s) in (a, (w', snd s ++ [c])).

Notation "x <- m ;; k" := (bind m (fun x => k))
  (at level 63, m at next level, right associativity).
Notation "m ;;; k" := (bind m (fun _ => k))
  (at level 63, right associativity).

(** A computation only adds calls to the record of calls. *)
Definition appends {A : Type} (m : M A) : Prop :=
  forall (w : W) (t : list call),
    exists added, snd (snd (m (w, t))) = t ++ added.

(** [store.JobClient], as far as [AddContent] calls it. *)
Record JobClient := {
  doEnqueueEmbeddingJob : Z -> W -> option error * W;
  doEnqueue : EnqueueRequest -> W -> option error * W
}.

(** [config.Config], as far as [AddContent] reads it. *)
Record Config := {
  AutoApplyTags : bool;           (* Categorization.AutoApplyTags *)
  SummarizationEnabled : bool;    (* Summarization.Enabled *)
  Queues : gmap string Z          (* Worker.Queues *)
}.

(** The fields of [ContentService] and of its [deps]; a nil pointer or
    interface is [None]. *)
Record collaborators := {
  processor : gostring -> W -> (InputProcessor.Result + error) * W;
  ss : GetOrCreateSourceParams -> W -> (option Source * option error) * W;
  contents : Content -> W -> (bool * option error * Content) * W;
  tagsGetOrCreate : list gostring -> W -> (list Tag + error) * W;
  tagsAdd : Z -> list Z -> W -> option error * W;
  jobs : option JobClient;
  config : option Config;
  categorizer : option (gostring -> gostring -> W ->
                        (option ContentWithCategories * option error) * W);
  marshalPayload : Z -> gostring + error    (* json.Marshal of the payload *)
}.

Variable cs : collaborators.

(** [processInput]. *)
Definition processInput (rawInput : gostring)
  : M (InputProcessor.Result + error) :=
  r <- invoke (Process rawInput) (processor cs rawInput) ;;
  match r with
  | inr err =>
      ret (inr (Errorf "failed to process input '%s': %w"
                  [AStr rawInput; AWrap err]))
  | inl inputResult => ret (inl inputResult)
  end.

(** [getSourceURLFromInputResult]. *)
Definition getSourceURLFromInputResult (inputResult : InputProcessor.Result)
  : option gostring :=
  match InputProcessor.URL inputResult with
  | Some u => Some u
  | None => None
  end.

(** [getOrCreateSource]. *)
Definition getOrCreateSource (sourceName sourceType : gostring)
  (inputResult : InputProcessor.Result) : M (Source + error) :=
  let params := {| Name := sourceName; Type_ := sourceType; Desc := None;
                   URL := getSourceURLFromInputResult inputResult |} in
  r <- invoke (GetOrCreateSource params) (ss cs params) ;;
  match r with
  | (_, Some err) =>
      ret (inr (Errorf "get/create source '%s': %w"
                  [AStr sourceName; AWrap err]))
  | (None, None) =>
      ret (inr (Errorf
        "failed to get or create source '%s' (returned nil source object)"
        [AStr sourceName]))
  | (Some source, None) => ret (inl source)
  end.

(** [buildContentModel]. *)
Definition buildContentModel (sourceID : Z) (title : gostring)
  (inputResult : InputProcessor.Result) : Content :=
  {| ID := 0; SourceID := sourceID; Store.Title := title;
     Body := InputProcessor.Body inputResult; ContentHash := [];
     FilePath := InputProcessor.FilePath inputResult;
     FileSize := InputProcessor.FileSize inputResult;
     ContentType := InputProcessor.ContentType inputResult;
     Metadata := None; EmbeddingID := None; IsEmbedded := false;
     LastAccessedAt := None;
     ModifiedAt := InputProcessor.Mtime inputResult; Summary := None;
     CreatedAt := 0; UpdatedAt := 0 |}.

(** [enqueueEmbeddingJobIfPossible]. *)
Definition enqueueEmbeddingJobIfPossible (content : Content) : M unit :=
  match jobs cs with
  | Some j =>
      invoke (EnqueueEmbeddingJob (ID content))
             (doEnqueueEmbeddingJob j (ID content)) ;;;
      ret tt
  | None => ret tt
  end.

(** The block "Auto-tagging" of [AddContent]. *)
Definition autoTag (content : Content) : M unit :=
  match config cs, categorizer cs with
  | Some cfg, Some categorize =>
      if AutoApplyTags cfg then
        r <- invoke (CategorizeContent (Store.Title content) (Body content))
                    (categorize (Store.Title content) (Body content)) ;;
        match r with
        | (Some res, None) =>
            if (0 <? Z.of_nat (length (Tags res))) then
              t <- invoke (GetOrCreateTagsByName (Tags res))
                          (tagsGetOrCreate cs (Tags res)) ;;
              match t with
              | inl tagObjs =>
                  if (0 <? Z.of_nat (length tagObjs)) then
                    let tagIDs := map TagID tagObjs in
                    invoke (AddTagsToContent (ID content) tagIDs)
                           (tagsAdd cs (ID content) tagIDs) ;;;
                    ret tt
                  else ret tt
              | inr err => ret tt
              end
            else ret tt
        | _ => ret tt
        end
      else ret tt
  | _, _ => ret tt
  end.

(** The block "Summarization" of [AddContent]. *)
Definition enqueueSummarization (content : Content) : M unit :=
  match config cs, jobs cs with
  | Some cfg, Some j =>
      if SummarizationEnabled cfg then
        match marshalPayload cs (ID content) with
        | inr err => ret tt
        | inl payloadBytes =>
            let queueName :=
              match Queues cfg !! "summarization"%string with
              | Some _ => runes "summarization"
              | None => runes "default"
              end in
            let request :=
              {| taskType := runes "summarization:generate";
                 taskPayload := payloadBytes;
                 relatedEntityType := runes "content";
                 relatedEntityID := ID content;
                 queue := queueName; maxRetry := 3; timeoutMinutes := 5 |} in
            invoke (Enqueue request) (doEnqueue j request) ;;;
            ret tt
        end
      else ret tt
  | _, _ => ret tt
  end.

(** The body of [if !existed] in [AddContent]. *)
Definition enrich (content : Content) : M unit :=
  enqueueEmbeddingJobIfPossible content ;;;
  autoTag content ;;;
  enqueueSummarization content.

(** [AddContent]: the content (nil is [None]), [existed] and the error. *)
Definition AddContent (params : AddContentParams)
  : M (option Content * bool * option error) :=
  r <- processInput (RawInput params) ;;
  match r with
  | inr err => ret (None, false, Some err)
  | inl inputResult =>
      s <- getOrCreateSource (SourceName params) (SourceType params)
             inputResult ;;
      match s with
      | inr err => ret (None, false, Some err)
      | inl source =>
          let content :=
            buildContentModel (SourceRowID source) (Title params)
              inputResult in
          c <- invoke (CreateContentIfNotExists content)
                      (contents cs content) ;;
          match c with
          | (_, Some err, _) =>
              ret (None, false,
                   Some (Errorf "create content: %w" [AWrap err]))
          | (existed, None, content) =>
              (if negb existed then enrich content else ret tt) ;;;
              ret (Some content, existed, None)
          end
      end
  end.

End WithCollaborators.

(** *** A sample service *)

(** A stand-in for the digest, for running the service on sample data. *)
Definition toyDigest (s : gostring) : list Z := map (fun r => r mod 256) s.

(** A file system without files and a parser that accepts no URL: every
    input is a raw string. *)
Definition rawWorld : InputProcessor.world :=
  {| InputProcessor.Stat := fun _ => inr ErrNotExist;
     InputProcessor.ReadFile := fun _ => inr ErrNotExist;
     InputProcessor.Abs := fun p => inl p;
     InputProcessor.DetectContentType := fun _ => runes "text/plain";
     InputProcessor.FormatRFC3339 := fun _ => [];
     InputProcessor.urlParse := fun _ => inr (ErrOther (runes "parse"));
     InputProcessor.newRequestErr := fun _ => None;
     InputProcessor.Do := fun _ => inr (ErrOther (runes "offline"));
     InputProcessor.StatusText := fun _ => [] |}.

(** A service over the database model with every enrichment switched on:
    a job client, a categoriser that suggests one tag, auto-tagging and
    summarisation enabled. *)
Definition sampleService : collaborators db :=
  {| processor := fun raw w =>
       (match InputProcessor.Process rawWorld 0 raw with
        | (r, None) => inl r
        | (_, Some e) => inr e
        end, w);
     ss := fun p w =>
       ((Some {| SourceRowID := 1; SourceRowName := Name p |}, None), w);
     contents := fun c w =>
       let '((existed, err), c', w') :=
         Store.CreateContentIfNotExists toyDigest 0 (fun d => d) w c in
       ((existed, err, c'), w');
     tagsGetOrCreate := fun names w =>
       (inl (map (fun n => {| TagID := 1; TagName := n |}) names), w);
     tagsAdd := fun _ _ w => (None, w);
     jobs := Some {| doEnqueueEmbeddingJob := fun _ w => (None, w);
                     doEnqueue := fun _ w => (None, w) |};
     config := Some {| AutoApplyTags := true; SummarizationEnabled := true;
                       Queues := ∅ |};
     categorizer := Some (fun _ _ w =>
       ((Some {| Tags := [runes "greeting"] |}, None), w));
     marshalPayload := fun _ => inl (runes "{}") |}.

Definition helloParams : AddContentParams :=
  {| SourceName := runes "cli"; Title := runes "greeting";
     RawInput := runes "hello world"; SourceType := runes "cli" |}.

(** The first ingestion of "hello world" into a database with one
    source. *)
Definition firstAdd :=
  AddContent db sampleService helloParams (oneSourceDB, []).


End ContentService.

(** ** Words *)

Module Words.
Import GoString.

(** A word: not empty and free of white space. *)
Definition word (f : gostring) : Prop :=
  f <> [] /\ forallb (fun r => negb (isSpace r)) f = true.

End Words.

(** ** The fallback service: construction and accessors

    [NewFallbackEmbeddingService] and [FallbackEmbeddingService.Dimension],
    [Name] of package [services]. *)

Module FallbackService.
Import GoInt GoString GoErrors Fallback.

(** [EmbeddingProvider], as far as the constructor and the accessors call
    it. *)
Record Provider := {
  providerName : gostring;
  providerModel : gostring;
  providerDimension : Z
}.

(** [FallbackEmbeddingService] without its lock. *)
Record Service := {
  Providers : list Provider;
  Active : nat;                          (* ActiveProvider *)
  Strategy : Z -> option Z               (* RetryStrategy.NextBackoff *)
}.

(** The loop "Ensure all providers have the same dimension": the first
    provider from index 1 on whose dimension is not [dim]. *)
Definition firstMismatch (dim : Z) (rest : list Provider) : option Provider :=
  List.find (fun p => negb (providerDimension p =? dim)) rest.

(** [NewFallbackEmbeddingService]; a nil strategy is [None]. *)
Definition NewFallbackEmbeddingService (providers : list Provider)
  (strategy : option (Z -> option Z)) : Service + error :=
  match providers with
  | [] => inr (Errorf "at least one embedding provider is required" [])
  | p0 :: rest =>
      let strategy := match strategy with
                      | Some s => s
                      | None => NextBackoff defaultStrategy
                      end in
      match firstMismatch (providerDimension p0) rest with
      | Some p =>
          inr (Errorf
            "all embedding providers must have the same dimension (provider %s has %d, expected %d)"
            [AStr (providerName p); AInt (providerDimension p);
             AInt (providerDimension p0)])
      | None =>
          inl {| Providers := providers; Active := O; Strategy := strategy |}
      end
  end.

(** [Dimension]: [None] where indexing [Providers] panics. *)
Definition Dimension (s : Service) : option Z :=
  match Providers s with
  | [] => Some 0
  | _ => option_map providerDimension (Providers s !! Active s)
  end.

(** [Name]. *)
Definition Name (s : Service) : gostring :=
  match Providers s !! Active s with
  | Some p => providerName p
  | None => []
  end.

(** The service after the running call has reached the state [st]. *)
Definition during (s : Service) (st : state) : Service :=
  {| Providers := Providers s; Active := ActiveProvider st;
     Strategy := Strategy s |}.

(** A world in which the provider at index 0 always fails with [e], every
    other provider answers [v], and the context is never cancelled. *)
Definition firstFails (V : Type) (e : error) (v : V) : world V :=
  {| provide := fun _ i => match i with O => Failed e | _ => Vec v end;
     cancelledAfter := fun _ => false;
     cancelledWaiting := fun _ => false |}.

(** The number of retries that a strategy grants a provider. *)
Definition retries (s : SimpleRetryStrategy) : Z := Z.max (MaxAttempts s) 0.

(** A strategy whose delays are not negative and do not overflow within
    the retries it grants. *)
Definition patient (s : SimpleRetryStrategy) : Prop :=
  0 <= BaseDelayMs s
  /\ (0 < MaxAttempts s -> BaseDelayMs s * 2 ^ (MaxAttempts s - 1) < 2 ^ 63).

(** Two providers of 768 dimensions. *)
Definition twoProviders : list Provider :=
  [ {| providerName := runes "openai"; providerModel := runes "m1";
       providerDimension := 768 |};
    {| providerName := runes "gemini"; providerModel := runes "m2";
       providerDimension := 768 |} ].

End FallbackService.

(** ** More of the primary store

    [GetContent], [UpdateContent], [DeleteContent] and
    [UpdateContentEmbeddingStatus] of [content_store.go], and
    [UpdateJobStatus] of the job store, over the same tables. *)

Module StoreMore.
Import GoString GoErrors Store.

Definition with_content_tags (d : db) (cts : list (Z * Z)) : db :=
  {| content := content d; content_id_seq := content_id_seq d;
     sources := sources d; tags := tags d; content_tags := cts;
     background_jobs := background_jobs d;
     background_jobs_id_seq := background_jobs_id_seq d;
     faults := faults d |}.

(** What [Scan] makes of a row of the statement below: the column
    [last_accessed_at] is not selected, so that field of the struct stays
    nil. *)
Definition scanned (r : Content) : Content :=
  {| ID := ID r; SourceID := SourceID r; Title := Title r; Body := Body r;
     ContentHash := ContentHash r; FilePath := FilePath r;
     FileSize := FileSize r; ContentType := ContentType r;
     Metadata := Metadata r; EmbeddingID := EmbeddingID r;
     IsEmbedded := IsEmbedded r; LastAccessedAt := None;
     ModifiedAt := ModifiedAt r; Summary := Summary r;
     CreatedAt := CreatedAt r; UpdatedAt := UpdatedAt r |}.

(** [SELECT id, source_id, ..., modified_at FROM content WHERE id = $1],
    read with [QueryRow(...).Scan]. *)
Definition select_by_id (d : db) (id : Z) : (Content + error) * db :=
  match send d with
  | (Some e, d') => (inr e, d')
  | (None, d') =>
      match List.find (fun c => ID c =? id) (content d') with
      | Some c => (inl (scanned c), d')
      | None => (inr ErrNoRows, d')
      end
  end.

(** [GetContent]. *)
Definition GetContent (d : db) (id : Z) : (Content + error) * db :=
  match select_by_id d id with
  | (inl c, d') => (inl c, d')
  | (inr err, d') =>
      if Is err ErrNoRows then (inr ErrNotFound, d')
      else (inr (Errorf "failed to get content by id %d: %w"
                   [AInt id; AWrap err]), d')
  end.

(** The row [r] after [UPDATE content SET title = ..., ..., modified_at =
    ... ] with the values of [c] at time [now]. *)
Definition rewritten (r c : Content) (now : Z) : Content :=
  {| ID := ID r; SourceID := SourceID r; Title := Title c; Body := Body c;
     ContentHash := ContentHash c; FilePath := FilePath c;
     FileSize := FileSize c; ContentType := ContentType c;
     Metadata := Metadata c; EmbeddingID := EmbeddingID r;
     IsEmbedded := IsEmbedded r; LastAccessedAt := LastAccessedAt r;
     ModifiedAt := ModifiedAt c; Summary := Summary c;
     CreatedAt := CreatedAt r; UpdatedAt := now |}.

(** [UPDATE content SET ... WHERE id = $11 RETURNING updated_at], read with
    [QueryRow]: no row when the id is absent; SQLSTATE 23505 when another
    row carries the new hash. *)
Definition update_content (d : db) (c : Content) (now : Z)
  : (Z + error) * db :=
  match send d with
  | (Some e, d') => (inr e, d')
  | (None, d') =>
      if negb (existsb (fun r => ID r =? ID c) (content d'))
      then (inr ErrNoRows, d')
      else if existsb (fun r => negb (ID r =? ID c)
                                && eqb (ContentHash r) (ContentHash c))
                      (content d')
      then (inr (PgError (runes "23505")), d')
      else
        (inl now,
         with_content d'
           (map (fun r => if ID r =? ID c then rewritten r c now else r)
                (content d'))
           (content_id_seq d'))
  end.

Definition set_updated (c : Content) (updated : Z) : Content :=
  set_returning c (ID c) (CreatedAt c) updated.

Section WithSHA256.

Variable Sum256 : gostring -> list Z.

(** [UpdateContent]: the error and the struct behind the pointer. *)
Definition UpdateContent (now : Z) (d : db) (content0 : Content)
  : option error * Content * db :=
  let c1 := set_hash content0 (calculateHash Sum256 (Body content0)) in
  let c2 := match Metadata c1 with
            | None => set_metadata c1 (Some (runes "{}"))
            | Some _ => c1
            end in
  match update_content d c2 now with
  | (inl updated, d') => (None, set_updated c2 updated, d')
  | (inr err, d') =>
      if Is err ErrNoRows then (Some ErrNotFound, c2, d')
      else
        match AsPgError err with
        | Some code =>
            if eqb code (runes "23505") then
              (Some (Errorf "content with hash %s already exists: %w"
                       [AStr (ContentHash c2); AWrap ErrDuplicate]), c2, d')
            else
              (Some (Errorf "failed to update content %d: %w"
                       [AInt (ID c2); AWrap err]), c2, d')
        | None =>
            (Some (Errorf "failed to update content %d: %w"
                     [AInt (ID c2); AWrap err]), c2, d')
        end
  end.

End WithSHA256.

(** [UPDATE content SET is_embedded = $1, embedding_id = $2, updated_at =
    $3 WHERE id = $4], run with [Exec]: the number of rows affected. *)
Definition update_embedding (d : db) (contentID : Z)
  (embeddingID : gostring) (isEmbedded : bool) (now : Z)
  : (Z + error) * db :=
  match send d with
  | (Some e, d') => (inr e, d')
  | (None, d') =>
      let hit (r : Content) := ID r =? contentID in
      (inl (Z.of_nat (length (List.filter hit (content d')))),
       with_content d'
         (map (fun r =>
                 if hit r then
                   {| ID := ID r; SourceID := SourceID r; Title := Title r;
                      Body := Body r; ContentHash := ContentHash r;
                      FilePath := FilePath r; FileSize := FileSize r;
                      ContentType := ContentType r; Metadata := Metadata r;
                      EmbeddingID := Some embeddingID;
                      IsEmbedded := isEmbedded;
                      LastAccessedAt := LastAccessedAt r;
                      ModifiedAt := ModifiedAt r; Summary := Summary r;
                      CreatedAt := CreatedAt r; UpdatedAt := now |}
                 else r)
              (content d'))
         (content_id_seq d'))
  end.

(** [UpdateContentEmbeddingStatus]. *)
Definition UpdateContentEmbeddingStatus (now : Z) (d : db) (contentID : Z)
  (embeddingID : gostring) (isEmbedded : bool) : option error * db :=
  match update_embedding d contentID embeddingID isEmbedded now with
  | (inr err, d') =>
      (Some (Errorf "failed to update embedding status for content %d: %w"
               [AInt contentID; AWrap err]), d')
  | (inl rowsAffected, d') =>
      if rowsAffected =? 0 then (Some ErrNotFound, d') else (None, d')
  end.

(** The database together with the table [collection_content], as pairs
    [(collection_id, content_id)]. *)
Definition dbc : Type := db * list (Z * Z).

(** [DELETE FROM content_tags WHERE content_id = $1], run with [Exec]. *)
Definition delete_content_tags (s : dbc) (id : Z) : option error * dbc :=
  match send (fst s) with
  | (Some e, d') => (Some e, (d', snd s))
  | (None, d') =>
      (None,
       (with_content_tags d'
          (List.filter (fun ct => negb (fst ct =? id)) (content_tags d')),
        snd s))
  end.

(** [DELETE FROM collection_content WHERE content_id = $1]. *)
Definition delete_collection_content (s : dbc) (id : Z)
  : option error * dbc :=
  match send (fst s) with
  | (Some e, d') => (Some e, (d', snd s))
  | (None, d') =>
      (None, (d', List.filter (fun cc => negb (snd cc =? id)) (snd s)))
  end.

(** [DELETE FROM content WHERE id = $1]: the number of rows affected.  The
    rows of [content_tags] and [collection_content] that refer to the
    content go with it ([ON DELETE CASCADE]). *)
Definition delete_content (s : dbc) (id : Z) : (Z + error) * dbc :=
  match send (fst s) with
  | (Some e, d') => (inr e, (d', snd s))
  | (None, d') =>
      let hit (r : Content) := ID r =? id in
      (inl (Z.of_nat (length (List.filter hit (content d')))),
       (with_content_tags
          (with_content d' (List.filter (fun r => negb (hit r)) (content d'))
             (content_id_seq d'))
          (List.filter (fun ct => negb (fst ct =? id)) (content_tags d')),
        List.filter (fun cc => negb (snd cc =? id)) (snd s)))
  end.

(** [DeleteContent]. *)
Definition DeleteContent (s : dbc) (id : Z) : option error * dbc :=
  match delete_content_tags s id with
  | (Some err, s1) =>
      (Some (Errorf
         "delete content: failed to delete tag associations for content %d: %w"
         [AInt id; AWrap err]), s1)
  | (None, s1) =>
      match delete_collection_content s1 id with
      | (Some err, s2) =>
          (Some (Errorf
             "delete content: failed to delete collection associations for content %d: %w"
             [AInt id; AWrap err]), s2)
      | (None, s2) =>
          match delete_content s2 id with
          | (inr err, s3) =>
              (Some (Errorf "delete content: failed to delete content %d: %w"
                       [AInt id; AWrap err]), s3)
          | (inl rowsAffected, s3) =>
              if rowsAffected =? 0 then (Some ErrNotFound, s3)
              else (None, s3)
          end
      end
  end.

(** [UPDATE background_jobs SET status = $1, updated_at = $2 WHERE job_id =
    $3], run with [Exec]: the number of rows affected. *)
Definition update_job_status (d : db) (jobID status : gostring) (now : Z)
  : (Z + error) * db :=
  match send d with
  | (Some e, d') => (inr e, d')
  | (None, d') =>
      let hit (r : JobRow) := eqb (job_id r) jobID in
      (inl (Z.of_nat (length (List.filter hit (background_jobs d')))),
       with_jobs d'
         (map (fun r =>
                 if hit r then
                   {| job_row_id := job_row_id r; job_id := job_id r;
                      job_task_type := job_task_type r;
                      job_payload := job_payload r;
                      job_queue := job_queue r; job_status := status;
                      job_related_entity_type := job_related_entity_type r;
                      job_related_entity_id := job_related_entity_id r;
                      job_created_at := job_created_at r;
                      job_updated_at := now |}
                 else r)
              (background_jobs d'))
         (background_jobs_id_seq d'))
  end.

(** [UpdateJobStatus]. *)
Definition UpdateJobStatus (now : Z) (d : db) (jobID status : gostring)
  : option error * db :=
  match update_job_status d jobID status now with
  | (inr err, d') =>
      (Some (Errorf "failed to update job status for job %s: %w"
               [AStr jobID; AWrap err]), d')
  | (inl rowsAffected, d') =>
      if rowsAffected =? 0 then
        (Some (Errorf "job %s not found to update status: %w"
                 [AStr jobID; AWrap ErrNotFound]), d')
      else (None, d')
  end.

(** *** Invariants of the tables *)

(** No two rows of [content] carry the same hash ([UNIQUE]). *)
Definition hashesUnique (d : db) : Prop :=
  List.NoDup (map ContentHash (content d)).

(** The ids of [content] are distinct and were drawn from the sequence
    ([BIGSERIAL PRIMARY KEY]). *)
Definition idsFromSequence (d : db) : Prop :=
  List.NoDup (map ID (content d))
  /\ Forall (fun r => ID r <= content_id_seq d) (content d).

(** No two rows of [background_jobs] carry the same task UUID. *)
Definition jobIDsUnique (d : db) : Prop :=
  List.NoDup (map job_id (background_jobs d)).

(** *** Sample data *)

(** A job as the embedding enqueuer records it. *)
Definition sampleJob : JobRecordParams :=
  {| JobID := runes "6f1c"; TaskType := runes "embedding:generate";
     Payload := None; Queue := runes "default"; Status := runes "enqueued";
     RelatedEntityType := runes "content"; RelatedEntityID := 1 |}.

(** The two sample rows, with the first one tagged and in a collection. *)
Definition taggedDB : dbc :=
  (with_content_tags twoRowDB [(1, 7); (2, 7)], [(3, 1); (3, 2)]).

End StoreMore.
(** ** Chunking: windows and numbering

    Vocabulary for the properties of [simpleChunkText], [getOverlap] and
    [ContentAwareChunk]. *)

Module ChunkingMore.
Import GoString Chunking.

(** The number of words by which [simpleChunkText] advances from one chunk
    to the next, and the largest number of words that it puts in a chunk. *)
Definition stride (maxTokens overlap : Z) : Z := Z.max (maxTokens - overlap) 1.
Definition width (maxTokens : Z) : Z := Z.max maxTokens 1.

(** The chunk that holds the window of [words] number [i]. *)
Definition window (words : list gostring) (maxTokens overlap : Z)
  (parserType : gostring) (i : nat) : Chunk :=
  let start := Z.of_nat i * stride maxTokens overlap in
  {| Text := Join (slice words (Z.to_nat start)
                     (Z.to_nat (Z.min (start + width maxTokens) (len words))))
                  (runes " ");
     Metadata := <["chunk_index" := VInt (Z.of_nat i)]>
                   {["parser" := VStr parserType]} |}.

(** The chunks of a list carry their positions as [chunk_index]. *)
Definition numbered (chunks : list Chunk) : Prop :=
  forall (i : nat) (c : Chunk),
    chunks !! i = Some c ->
    Metadata c !! "chunk_index"%string = Some (VInt (Z.of_nat i)).

(** The variables of an assembling loop are in step: the next index is the
    number of chunks made so far, and these are numbered. *)
Definition inStep (idx : Z) (chunks : list Chunk) : Prop :=
  idx = len chunks /\ numbered chunks.

(** A metadata constructor records the index it is given. *)
Definition indexing (meta : Z -> bool -> gmap string value) : Prop :=
  forall (i : Z) (w : bool),
    meta i w !! "chunk_index"%string = Some (VInt i).

(** A sentence tokenizer that invents no words: a sentence of a text has
    at most as many words as the text.  Nothing is asked of a tokenizer that
    could not be made. *)
Definition faithful (tokenizer : option (gostring -> list gostring)) : Prop :=
  match tokenizer with
  | None => True
  | Some tokenize =>
      forall (text s : gostring),
        In s (tokenize text) -> estimateTokens s <= estimateTokens text
  end.

(** A text of at least one and at most [maxTokens] words. *)
Definition withinLimit (maxTokens : Z) (text : gostring) : Prop :=
  1 <= estimateTokens text <= maxTokens.

(** The variables of an assembling loop are steady: the count of tokens is
    that of the chunk being built and within the limit, and so is every
    chunk made so far. *)
Definition steady (maxTokens : Z) (a : assembly) : Prop :=
  currentTokens a = estimateTokens (currentChunk a)
  /\ currentTokens a <= maxTokens
  /\ Forall (fun c => withinLimit maxTokens (Text c)) (finalChunks a).

(** Two assembling loops that differ in the metadata they attach at most:
    the same chunk being built and the same texts made so far. *)
Definition sameTexts (a b : assembly) : Prop :=
  currentChunk a = currentChunk b
  /\ currentTokens a = currentTokens b
  /\ map Text (finalChunks a) = map Text (finalChunks b).

(** The names that [ContentAwareChunk] writes under [parser]. *)
Definition parserNames : list gostring :=
  [runes "markdown"; runes "html"; runes "fallback"].

(** A content of the given type and body, without metadata. *)
Definition typed (contentType body : gostring) : Store.Content :=
  Store.newContent 1 (runes "t") body contentType.

End ChunkingMore.
(** ** The input processor and the content service: more of them

    Vocabulary for [defaultProcessor.Process], and
    [ContentService.GetContent] and [ContentService.DeleteContent] with
    its helpers [deleteEmbeddingsIfPresent] and [deleteContentFromStore]. *)

Module InputProcessorMore.
Import GoString GoErrors InputProcessor.

(** Two environments with the same file system, whatever their networks
    are. *)
Definition sameDisk (w w' : world) : Prop :=
  (forall p, Stat w p = Stat w' p)
  /\ (forall p, ReadFile w p = ReadFile w' p)
  /\ (forall p, Abs w p = Abs w' p)
  /\ (forall b, DetectContentType w b = DetectContentType w' b)
  /\ (forall t, FormatRFC3339 w t = FormatRFC3339 w' t).

(** The value of [input_type] in the metadata of a result. *)
Definition inputType (r : Result) : option gostring :=
  Metadata r !! "input_type"%string.

(** A file system with the one file [notes.txt]; the network answers every
    request with the status [code]. *)
Definition withNotes (code : Z) : world :=
  {| Stat := fun p =>
       if eqb p (runes "notes.txt")
       then inl {| IsDir := false; Size := 5; ModTime := 1700000000 |}
       else inr ErrNotExist;
     ReadFile := fun p =>
       if eqb p (runes "notes.txt") then inl (runes "hello")
       else inr ErrNotExist;
     Abs := fun p => inl (runes "/home/u/" ++ p);
     DetectContentType := fun _ => runes "text/plain; charset=utf-8";
     FormatRFC3339 := fun _ => runes "2023-11-14T22:13:20Z";
     urlParse := fun s => inl {| Scheme := runes "https"; urlString := s |};
     newRequestErr := fun _ => None;
     Do := fun _ => inl {| StatusCode := code;
                           contentTypeHeader := runes "text/plain";
                           readAll := inl (runes "ok");
                           bodyHint := runes "ok" |};
     StatusText := fun _ => [] |}.

End InputProcessorMore.

Module ContentServiceMore.
Import GoString GoErrors Store StoreMore.

Section WithStores.

(** The states behind the content store and behind the vector store. *)
Variables S V : Type.

(** [cs.contents.GetContent] and [cs.contents.DeleteContent]. *)
Variable contentsGet : Z -> S -> (Content + error) * S.
Variable contentsDelete : Z -> S -> option error * S.

(** [ContentService.GetContent]. *)
Definition GetContent (id : Z) (s : S)
  : (option Content * option error) * S :=
  match contentsGet id s with
  | (inr err, s') =>
      ((None,
        Some (Errorf
          "GetContent: failed to get content with ID %d from store: %w"
          [AInt id; AWrap err])), s')
  | (inl content, s') => ((Some content, None), s')
  end.

(** [deleteEmbeddingsIfPresent]; a nil [VectorStore] is [None]. *)
Definition deleteEmbeddingsIfPresent (contentID : Z)
  (vs : option (Z -> V -> option error * V)) (v : V) : option error * V :=
  match vs with
  | Some deleteEmbeddingsByContentID =>
      match deleteEmbeddingsByContentID contentID v with
      | (Some err, v') =>
          (Some (Errorf "deleteEmbeddingsIfPresent: %w" [AWrap err]), v')
      | (None, v') => (None, v')
      end
  | None => (None, v)
  end.

(** [deleteContentFromStore]. *)
Definition deleteContentFromStore (contentID : Z) (s : S)
  : option error * S :=
  match contentsDelete contentID s with
  | (Some err, s') =>
      (Some (Errorf "deleteContentFromStore: %w" [AWrap err]), s')
  | (None, s') => (None, s')
  end.

(** [ContentService.DeleteContent]. *)
Definition DeleteContent (contentID : Z)
  (vs : option (Z -> V -> option error * V)) (st : V * S)
  : option error * (V * S) :=
  match deleteEmbeddingsIfPresent contentID vs (fst st) with
  | (Some err, v') =>
      (Some (Errorf "DeleteContent: %w" [AWrap err]), (v', snd st))
  | (None, v') =>
      match deleteContentFromStore contentID (snd st) with
      | (Some err, s') =>
          (Some (Errorf "DeleteContent: %w" [AWrap err]), (v', s'))
      | (None, s') => (None, (v', s'))
      end
  end.

End WithStores.

(** The service over the primary store. *)
Definition primaryGet (id : Z) (d : db) : (Content + error) * db :=
  StoreMore.GetContent d id.

Definition primaryDelete (id : Z) (s : dbc) : option error * dbc :=
  StoreMore.DeleteContent s id.

(** A vector store that keeps the ids of the contents with embeddings and
    never fails. *)
Definition forgetEmbeddings (id : Z) (v : list Z) : option error * list Z :=
  (None, List.filter (fun i => negb (i =? id)) v).

End ContentServiceMore.
(** ** Command-line helpers

    [ParsePagination] and [ParseTags] of package [clix], given the values
    of the flags they read. *)

Module Clix.
Import GoString.

(** [ParsePagination] on the values of the flags [limit] and [offset]: the
    fields [Limit] and [Offset]; it returns no error. *)
Definition ParsePagination (limit offset : Z) : Z * Z :=
  let limit := if limit <=? 0 then 20 else limit in
  let offset := if offset <? 0 then 0 else offset in
  (limit, offset).

(** [ParseTags] on the value of the flag [tags]; a nil slice is the empty
    list; it returns no error. *)
Definition ParseTags (tagsStr : gostring) : list gostring :=
  if negb (eqb tagsStr []) then
    flat_map (fun t =>
                let trimmed := TrimSpace t in
                if negb (eqb trimmed []) then [trimmed] else [])
             (Split tagsStr (runes ","))
  else [].

(** A tag name as [ParseTags] hands it on: not empty, without white space
    around it, without a comma. *)
Definition tagName (t : gostring) : Prop :=
  t <> [] /\ TrimSpace t = t /\ ~ In 44 t.

End Clix.

(** * Properties *)

(** ** Fallback embedding: rotation and exhaustion *)

Section FallbackFacts.
Import GoInt GoString GoErrors Fallback.

Lemma NextBackoff_total (s : SimpleRetryStrategy) (a : Z) :
  0 <= a -> exists b, NextBackoff s a = Some b.
Proof.
  intros Ha. unfold NextBackoff, shl64.
  destruct (MaxAttempts s <=? 0); [eauto|].
  destruct (a >=? MaxAttempts s); [eauto|].
  destruct (a <? 0) eqn:E; [lia|eauto].
Qed.

Lemma succ_mod_neq (n a : nat) : (2 <= n)%nat -> (a < n)%nat ->
  ((a + 1) mod n)%nat <> a.
Proof.
  intros Hn Ha.
  destruct (Nat.eq_dec (a + 1)%nat n) as [E|E].
  - rewrite E, Nat.Div0.mod_same. lia.
  - rewrite Nat.mod_small; lia.
Qed.

Lemma afterFailure_continues {V : Type} (s : SimpleRetryStrategy) (n : nat)
  (w : world V) (st : state) (le : option error) (m1 m2 : string) :
  (2 <= n)%nat -> rotating n st -> cancelledWaiting w (calls st) = false ->
  exists st', afterFailure (NextBackoff s) n w st le m1 m2 = inr st'
              /\ rotating n st' /\ calls st' = S (calls st).
Proof.
  intros Hn (Hi & Ha & Hat) Hc. unfold afterFailure.
  destruct (NextBackoff_total s _ Hat) as [b ->].
  destruct (b <? 0).
  - rewrite Hi.
    destruct (Nat.eqb_spec ((ActiveProvider st + 1) mod n) (ActiveProvider st))
      as [E|E].
    + exfalso. eapply succ_mod_neq; eauto.
    + eexists; split; [reflexivity|]. split; [|reflexivity].
      unfold rotating; cbn. split; [reflexivity|]. split; [|lia].
      apply Nat.mod_upper_bound. lia.
  - rewrite Hc. eexists; split; [reflexivity|]. split; [|reflexivity].
    unfold rotating; cbn. repeat split; auto; lia.
Qed.

Lemma single_step_continues {V : Type} (s : SimpleRetryStrategy)
  (names : list gostring) (e : error) (st : state) :
  (2 <= length names)%nat -> rotating (length names) st ->
  exists st', GenerateEmbedding_step (NextBackoff s) names (allFail V e) st
                = inr st'
              /\ rotating (length names) st' /\ calls st' = S (calls st).
Proof.
  intros Hn Hr. unfold GenerateEmbedding_step.
  destruct Hr as (Hi & Ha & Hat).
  destruct (lookup_lt_is_Some_2 names _ Ha) as [name ->]. cbn.
  apply afterFailure_continues; [assumption| |reflexivity].
  repeat split; assumption.
Qed.

Lemma batch_step_continues {V : Type} (s : SimpleRetryStrategy)
  (names : list gostring) (texts : nat) (e : error) (st : state) :
  (2 <= length names)%nat -> rotating (length names) st ->
  exists st', GenerateEmbeddings_step (NextBackoff s) names texts
                (allFail (list V) e) st = inr st'
              /\ rotating (length names) st' /\ calls st' = S (calls st).
Proof.
  intros Hn Hr. unfold GenerateEmbeddings_step.
  destruct Hr as (Hi & Ha & Hat).
  destruct (lookup_lt_is_Some_2 names _ Ha) as [name ->]. cbn.
  apply afterFailure_continues; [assumption| |reflexivity].
  repeat split; assumption.
Qed.

Lemma loop_runs_on {V : Type} (step : state -> outcome V + state)
  (P : state -> Prop) :
  (forall st, P st -> exists st', step st = inr st' /\ P st'
                                  /\ calls st' = S (calls st)) ->
  forall fuel st, P st ->
  exists st', loop step fuel st = inr st' /\ P st'
              /\ calls st' = (calls st + fuel)%nat.
Proof.
  intros Hstep. induction fuel as [|fuel IH]; intros st Hst.
  - exists st. cbn. repeat split; auto.
  - cbn. destruct (Hstep st Hst) as (st1 & -> & H1 & Hc).
    destruct (IH st1 H1) as (st2 & -> & H2 & Hc2).
    exists st2. repeat split; auto. lia.
Qed.

(** With two or more providers that all fail, neither method ever returns:
    whatever the number of iterations, the loop is still running, having
    made one provider invocation per iteration. *)
Lemma rotation_never_ends {V : Type} (s : SimpleRetryStrategy)
  (names : list gostring) (active texts : nat) (e : error) (fuel : nat) :
  (2 <= length names)%nat -> (active < length names)%nat ->
  (exists st, GenerateEmbedding (NextBackoff s) names active (allFail V e) fuel
              = inr st /\ calls st = fuel)
  /\ (exists st, GenerateEmbeddings (NextBackoff s) names active texts
                   (allFail (list V) e) fuel = inr st /\ calls st = fuel).
Proof.
  intros Hn Ha.
  assert (Hstart : rotating (length names) (start active)).
  { repeat split; cbn; auto. lia. }
  unfold GenerateEmbedding, GenerateEmbeddings.
  destruct names as [|n0 names']; [cbn in Hn; lia|].
  split.
  - destruct (loop_runs_on
                (GenerateEmbedding_step (NextBackoff s) (n0 :: names')
                   (allFail V e))
                (rotating (length (n0 :: names')))) with (fuel := fuel)
                (st := start active) as (st & H & _ & Hc); auto.
    { intros st Hst. apply single_step_continues; auto. }
    exists st. split; auto.
  - destruct (loop_runs_on
                (GenerateEmbeddings_step (NextBackoff s) (n0 :: names') texts
                   (allFail (list V) e))
                (rotating (length (n0 :: names')))) with (fuel := fuel)
                (st := start active) as (st & H & _ & Hc); auto.
    { intros st Hst. apply batch_step_continues; auto. }
    exists st. split; auto.
Qed.

(** A single failing provider is invoked [MaxAttempts + 1] times before the
    call gives up: attempts 0, 1, 2 are each followed by a retry, and only
    the fourth question to the strategy is answered with a stop. *)
Example one_provider_four_invocations (e : error) :
  exists err,
    GenerateEmbedding (V := unit) (NextBackoff defaultStrategy)
      [runes "p0"] 0 (allFail unit e) 10 = inl (Exhausted err, 4%nat).
Proof. eexists. reflexivity. Qed.

(** C2 (refuted on the code).  Two providers, the default strategy
    (max_attempts = 3), every provider failing on every attempt, the context
    never cancelled: [GenerateEmbedding] and [GenerateEmbeddings] do not
    return.  After any number [fuel] of loop iterations the call is still
    running and has invoked a provider [fuel] times, so neither the "all
    providers exhausted" error nor the bound N * max_attempts = 6 holds. *)
Theorem fallback_two_failing_providers_never_return :
  forall (e : error) (texts fuel : nat),
    (exists st,
        GenerateEmbedding (V := list Z) (NextBackoff defaultStrategy)
          [runes "p0"; runes "p1"] 0 (allFail (list Z) e) fuel = inr st
        /\ calls st = fuel)
    /\ (exists st,
        GenerateEmbeddings (V := list Z) (NextBackoff defaultStrategy)
          [runes "p0"; runes "p1"] 0 texts (allFail (list (list Z)) e) fuel
          = inr st
        /\ calls st = fuel).
Proof.
  intros e texts fuel. apply rotation_never_ends; cbn; lia.
Qed.

End FallbackFacts.

(** ** Content deduplication *)

Section ContentDedup.
Import GoString GoErrors Store.

Lemma gostring_eqb_eq (s t : gostring) : eqb s t = true <-> s = t.
Proof.
  revert t. induction s as [|a s IH]; intros [|b t]; cbn; try easy.
  unfold rune_eqb. rewrite andb_true_iff, Z.eqb_eq, IH.
  split; [intros [-> ->]; reflexivity | intros [= -> ->]; auto].
Qed.

Lemma gostring_eqb_refl (s : gostring) : eqb s s = true.
Proof. apply gostring_eqb_eq. reflexivity. Qed.

Lemma gostring_eqb_neq (s t : gostring) : eqb s t = false <-> s <> t.
Proof.
  rewrite <- gostring_eqb_eq. destruct (eqb s t); split; congruence.
Qed.

Variable Sum256 : gostring -> list Z.

Lemma send_healthy (d : db) : faults d = [] -> send d = (None, d).
Proof. unfold send. intros ->. reflexivity. Qed.

Lemma find_none_of_unhashed (d : db) (h : gostring) :
  unhashed d h ->
  List.find (fun c => eqb (ContentHash c) h) (content d) = None.
Proof.
  unfold unhashed. induction (content d) as [|r rows IH]; cbn; [easy|].
  destruct (eqb (ContentHash r) h); cbn; [discriminate|exact IH].
Qed.

Lemma FindContentByHash_absent (d : db) (h : gostring) :
  faults d = [] -> unhashed d h ->
  FindContentByHash d h = (inr ErrNotFound, d).
Proof.
  intros Hf Hu. unfold FindContentByHash, select_by_hash.
  rewrite (send_healthy d Hf), (find_none_of_unhashed d h Hu). reflexivity.
Qed.

Lemma FindContentByHash_present (d : db) (h : gostring) (c : Content) :
  faults d = [] ->
  List.find (fun c => eqb (ContentHash c) h) (content d) = Some c ->
  FindContentByHash d h = (inl c, d).
Proof.
  intros Hf Hc. unfold FindContentByHash, select_by_hash.
  rewrite (send_healthy d Hf), Hc. reflexivity.
Qed.

(** The first call for a body that is not stored inserts one row and
    reports [existed = false]; the hash it sets is the SHA-256 hex digest of
    the body. *)
Lemma CreateContentIfNotExists_fresh (now : Z) (d : db) (c : Content) :
  faults d = [] ->
  unhashed d (calculateHash Sum256 (Body c)) ->
  existsb (Z.eqb (SourceID c)) (sources d) = true ->
  exists c' d',
    CreateContentIfNotExists Sum256 now (fun x => x) d c
      = ((false, None), c', d')
    /\ ContentHash c' = EncodeToString (Sum256 (Body c))
    /\ ID c' = content_id_seq d + 1
    /\ content d' = content d ++ [stored Sum256 c (content_id_seq d) now]
    /\ faults d' = [] /\ sources d' = sources d.
Proof.
  intros Hf Hu Hs. unfold CreateContentIfNotExists.
  cbn [ContentHash set_hash].
  rewrite (FindContentByHash_absent d _ Hf Hu). cbn [Is same_sentinel negb orb].
  unfold CreateContent, insert_content.
  rewrite (send_healthy d Hf). unfold unhashed in Hu.
  destruct c as [i s t b h fp fs ct md ei ie la ma su ca ua].
  cbn in Hu, Hs. unfold stored.
  destruct md as [m|]; cbn; rewrite Hu, Hs; cbn;
    eexists; eexists; (split; [reflexivity|]); cbn; repeat split; auto.
Qed.

Lemma find_app_new (rows : list Content) (r : Content) (h : gostring) :
  existsb (fun x => eqb (ContentHash x) h) rows = false ->
  ContentHash r = h ->
  List.find (fun x => eqb (ContentHash x) h) (rows ++ [r]) = Some r.
Proof.
  intros Hu Hr. induction rows as [|x rows IH]; cbn in *.
  - rewrite Hr, gostring_eqb_refl. reflexivity.
  - destruct (eqb (ContentHash x) h); cbn in *; [discriminate|auto].
Qed.

(** A later call with the same body finds the row, copies it into the
    argument, reports [existed = true] and leaves the table as it is. *)
Lemma CreateContentIfNotExists_again (now : Z) (between : db -> db) (d : db)
  (c row : Content) :
  faults d = [] ->
  List.find (fun x => eqb (ContentHash x) (calculateHash Sum256 (Body c)))
            (content d) = Some row ->
  CreateContentIfNotExists Sum256 now between d c = ((true, None), row, d).
Proof.
  intros Hf Hrow. unfold CreateContentIfNotExists.
  cbn [ContentHash set_hash].
  rewrite (FindContentByHash_present d _ row Hf Hrow). reflexivity.
Qed.

(** Idempotence without concurrent writers: the second call returns the
    identity that the first one created, and no second row. *)
Lemma CreateContentIfNotExists_idempotent (now now' : Z) (d : db)
  (c c2 : Content) :
  faults d = [] ->
  unhashed d (calculateHash Sum256 (Body c)) ->
  existsb (Z.eqb (SourceID c)) (sources d) = true ->
  Body c2 = Body c ->
  exists c' d' row,
    CreateContentIfNotExists Sum256 now (fun x => x) d c
      = ((false, None), c', d')
    /\ CreateContentIfNotExists Sum256 now' (fun x => x) d' c2
      = ((true, None), row, d')
    /\ ID row = ID c'
    /\ ContentHash row = ContentHash c'
    /\ length (content d') = S (length (content d)).
Proof.
  intros Hf Hu Hs Hb.
  destruct (CreateContentIfNotExists_fresh now d c Hf Hu Hs)
    as (c' & d' & H1 & Hh & Hid & Hrows & Hf' & _).
  exists c', d', (stored Sum256 c (content_id_seq d) now).
  split; [exact H1|]. split.
  - apply CreateContentIfNotExists_again; [exact Hf'|].
    rewrite Hb, Hrows. apply find_app_new; [exact Hu|reflexivity].
  - cbn. rewrite Hid, Hh, Hrows, length_app. cbn.
    repeat split; auto. lia.
Qed.

(** Losing the race: another client stores the same hash after the lookup
    and before the insert.  [CreateContent] turns the unique violation into
    an error that wraps [store.ErrDuplicate] only, so the test for a
    [PgError] with code 23505 in [CreateContentIfNotExists] fails and the
    call returns [existed = false] with an error; the winning row is not
    fetched. *)
Lemma CreateContentIfNotExists_lost_race (now : Z) (between : db -> db)
  (d : db) (c : Content) :
  faults d = [] ->
  unhashed d (calculateHash Sum256 (Body c)) ->
  faults (between d) = [] ->
  existsb (fun r => eqb (ContentHash r) (calculateHash Sum256 (Body c)))
          (content (between d)) = true ->
  exists c' d',
    CreateContentIfNotExists Sum256 now between d c
      = ((false,
          Some (Errorf "failed to create new content: %w"
            [AWrap (Errorf
               "content with hash %s already exists (use CreateContentIfNotExists): %w"
               [AStr (calculateHash Sum256 (Body c)); AWrap ErrDuplicate])])),
         c', d')
    /\ content d' = content (between d).
Proof.
  intros Hf Hu Hf' Hrace. unfold CreateContentIfNotExists.
  cbn [ContentHash set_hash].
  rewrite (FindContentByHash_absent d _ Hf Hu). cbn [Is same_sentinel negb orb].
  unfold CreateContent, insert_content.
  rewrite (send_healthy _ Hf').
  destruct c as [i s t b h fp fs ct md ei ie la ma su ca ua].
  cbn in Hrace.
  destruct md as [m|]; cbn; rewrite Hrace; cbn;
    eexists; eexists; split; reflexivity.
Qed.

End ContentDedup.

(** C1 (refuted on the code, in its last part).  Two clients add the body
    "hello world" to a database that does not hold it.  The second client
    looks the hash up, finds nothing, and then loses the race: the first
    client's [CreateContent] stores the row before the second one inserts.
    [CreateContentIfNotExists] then returns [existed = false] together with
    an error that wraps [store.ErrDuplicate]; it does not fetch the winning
    row (id 1), although that row is in the table. *)
Theorem create_content_if_not_exists_loses_race_with_error :
  forall Sum256 : GoString.gostring -> list Z,
    let c := Store.rawContent 1 (GoString.runes "t")
               (GoString.runes "hello world") in
    let rival := fun d => (Store.CreateContent Sum256 5 d c).2 in
    exists c' d' row,
      Store.CreateContentIfNotExists Sum256 7 rival Store.oneSourceDB c
        = ((false,
            Some (GoErrors.Errorf "failed to create new content: %w"
              [GoErrors.AWrap (GoErrors.Errorf
                 "content with hash %s already exists (use CreateContentIfNotExists): %w"
                 [GoErrors.AStr (Store.calculateHash Sum256
                                   (GoString.runes "hello world"));
                  GoErrors.AWrap GoErrors.ErrDuplicate])])),
           c', d')
      /\ Store.content d' = [row]
      /\ Store.ID row = 1
      /\ Store.Body row = GoString.runes "hello world"
      /\ Store.ContentHash row
         = Store.calculateHash Sum256 (GoString.runes "hello world").
Proof.
  intros Sum256 c rival.
  destruct (CreateContentIfNotExists_lost_race Sum256 7 rival
              Store.oneSourceDB c) as (c' & d' & H & Hrows).
  - reflexivity.
  - reflexivity.
  - reflexivity.
  - cbn. rewrite gostring_eqb_refl. reflexivity.
  - exists c', d'. eexists. split; [exact H|]. rewrite Hrows.
    cbn. repeat split.
Qed.

(** ** Job records *)

Section JobRecords.
Import GoString GoErrors Store.

Lemma jobRows_zero_iff (d : db) (u : gostring) :
  jobRows d u = O <->
  existsb (fun r => eqb (job_id r) u) (background_jobs d) = false.
Proof.
  unfold jobRows. induction (background_jobs d) as [|r rows IH]; cbn.
  - easy.
  - destruct (eqb (job_id r) u); cbn; [easy|exact IH].
Qed.

Lemma RecordJobEnqueue_new (now : Z) (d : db) (p : JobRecordParams) :
  faults d = [] -> jobRows d (JobID p) = O ->
  exists d', RecordJobEnqueue now d p = (None, d')
             /\ faults d' = [] /\ jobRows d' (JobID p) = 1%nat
             /\ length (background_jobs d') = S (length (background_jobs d)).
Proof.
  intros Hf Hz. apply jobRows_zero_iff in Hz as Hex.
  unfold RecordJobEnqueue, insert_job. rewrite (send_healthy d Hf), Hex.
  cbn. eexists. split; [reflexivity|]. cbn. split; [exact Hf|].
  unfold jobRows in *. cbn. rewrite List.filter_app, length_app, Hz. cbn.
  rewrite gostring_eqb_refl. cbn. split; [reflexivity|].
  rewrite length_app. cbn. lia.
Qed.

Lemma RecordJobEnqueue_known (now : Z) (d : db) (p : JobRecordParams) :
  faults d = [] -> jobRows d (JobID p) <> O ->
  exists d', RecordJobEnqueue now d p = (None, d')
             /\ faults d' = [] /\ background_jobs d' = background_jobs d.
Proof.
  intros Hf Hnz.
  assert (Hex : existsb (fun r => eqb (job_id r) (JobID p))
                  (background_jobs d) = true).
  { destruct (existsb _ _) eqn:E; [reflexivity|].
    apply jobRows_zero_iff in E. contradiction. }
  unfold RecordJobEnqueue, insert_job. rewrite (send_healthy d Hf), Hex.
  cbn. eexists. split; [reflexivity|]. cbn. auto.
Qed.

(** C9.  On a working connection, recording an enqueue event twice with the
    same task UUID (whatever the other parameters of the two calls) returns
    nil both times; the second call changes no row, and the table holds
    exactly one row with that UUID afterwards.  The column is [UNIQUE], so
    the table holds at most one such row beforehand. *)
Theorem record_job_enqueue_idempotent :
  forall (now1 now2 : Z) (d : db) (p1 p2 : JobRecordParams),
    faults d = [] ->
    (jobRows d (JobID p1) <= 1)%nat ->
    JobID p2 = JobID p1 ->
    exists d1 d2,
      RecordJobEnqueue now1 d p1 = (None, d1)
      /\ RecordJobEnqueue now2 d1 p2 = (None, d2)
      /\ background_jobs d2 = background_jobs d1
      /\ jobRows d2 (JobID p1) = 1%nat.
Proof.
  intros now1 now2 d p1 p2 Hf Hu Hid.
  destruct (Nat.eq_dec (jobRows d (JobID p1)) O) as [Hz|Hnz].
  - destruct (RecordJobEnqueue_new now1 d p1 Hf Hz) as (d1 & H1 & Hf1 & Hc & _).
    destruct (RecordJobEnqueue_known now2 d1 p2 Hf1) as (d2 & H2 & _ & Hrows).
    { rewrite Hid, Hc. discriminate. }
    exists d1, d2. repeat split; auto.
    unfold jobRows in *. rewrite Hrows. exact Hc.
  - destruct (RecordJobEnqueue_known now1 d p1 Hf Hnz)
      as (d1 & H1 & Hf1 & Hrows1).
    destruct (RecordJobEnqueue_known now2 d1 p2 Hf1) as (d2 & H2 & _ & Hrows).
    { rewrite Hid. unfold jobRows in *. rewrite Hrows1. exact Hnz. }
    exists d1, d2. repeat split; auto.
    unfold jobRows in *. rewrite Hrows, Hrows1. lia.
Qed.

End JobRecords.

(** The statement of C9 at a sample job recorded twice in an empty table. *)
Lemma record_job_enqueue_idempotent_witness :
  let p := {| Store.JobID := GoString.runes "6f1c";
              Store.TaskType := GoString.runes "embedding:generate";
              Store.Payload := None;
              Store.Queue := GoString.runes "default";
              Store.Status := GoString.runes "enqueued";
              Store.RelatedEntityType := GoString.runes "content";
              Store.RelatedEntityID := 1 |} in
  Store.faults Store.oneSourceDB = []
  /\ (Store.jobRows Store.oneSourceDB (Store.JobID p) <= 1)%nat
  /\ exists d1 d2,
      Store.RecordJobEnqueue 10 Store.oneSourceDB p = (None, d1)
      /\ Store.RecordJobEnqueue 11 d1 p = (None, d2)
      /\ Store.background_jobs d2 = Store.background_jobs d1
      /\ Store.jobRows d2 (Store.JobID p) = 1%nat.
Proof.
  intros p. split; [reflexivity|]. split; [cbn; lia|].
  apply (record_job_enqueue_idempotent 10 11 Store.oneSourceDB p p);
    [reflexivity | cbn; lia | reflexivity].
Defined.

(** ** Fetching contents by id *)

Section ContentsByIDs.
Import GoString GoErrors Store.

Lemma collect_acc_sound (rows : list Content) (m : gmap Z Content)
  (id : Z) (c : Content) :
  fold_left (fun m c => <[ID c := c]> m) rows m !! id = Some c ->
  (In c rows /\ ID c = id) \/ m !! id = Some c.
Proof.
  revert m. induction rows as [|r rows IH]; intros m H; cbn in *.
  - right. exact H.
  - destruct (IH _ H) as [[Hin Hid]|Hm].
    + left. auto.
    + destruct (decide (ID r = id)) as [E|E].
      * rewrite E, lookup_insert_eq in Hm. injection Hm as <-. left. auto.
      * rewrite lookup_insert_ne in Hm by exact E. right. exact Hm.
Qed.

Lemma collect_acc_complete (rows : list Content) (m : gmap Z Content)
  (id : Z) :
  (exists c, In c rows /\ ID c = id) \/ is_Some (m !! id) ->
  is_Some (fold_left (fun m c => <[ID c := c]> m) rows m !! id).
Proof.
  revert m. induction rows as [|r rows IH]; intros m H; cbn in *.
  - destruct H as [(c & [] & _)|H]. exact H.
  - apply IH. destruct H as [(c & [<-|Hin] & Hid)|H].
    + right. rewrite Hid, lookup_insert_eq. eauto.
    + left. eauto.
    + right. destruct (decide (ID r = id)) as [E|E].
      * rewrite E, lookup_insert_eq. eauto.
      * rewrite lookup_insert_ne by exact E. exact H.
Qed.

Lemma collect_sound (rows : list Content) (id : Z) (c : Content) :
  collect rows !! id = Some c -> In c rows /\ ID c = id.
Proof.
  intros H. destruct (collect_acc_sound rows ∅ id c H) as [?|Hm]; [auto|].
  rewrite lookup_empty in Hm. discriminate.
Qed.

Lemma collect_absent (rows : list Content) (id : Z) :
  collect rows !! id = None -> forall c, In c rows -> ID c <> id.
Proof.
  intros H c Hin Hid.
  destruct (collect_acc_complete rows ∅ id) as [x Hx]; [left; eauto|].
  unfold collect in H. rewrite H in Hx. discriminate.
Qed.

Lemma GetContentsByIDs_nonempty (d : db) (ids : list Z) :
  ids <> [] ->
  GetContentsByIDs d ids =
    match select_by_ids d ids with
    | (inr err, d') =>
        (inr (Errorf "failed to query contents by IDs: %w" [AWrap err]), d')
    | (inl rows, d') => (inl (map (fun id => collect rows !! id) ids), d')
    end.
Proof. destruct ids; [congruence|reflexivity]. Qed.

(** C10.  [GetContentsByIDs] returns the empty slice for the empty list
    without sending a query (the call succeeds and leaves the connection
    untouched even when the next statement would fail).  On a working
    connection it returns, for any list of ids, a slice of the same length
    whose entry at each index is a row of the table with the id at that
    index, or nil when the table has no row with that id; absent ids do not
    make the call fail. *)
Theorem get_contents_by_ids_aligned :
  forall (d : db) (ids : list Z),
    GetContentsByIDs d [] = (inl [], d)
    /\ (faults d = [] ->
        exists results,
          GetContentsByIDs d ids = (inl results, d)
          /\ length results = length ids
          /\ forall (i : nat) (id : Z), ids !! i = Some id ->
               match results !! i with
               | Some (Some c) => ID c = id /\ In c (content d)
               | Some None => forall c, In c (content d) -> ID c <> id
               | None => False
               end).
Proof.
  intros d ids. split; [reflexivity|]. intros Hf.
  destruct ids as [|id0 ids'].
  - exists []. cbn. repeat split. intros i id H.
    rewrite lookup_nil in H. discriminate.
  - set (ids := id0 :: ids').
    rewrite GetContentsByIDs_nonempty by discriminate.
    clearbody ids.
    unfold select_by_ids. rewrite (send_healthy d Hf).
    eexists. split; [reflexivity|]. split; [apply length_map|].
    intros i id Hi. rewrite list_lookup_fmap, Hi. cbn.
    destruct (collect _ !! id) as [c|] eqn:Hc.
    + apply collect_sound in Hc as [Hin Hid]. split; [exact Hid|].
      apply filter_In in Hin. tauto.
    + intros c Hin Hid.
      eapply collect_absent; [exact Hc| |exact Hid].
      apply filter_In. split; [exact Hin|].
      apply existsb_exists. exists id. split.
      * apply list_elem_of_In. eapply list_elem_of_lookup_2. exact Hi.
      * rewrite Hid. apply Z.eqb_refl.
Qed.

End ContentsByIDs.

(** The statement of C10 at a table with one row (id 1), asked for the ids
    7 and 1. *)
Lemma get_contents_by_ids_aligned_witness :
  let row := Store.stored (fun _ => [171]) (Store.rawContent 1 [] [104; 105])
               0 3 in
  let d := Store.with_content Store.oneSourceDB [row] 1 in
  Store.faults d = []
  /\ exists results,
       Store.GetContentsByIDs d [7; 1] = (inl results, d)
       /\ length results = length [7; 1]
       /\ forall (i : nat) (id : Z), [7; 1] !! i = Some id ->
            match results !! i with
            | Some (Some c) => Store.ID c = id /\ In c (Store.content d)
            | Some None =>
                forall c, In c (Store.content d) -> Store.ID c <> id
            | None => False
            end.
Proof.
  intros row d. split; [reflexivity|].
  apply (get_contents_by_ids_aligned d [7; 1]). reflexivity.
Defined.

(** ** Listing contents *)

Section Listing.
Import GoString GoErrors Store.

Lemma str_le_total (s t : gostring) : str_le s t = false -> str_le t s = true.
Proof.
  revert t. induction s as [|a s IH]; intros [|b t]; cbn; try easy.
  destruct (a <? b) eqn:E1; [easy|].
  destruct (b <? a) eqn:E2; [easy|]. apply IH.
Qed.

Lemma key_le_total (a b : key) : key_le a b = false -> key_le b a = true.
Proof.
  destruct a, b; cbn; try easy.
  - intros H. apply Z.leb_le. apply Z.leb_gt in H. lia.
  - apply str_le_total.
Qed.

Section InsertionSort.
Context {A : Type} (le : A -> A -> bool).
Hypothesis le_total : forall a b, le a b = false -> le b a = true.

Let R (a b : A) : Prop := le a b = true.

Lemma insert_sorted_In (x y : A) (l : list A) :
  In y (insert_sorted le x l) <-> y = x \/ In y l.
Proof.
  induction l as [|z l IH]; cbn.
  - intuition.
  - destruct (le x z); cbn; [intuition|]. rewrite IH. intuition.
Qed.

Lemma insert_sorted_HdRel (x y : A) (l : list A) :
  HdRel R y l -> R y x -> HdRel R y (insert_sorted le x l).
Proof.
  intros Hl Hx. destruct l as [|z l]; cbn; [constructor; exact Hx|].
  destruct (le x z); constructor; [exact Hx|].
  inversion Hl; assumption.
Qed.

Lemma insert_sorted_Sorted (x : A) (l : list A) :
  Sorted R l -> Sorted R (insert_sorted le x l).
Proof.
  induction l as [|z l IH]; intros Hs; cbn.
  - repeat constructor.
  - destruct (le x z) eqn:E.
    + constructor; [exact Hs|]. constructor. exact E.
    + inversion Hs as [|? ? Hs' Hhd]; subst.
      constructor; [apply IH; exact Hs'|].
      apply insert_sorted_HdRel; [exact Hhd|]. apply le_total. exact E.
Qed.

Lemma sort_Sorted (l : list A) : Sorted R (sort le l).
Proof.
  induction l as [|x l IH]; cbn; [constructor|].
  apply insert_sorted_Sorted. exact IH.
Qed.

Lemma sort_In (y : A) (l : list A) : In y (sort le l) <-> In y l.
Proof.
  induction l as [|x l IH]; cbn; [tauto|].
  rewrite insert_sorted_In, IH. intuition.
Qed.

Lemma insert_sorted_NoDup (x : A) (l : list A) :
  ~ In x l -> List.NoDup l -> List.NoDup (insert_sorted le x l).
Proof.
  induction l as [|z l IH]; intros Hx Hl; cbn.
  - constructor; [easy|constructor].
  - destruct (le x z).
    + constructor; assumption.
    + inversion Hl as [|? ? Hz Hl']; subst. constructor.
      * rewrite insert_sorted_In. cbn in Hx. intuition.
      * apply IH; [cbn in Hx; tauto|exact Hl'].
Qed.

Lemma sort_NoDup (l : list A) : List.NoDup l -> List.NoDup (sort le l).
Proof.
  induction l as [|x l IH]; intros Hl; cbn; [constructor|].
  inversion Hl as [|? ? Hx Hl']; subst.
  apply insert_sorted_NoDup; [|apply IH; exact Hl'].
  intros H. apply Hx. apply (proj1 (sort_In x l)). exact H.
Qed.

End InsertionSort.

Lemma Sorted_tail {A : Type} (R : A -> A -> Prop) (n : nat) (l : list A) :
  Sorted R l -> Sorted R (drop n l).
Proof.
  revert l. induction n as [|n IH]; intros l Hs; [rewrite drop_0; exact Hs|].
  destruct l as [|x l]; [constructor|]. cbn. apply IH.
  inversion Hs; assumption.
Qed.

Lemma Sorted_front {A : Type} (R : A -> A -> Prop) (n : nat) (l : list A) :
  Sorted R l -> Sorted R (take n l).
Proof.
  revert l. induction n as [|n IH]; intros l Hs; [constructor|].
  destruct l as [|x l]; [constructor|]. cbn.
  inversion Hs as [|? ? Hs' Hhd]; subst. constructor; [apply IH; exact Hs'|].
  destruct l as [|y l]; [rewrite take_nil; constructor|].
  destruct n; cbn; constructor.
  inversion Hhd; assumption.
Qed.

Lemma joined_In (d : db) (names : list gostring) (c : Content) :
  In c (joined d names) <-> In c (content d) /\ bears d c names.
Proof.
  unfold joined, bears. rewrite in_flat_map. split.
  - intros (c0 & Hc0 & H). apply in_flat_map in H as ([cid tid] & Hct & H).
    apply in_flat_map in H as (t & Ht & H). cbn in H.
    destruct ((ID c0 =? cid) && (tid =? TagID t)
              && existsb (eqb (TagName t)) names) eqn:E; [|destruct H].
    destruct H as [<-|[]].
    apply andb_true_iff in E as [E En]. apply andb_true_iff in E as [E1 E2].
    apply Z.eqb_eq in E1, E2. subst.
    apply existsb_exists in En as (n & Hn & En).
    apply gostring_eqb_eq in En. subst n.
    split; [exact Hc0|]. exists t. auto.
  - intros (Hc & t & Ht & Hct & Hn). exists c. split; [exact Hc|].
    apply in_flat_map. exists (ID c, TagID t). split; [exact Hct|].
    apply in_flat_map. exists t. split; [exact Ht|]. cbn.
    rewrite !Z.eqb_refl. cbn.
    replace (existsb (eqb (TagName t)) names) with true; [left; reflexivity|].
    symmetry. apply existsb_exists. exists (TagName t).
    split; [exact Hn|apply gostring_eqb_refl].
Qed.

Lemma valid_column (name : gostring) :
  name ∈ validSortColumns -> is_Some (column name).
Proof.
  unfold validSortColumns.
  rewrite !elem_of_union, !elem_of_singleton.
  intros [[[[->| ->]| ->]| ->]| ->]; vm_compute; eauto.
Qed.

Lemma directed_total (dir : gostring) (a b : key) :
  directed dir a b = false -> directed dir b a = true.
Proof. unfold directed. destruct (eqb dir _); apply key_le_total. Qed.

Lemma ordered_rows (dir : gostring) (keyOf : Content -> key)
  (rows : list Content) :
  let all := sort (fun a b => directed dir (keyOf a) (keyOf b))
                  (remove_dups rows) in
  (dir = runes "ASC" -> ascending keyOf all)
  /\ (dir = runes "DESC" -> descending keyOf all)
  /\ List.NoDup all
  /\ (forall c, In c all <-> In c rows).
Proof.
  intros all.
  assert (Hs := sort_Sorted (fun a b => directed dir (keyOf a) (keyOf b))
                  (fun a b => directed_total dir (keyOf a) (keyOf b))
                  (remove_dups rows)).
  fold all in Hs. repeat split.
  - intros ->. exact Hs.
  - intros ->. exact Hs.
  - apply sort_NoDup. apply NoDup_ListNoDup, NoDup_remove_dups.
  - intros H. apply sort_In in H. apply list_elem_of_In in H.
    rewrite elem_of_remove_dups in H. apply list_elem_of_In. exact H.
  - intros H. apply sort_In. apply list_elem_of_In.
    rewrite elem_of_remove_dups. apply list_elem_of_In. exact H.
Qed.

Lemma direction_of_query (limit offset : Z) (sortBy sortOrder : gostring)
  (filterTags : list gostring) :
  direction (listContentQuery limit offset sortBy sortOrder filterTags)
  = if eqb (ToUpper sortOrder) (runes "ASC") then runes "ASC"
    else runes "DESC".
Proof.
  unfold listContentQuery. cbn [direction].
  destruct (eqb (ToUpper sortOrder) (runes "ASC")) eqn:E1; cbn [negb andb].
  - apply gostring_eqb_eq in E1. exact E1.
  - destruct (eqb (ToUpper sortOrder) (runes "DESC")) eqn:E2; cbn [negb].
    + apply gostring_eqb_eq in E2. exact E2.
    + reflexivity.
Qed.

(** C8, as the code has it.  On a working connection [ListContent] does not
    fail.  The sort column is the given key when that key is one of
    [c.id], [c.title], [c.created_at], [c.updated_at], [c.modified_at], and
    [c.created_at] for every other key (the unqualified names [id], [title],
    ... included).  The direction is ascending when the given order is
    [ASC] in any letter case, and descending otherwise, whatever the key.
    The listing consists of the rows of [content] (with a non-empty tag
    filter: those associated with a tag bearing one of the given names),
    each once, in that order; the result is the page of it that [limit] and
    [offset] cut out (20 rows when [limit <= 0], from the start when
    [offset < 0]). *)
Theorem list_content_order_and_filter :
  forall (d : db) (limit offset : Z) (sortBy sortOrder : gostring)
         (filterTags : list gostring),
    faults d = [] ->
    let col := if bool_decide (sortBy ∈ validSortColumns) then sortBy
               else runes "c.created_at" in
    let page := fun all : list Content =>
      take (Z.to_nat (if limit <=? 0 then 20 else limit))
           (drop (Z.to_nat (if offset <? 0 then 0 else offset)) all) in
    exists keyOf all,
      column col = Some keyOf
      /\ ListContent d limit offset sortBy sortOrder filterTags
         = (inl (page all), d)
      /\ (forall c, In c all <-> selected d filterTags c)
      /\ List.NoDup all
      /\ (ToUpper sortOrder = runes "ASC" ->
          ascending keyOf all /\ ascending keyOf (page all))
      /\ (ToUpper sortOrder <> runes "ASC" ->
          descending keyOf all /\ descending keyOf (page all)).
Proof.
  intros d limit offset sortBy sortOrder filterTags Hf col page.
  assert (Hcol : is_Some (column col)).
  { unfold col. destruct (bool_decide (sortBy ∈ validSortColumns)) eqn:E.
    - apply valid_column. apply bool_decide_eq_true in E. exact E.
    - vm_compute. eauto. }
  destruct Hcol as [keyOf Hcol].
  set (q := listContentQuery limit offset sortBy sortOrder filterTags).
  set (rows := match filterTags with
               | [] => content d
               | t :: ts => joined d (t :: ts)
               end).
  destruct (ordered_rows (direction q) keyOf rows)
    as (Hasc & Hdesc & Hnd & Hin).
  exists keyOf.
  exists (sort (fun a b => directed (direction q) (keyOf a) (keyOf b))
               (remove_dups rows)).
  split; [exact Hcol|]. split.
  - unfold ListContent, select_list. rewrite (send_healthy d Hf).
    fold q. change (orderBy q) with col. rewrite Hcol.
    change (tagNames q) with filterTags. reflexivity.
  - split; [|split; [exact Hnd|]].
    + intros c. rewrite Hin. unfold rows, selected.
      destruct filterTags as [|t ts].
      * intuition.
      * rewrite joined_In. intuition congruence.
    + unfold q in Hasc, Hdesc. rewrite direction_of_query in Hasc, Hdesc.
      split.
      * intros E. rewrite E in Hasc. specialize (Hasc eq_refl).
        unfold q. rewrite direction_of_query, E.
        split; [exact Hasc|]. apply Sorted_front, Sorted_tail. exact Hasc.
      * intros E. apply gostring_eqb_neq in E. rewrite E in Hdesc.
        specialize (Hdesc eq_refl).
        unfold q. rewrite direction_of_query, E.
        split; [exact Hdesc|]. apply Sorted_front, Sorted_tail. exact Hdesc.
Qed.

End Listing.

(** C8 as the specification words it fails: the key [title], which the
    specification lists, is not in the code's whitelist, and the listing
    comes back ordered by creation time instead (row "b" before row "a");
    and an unrecognised key asked for in ascending order is served by
    creation time ascending, not descending. *)
Lemma list_content_unqualified_key_not_honoured :
  Store.ListContent Store.twoRowDB 20 0 (GoString.runes "title")
    (GoString.runes "ASC") []
    = (inl [Store.rowB; Store.rowA], Store.twoRowDB)
  /\ ~ Store.ascending (fun c => Store.KStr (Store.Title c))
         [Store.rowB; Store.rowA]
  /\ Store.ListContent Store.twoRowDB 20 0 (GoString.runes "rank")
       (GoString.runes "ASC") []
     = (inl [Store.rowB; Store.rowA], Store.twoRowDB)
  /\ ~ Store.descending (fun c => Store.KInt (Store.CreatedAt c))
         [Store.rowB; Store.rowA].
Proof.
  split; [vm_compute; reflexivity|]. split.
  - intros H. inversion H as [|? ? _ Hhd]; subst.
    inversion Hhd as [|? ? Hle]; subst. vm_compute in Hle. discriminate.
  - split; [vm_compute; reflexivity|].
    intros H. inversion H as [|? ? _ Hhd]; subst.
    inversion Hhd as [|? ? Hle]; subst. vm_compute in Hle. discriminate.
Qed.

(** The statement of C8, as the code has it, at the two sample rows listed
    by [c.title], ascending, one row per page. *)
Lemma list_content_order_and_filter_witness :
  Store.faults Store.twoRowDB = []
  /\ exists keyOf all,
      Store.column (GoString.runes "c.title") = Some keyOf
      /\ Store.ListContent Store.twoRowDB 1 0 (GoString.runes "c.title")
           (GoString.runes "asc") [] = (inl (take 1 all), Store.twoRowDB)
      /\ (forall c, In c all <-> Store.selected Store.twoRowDB [] c)
      /\ List.NoDup all
      /\ (GoString.ToUpper (GoString.runes "asc") = GoString.runes "ASC" ->
          Store.ascending keyOf all /\ Store.ascending keyOf (take 1 all))
      /\ (GoString.ToUpper (GoString.runes "asc") <> GoString.runes "ASC" ->
          Store.descending keyOf all
          /\ Store.descending keyOf (take 1 all)).
Proof.
  split; [reflexivity|].
  exact (list_content_order_and_filter Store.twoRowDB 1 0
           (GoString.runes "c.title") (GoString.runes "asc") [] eq_refl).
Defined.

(** ** Chunking parameters and token counts *)

Section ChunkingParameters.
Import GoString GoErrors Store Chunking.




(** The effective parameters are always usable: at least one token per
    chunk, and an overlap below it that is not negative. *)
Lemma applyDefaults_range (m o : Z) :
  0 < fst (applyDefaults m o)
  /\ 0 <= snd (applyDefaults m o) < fst (applyDefaults m o).
Proof.
  unfold applyDefaults, DefaultMaxTokens, DefaultOverlap.
  destruct (Z.leb_spec m 0); destruct (Z.ltb_spec o 0); cbn;
    repeat match goal with
           | |- context [?a >=? ?b] => destruct (Z.geb_spec a b)
           end; cbn; lia.
Qed.

Lemma fieldsAux_length (cur s : gostring) :
  length (fieldsAux cur s)
  = match cur with
    | [] => fieldStarts true s
    | _ => S (fieldStarts false s)
    end.
Proof.
  revert cur. induction s as [|r s IH]; intros cur; cbn.
  - destruct cur; reflexivity.
  - destruct (isSpace r) eqn:E; cbn.
    + destruct cur; cbn; rewrite IH; reflexivity.
    + rewrite IH. destruct cur; reflexivity.
Qed.


Lemma fieldsAux_fields (cur s : gostring) :
  forallb (fun r => negb (isSpace r)) cur = true ->
  Forall (fun f => f <> [] /\ forallb (fun r => negb (isSpace r)) f = true)
         (fieldsAux cur s).
Proof.
  revert cur. induction s as [|r s IH]; intros cur Hcur; cbn.
  - destruct cur as [|c cur]; constructor; [|constructor].
    split.
    + intros E. apply (f_equal (@length rune)) in E.
      rewrite length_rev in E. discriminate.
    + rewrite forallb_forall in *. intros x Hx. apply Hcur.
      apply in_rev. exact Hx.
  - destruct (isSpace r) eqn:E.
    + destruct cur as [|c cur]; [apply IH; reflexivity|].
      constructor; [|apply IH; reflexivity]. split.
      * intros E'. apply (f_equal (@length rune)) in E'.
        rewrite length_rev in E'. discriminate.
      * rewrite forallb_forall in *. intros x Hx. apply Hcur.
        apply in_rev. exact Hx.
    + apply IH. cbn. rewrite E. exact Hcur.
Qed.

Lemma Fields_fields (s : gostring) :
  Forall (fun f => f <> [] /\ forallb (fun r => negb (isSpace r)) f = true)
         (Fields s).
Proof. apply fieldsAux_fields. reflexivity. Qed.

Variable tokenizer : option (gostring -> list gostring).
Variable Parse : gostring -> Node + error.
Variable chunkerOverride : gostring -> option gostring.



End ChunkingParameters.


(** ** The Markdown and HTML chunkers *)

Section Chunkers.
Import GoString GoErrors Store Chunking.

(** For a body that is not blank, [htmlChunker.Chunk] returns what
    [simpleChunkText] makes of the raw body, whatever the parser answers:
    the test "no chunks but content exists" precedes the traversal, where
    the list of chunks is still empty. *)
Lemma htmlChunker_Chunk_falls_back (Parse : gostring -> Node + error)
  (content : Content) (maxTokens overlap : Z) :
  eqb (TrimSpace (Body content)) [] = false ->
  htmlChunker_Chunk Parse content maxTokens overlap
  = simpleChunkText (Body content)
      (fst (applyDefaults maxTokens overlap))
      (snd (applyDefaults maxTokens overlap)) (runes "html-fallback").
Proof.
  intros Hne. unfold htmlChunker_Chunk. rewrite Hne.
  destruct (applyDefaults maxTokens overlap) as [m o]. cbn [fst snd].
  destruct (Parse (TrimSpace (Body content))) as [doc|err]; reflexivity.
Qed.

End Chunkers.

(** What the traversal would collect for the example page, were it run
    from the initial state: the text of the paragraph, without the markup and
    without the script. *)
Example traverse_html_example :
  Chunking.wChunk
    (Chunking.traverse 200 50 Chunking.htmlExampleTree None
       {| Chunking.wChunk := []; Chunking.wTokens := 0;
          Chunking.wIndex := 0; Chunking.wIsBlock := false;
          Chunking.wTags := []; Chunking.wChunks := [] |})
  = GoString.runes "Hello".
Proof. vm_compute. reflexivity. Qed.

(** C4 (refuted on the code).  The HTML chunker, given the page
    [<p>Hello</p><script>x()</script>] and any parser (in particular one
    that parses it successfully), returns one chunk holding the raw markup,
    script included, marked [parser = html-fallback] and without
    [source_tags]: the document tree is not traversed. *)
Theorem html_chunker_returns_raw_markup :
  forall Parse : GoString.gostring -> Chunking.Node + GoErrors.error,
    let chunks := Chunking.htmlChunker_Chunk Parse Chunking.htmlExample
                    Chunking.DefaultMaxTokens Chunking.DefaultOverlap in
    map Chunking.Text chunks
      = [GoString.runes "<p>Hello</p><script>x()</script>"]
    /\ Chunking.metadataOf "parser" chunks
       = [Some (Chunking.VStr (GoString.runes "html-fallback"))]
    /\ Chunking.metadataOf "source_tags" chunks = [None].
Proof.
  intros Parse chunks. unfold chunks.
  rewrite htmlChunker_Chunk_falls_back by reflexivity.
  vm_compute. repeat split.
Qed.

(** C5 as the specification words it fails: no chunk of the example carries
    a heading that includes the hashes. *)
Lemma markdown_example_headings_have_no_hashes :
  ~ (exists tokenizer Parse chunkerOverride,
       Chunking.metadataOf "source_heading"
         (Chunking.ContentAwareChunk tokenizer Parse chunkerOverride
            Chunking.markdownExample Chunking.DefaultMaxTokens
            Chunking.DefaultOverlap)
       = [Some (Chunking.VStr (GoString.runes "## Intro"));
          Some (Chunking.VStr (GoString.runes "## Body"))]).
Proof.
  intros (tokenizer & Parse & chunkerOverride & H).
  vm_compute in H. discriminate.
Qed.

(** C5, as the code has it.  Chunking the example document with the default
    parameters gives exactly two chunks, "para1" and "para2"; their
    [source_heading] values are the heading texts "Intro" and "Body" (the
    part of the heading line after the hashes and the white space), their
    [chunk_index] values 0 and 1, and [total_chunks] is 2 on both. *)
Theorem markdown_example_two_chunks :
  forall (tokenizer : option (GoString.gostring -> list GoString.gostring))
         (Parse : GoString.gostring -> Chunking.Node + GoErrors.error)
         (chunkerOverride : GoString.gostring -> option GoString.gostring),
    let chunks := Chunking.ContentAwareChunk tokenizer Parse chunkerOverride
                    Chunking.markdownExample Chunking.DefaultMaxTokens
                    Chunking.DefaultOverlap in
    map Chunking.Text chunks = [GoString.runes "para1"; GoString.runes "para2"]
    /\ Chunking.metadataOf "source_heading" chunks
       = [Some (Chunking.VStr (GoString.runes "Intro"));
          Some (Chunking.VStr (GoString.runes "Body"))]
    /\ Chunking.metadataOf "chunk_index" chunks
       = [Some (Chunking.VInt 0); Some (Chunking.VInt 1)]
    /\ Chunking.metadataOf "total_chunks" chunks
       = [Some (Chunking.VInt 2); Some (Chunking.VInt 2)]
    /\ Chunking.metadataOf "parser" chunks
       = [Some (Chunking.VStr (GoString.runes "markdown"));
          Some (Chunking.VStr (GoString.runes "markdown"))].
Proof.
  intros tokenizer Parse chunkerOverride chunks. unfold chunks.
  vm_compute. repeat split.
Qed.

(** ** Fetching a URL *)

Section URLInput.
Import GoString GoErrors InputProcessor.

(** C7, as the code has it.  For an input that is not on the file system
    and parses as an [http] or [https] URL, [Process] sends one GET request
    for the input, bound to the context of the call.  If the request fails
    (a cancelled context included) the call fails.  If the answer has status
    200 and its body can be read, the call returns the body, the
    [Content-Type] of the answer (the detected type when the header is
    empty) and the parsed URL's string.  If the answer has any other status,
    in the 2xx range or not, the call fails with an error that prints the
    status code. *)
Theorem process_url_requires_status_200 :
  forall (w : world) (ctx : Z) (input : gostring) (u : ParsedURL),
    notOnDisk w input ->
    urlParse w input = inl u ->
    Scheme u = runes "http" \/ Scheme u = runes "https" ->
    newRequestErr w input = None ->
    let req := {| reqCtx := ctx; reqMethod := runes "GET";
                  reqURL := input |} in
    (forall e, Do w req = inr e ->
       Process w ctx input
       = (emptyResult,
          Some (Errorf "failed to fetch URL '%s': %w"
                  [AStr input; AWrap e])))
    /\ (forall resp body,
          Do w req = inl resp -> StatusCode resp = 200 ->
          readAll resp = inl body ->
          Process w ctx input
          = ({| Body := body;
                ContentType := if eqb (contentTypeHeader resp) []
                               then DetectContentType w body
                               else contentTypeHeader resp;
                FilePath := None; FileSize := None;
                URL := Some (urlString u); Mtime := None;
                Metadata := {["input_type" := runes "url"]} |}, None))
    /\ (forall resp,
          Do w req = inl resp -> StatusCode resp <> 200 ->
          exists err, Process w ctx input = (emptyResult, Some err)
                      /\ mentionsInt (StatusCode resp) err = true).
Proof.
  intros w ctx input u (e0 & Hstat & Hne) Hu Hs Hreq req.
  assert (HP : Process w ctx input = processURLOrRaw w ctx input).
  { unfold Process. rewrite Hstat, Hne. reflexivity. }
  assert (Hsch : eqb (Scheme u) (runes "http")
                 || eqb (Scheme u) (runes "https") = true).
  { destruct Hs as [-> | ->]; reflexivity. }
  rewrite HP. unfold processURLOrRaw. rewrite Hu, Hsch, Hreq. fold req.
  repeat split.
  - intros e He. rewrite He. reflexivity.
  - intros resp body Hdo Hcode Hbody. rewrite Hdo, Hcode, Hbody.
    reflexivity.
  - intros resp Hdo Hcode. rewrite Hdo.
    destruct (Z.eqb_spec (StatusCode resp) StatusOK) as [E|E];
      [contradiction|].
    cbn [negb]. eexists. split; [reflexivity|].
    cbn. rewrite Z.eqb_refl. reflexivity.
Qed.

End URLInput.

(** C7 as the specification words it fails: an answer with status 201, a
    2xx status, makes the call fail; the body of the answer is not
    returned. *)
Lemma process_url_rejects_status_201 :
  200 <= 201 < 300
  /\ InputProcessor.Process (InputProcessor.answering 201) 0
       (GoString.runes "https://example.org/a")
     = (InputProcessor.emptyResult,
        Some (GoErrors.Errorf
          "failed to fetch URL '%s': status code %d %s - Body Hint: %s"
          [GoErrors.AStr (GoString.runes "https://example.org/a");
           GoErrors.AInt 201; GoErrors.AStr [];
           GoErrors.AStr (GoString.runes "ok")])).
Proof. split; [lia|]. vm_compute. reflexivity. Qed.

(** The statement of C7, as the code has it, at a server that answers 200
    and at one that answers 500. *)
Lemma process_url_requires_status_200_witness :
  let w := InputProcessor.answering 200 in
  let input := GoString.runes "https://example.org/a" in
  InputProcessor.Process w 0 input
  = ({| InputProcessor.Body := GoString.runes "ok";
        InputProcessor.ContentType := GoString.runes "text/plain";
        InputProcessor.FilePath := None; InputProcessor.FileSize := None;
        InputProcessor.URL := Some input; InputProcessor.Mtime := None;
        InputProcessor.Metadata := {["input_type" := GoString.runes "url"]} |},
     None)
  /\ exists err,
       InputProcessor.Process (InputProcessor.answering 500) 0 input
       = (InputProcessor.emptyResult, Some err)
       /\ GoErrors.mentionsInt 500 err = true.
Proof.
  intros w input.
  assert (Hnd : forall c, InputProcessor.notOnDisk
                            (InputProcessor.answering c) input).
  { intros c. eexists. split; reflexivity. }
  split.
  - destruct (process_url_requires_status_200 w 0 input
                {| InputProcessor.Scheme := GoString.runes "https";
                   InputProcessor.urlString := input |}
                (Hnd 200) eq_refl (or_intror eq_refl) eq_refl)
      as (_ & H & _).
    exact (H _ (GoString.runes "ok") eq_refl eq_refl eq_refl).
  - destruct (process_url_requires_status_200
                (InputProcessor.answering 500) 0 input
                {| InputProcessor.Scheme := GoString.runes "https";
                   InputProcessor.urlString := input |}
                (Hnd 500) eq_refl (or_intror eq_refl) eq_refl)
      as (_ & _ & H).
    apply (H _ eq_refl). discriminate.
Defined.

(** ** Ingesting a duplicate *)

Section AddDuplicate.
Import GoString GoErrors Store ContentService.

Variable W : Type.
Variable cs : collaborators W.

Lemma appends_ret {A : Type} (a : A) : appends W (ret W a).
Proof. intros w t. exists []. cbn. rewrite app_nil_r. reflexivity. Qed.

Lemma appends_invoke {A : Type} (c : call) (f : W -> A * W) :
  appends W (invoke W c f).
Proof.
  intros w t. exists [c]. unfold invoke. cbn.
  destruct (f w). reflexivity.
Qed.

Lemma appends_bind {A B : Type} (m : M W A) (k : A -> M W B) :
  appends W m -> (forall a, appends W (k a)) -> appends W (bind W m k).
Proof.
  intros Hm Hk w t. unfold bind.
  destruct (Hm w t) as [a1 H1].
  destruct (m (w, t)) as [a [w' t']] eqn:E. cbn in H1. subst t'.
  destruct (Hk a w' (t ++ a1)) as [a2 H2].
  exists (a1 ++ a2). rewrite H2, app_assoc. reflexivity.
Qed.




End AddDuplicate.

(** The first ingestion of "hello world" reports [existed = false] and
    enqueues the embedding job, categorises, creates and attaches the tag and
    enqueues the summarisation job, in this order. *)
Example first_add_enriches :
  snd (fst (fst ContentService.firstAdd)) = false
  /\ map ContentService.enriching (snd (snd ContentService.firstAdd))
     = [false; false; false; true; true; true; true; true].
Proof. vm_compute. split; reflexivity. Qed.


(** ** Words and white space *)

Section WordsAndSpace.
Import GoString Words.

Lemma trimLeft_split (s : gostring) :
  exists sp, s = sp ++ trimLeft s /\ forallb isSpace sp = true.
Proof.
  induction s as [|r s (sp & Hs & Hsp)]; cbn.
  - exists []. split; reflexivity.
  - destruct (isSpace r) eqn:E.
    + exists (r :: sp). cbn. rewrite E, Hsp. split; [congruence|reflexivity].
    + exists []. split; reflexivity.
Qed.

Lemma trimLeft_head (s : gostring) :
  match trimLeft s with
  | [] => True
  | r :: _ => isSpace r = false
  end.
Proof.
  induction s as [|r s IH]; cbn; [exact I|].
  destruct (isSpace r) eqn:E; [exact IH|exact E].
Qed.

Lemma trimLeft_fixed (s : gostring) :
  match s with [] => True | r :: _ => isSpace r = false end ->
  trimLeft s = s.
Proof. destruct s as [|r s]; cbn; [reflexivity|]. intros ->. reflexivity. Qed.

Lemma trimLeft_idem (s : gostring) : trimLeft (trimLeft s) = trimLeft s.
Proof. apply trimLeft_fixed, trimLeft_head. Qed.

Lemma trimLeft_app_nonspace (s t : gostring) (r : rune) :
  isSpace r = false -> trimLeft (s ++ r :: t) = trimLeft s ++ r :: t.
Proof.
  intros Hr. induction s as [|a s IH]; cbn.
  - rewrite Hr. reflexivity.
  - destruct (isSpace a); [exact IH|reflexivity].
Qed.

(** The last rune of a trimmed text is not white space. *)
Lemma TrimSpace_last (s : gostring) :
  match rev (TrimSpace s) with
  | [] => True
  | r :: _ => isSpace r = false
  end.
Proof.
  unfold TrimSpace. rewrite rev_involutive. apply trimLeft_head.
Qed.

Lemma TrimSpace_first (s : gostring) :
  match TrimSpace s with
  | [] => True
  | r :: _ => isSpace r = false
  end.
Proof.
  unfold TrimSpace.
  pose proof (trimLeft_head s) as Hh.
  pose proof (trimLeft_head (rev (trimLeft s))) as Hl.
  destruct (trimLeft (rev (trimLeft s))) as [|l u] eqn:Eu; [exact I|].
  destruct (trimLeft_split (rev (trimLeft s))) as (sp & Hs & _).
  rewrite Eu in Hs.
  apply (f_equal (@rev rune)) in Hs. rewrite rev_involutive in Hs.
  rewrite rev_app_distr in Hs.
  destruct (rev (l :: u)) as [|x y] eqn:Ex.
  - apply (f_equal (@length rune)) in Ex. rewrite length_rev in Ex.
    discriminate.
  - rewrite Hs in Hh. cbn in Hh. exact Hh.
Qed.

Lemma TrimSpace_idem (s : gostring) : TrimSpace (TrimSpace s) = TrimSpace s.
Proof.
  pose proof (TrimSpace_first s) as Hf. pose proof (TrimSpace_last s) as Hl.
  set (t := TrimSpace s) in *. unfold TrimSpace at 1.
  rewrite (trimLeft_fixed t Hf), (trimLeft_fixed (rev t) Hl).
  apply rev_involutive.
Qed.

Lemma fieldsAux_spaces (cur sp : gostring) :
  forallb isSpace sp = true ->
  fieldsAux cur sp = match cur with [] => [] | _ => [rev cur] end.
Proof.
  revert cur. induction sp as [|r sp IH]; intros cur H; cbn; [reflexivity|].
  cbn in H. apply andb_true_iff in H as [Hr Hsp]. rewrite Hr.
  destruct cur; rewrite (IH [] Hsp); reflexivity.
Qed.

Lemma fieldsAux_app_spaces (cur s sp : gostring) :
  forallb isSpace sp = true -> fieldsAux cur (s ++ sp) = fieldsAux cur s.
Proof.
  intros Hsp. revert cur. induction s as [|r s IH]; intros cur; cbn.
  - apply fieldsAux_spaces. exact Hsp.
  - destruct (isSpace r); [destruct cur|]; rewrite IH; reflexivity.
Qed.

Lemma fieldsAux_lead_spaces (sp s : gostring) :
  forallb isSpace sp = true -> fieldsAux [] (sp ++ s) = fieldsAux [] s.
Proof.
  induction sp as [|r sp IH]; intros H; cbn; [reflexivity|].
  cbn in H. apply andb_true_iff in H as [Hr Hsp]. rewrite Hr. auto.
Qed.

Lemma Fields_trimLeft (s : gostring) : Fields (trimLeft s) = Fields s.
Proof.
  destruct (trimLeft_split s) as (sp & Hs & Hsp). unfold Fields.
  rewrite Hs at 2. rewrite fieldsAux_lead_spaces by exact Hsp. reflexivity.
Qed.

Lemma forallb_rev {A : Type} (p : A -> bool) (l : list A) :
  forallb p (rev l) = forallb p l.
Proof.
  induction l as [|x l IH]; cbn; [reflexivity|].
  rewrite forallb_app, IH. cbn. rewrite andb_true_r. apply andb_comm.
Qed.

(** Trimming does not change the words of a text. *)
Lemma Fields_TrimSpace (s : gostring) : Fields (TrimSpace s) = Fields s.
Proof.
  unfold TrimSpace.
  destruct (trimLeft_split (rev (trimLeft s))) as (sp & Hs & Hsp).
  apply (f_equal (@rev rune)) in Hs.
  rewrite rev_involutive, rev_app_distr in Hs.
  rewrite <- (Fields_trimLeft s). rewrite Hs at 2. unfold Fields.
  rewrite fieldsAux_app_spaces; [reflexivity|].
  rewrite forallb_rev. exact Hsp.
Qed.

Lemma fieldsAux_word (cur w s : gostring) :
  forallb (fun r => negb (isSpace r)) w = true ->
  fieldsAux cur (w ++ s) = fieldsAux (rev w ++ cur) s.
Proof.
  revert cur. induction w as [|r w IH]; intros cur H; cbn; [reflexivity|].
  cbn in H. apply andb_true_iff in H as [Hr Hw].
  apply negb_true_iff in Hr. rewrite Hr, (IH _ Hw), <- app_assoc.
  reflexivity.
Qed.

(** Joining words with single spaces and splitting again gives the words
    back. *)
Lemma Fields_Join (ws : list gostring) :
  Forall word ws -> Fields (Join ws (runes " ")) = ws.
Proof.
  induction ws as [|w ws IH]; intros H; [reflexivity|].
  inversion H as [|? ? [Hne Hw] Hws]; subst.
  assert (Hr : rev w <> []).
  { intros E. apply Hne. apply (f_equal (@rev rune)) in E.
    rewrite rev_involutive in E. exact E. }
  destruct ws as [|w' ws'].
  - cbn [Join]. unfold Fields. rewrite <- (app_nil_r w) at 1.
    rewrite (fieldsAux_word [] w [] Hw), app_nil_r. cbn.
    destruct (rev w) eqn:E; [contradiction|].
    rewrite <- E, rev_involutive. reflexivity.
  - change (Join (w :: w' :: ws') (runes " "))
      with (w ++ runes " " ++ Join (w' :: ws') (runes " ")).
    unfold Fields. rewrite (fieldsAux_word [] w _ Hw), app_nil_r.
    change (runes " " ++ ?x) with (32 :: x). cbn [fieldsAux].
    change (isSpace 32) with true. cbn iota.
    destruct (rev w) eqn:E; [contradiction|].
    rewrite <- E, rev_involutive. f_equal. apply IH. exact Hws.
Qed.

Lemma Fields_words (s : gostring) : Forall word (Fields s).
Proof. apply Fields_fields. Qed.

(** A text is blank exactly when it has no words. *)
Lemma TrimSpace_nil_iff (s : gostring) : TrimSpace s = [] <-> Fields s = [].
Proof.
  split.
  - intros H. rewrite <- Fields_TrimSpace, H. reflexivity.
  - intros H. rewrite <- Fields_TrimSpace in H.
    pose proof (TrimSpace_first s) as Hf.
    destruct (TrimSpace s) as [|r t]; [reflexivity|].
    unfold Fields in H. cbn in H. rewrite Hf in H.
    pose proof (fieldsAux_length [r] t) as Hl. rewrite H in Hl.
    discriminate.
Qed.

End WordsAndSpace.

(** ** Backoff, retries and fallback *)

Section BackoffAndRetries.
Import GoInt GoString GoErrors Fallback FallbackService.

Lemma wrap64_small (z : Z) : - 2 ^ 63 <= z < 2 ^ 63 -> wrap64 z = z.
Proof.
  intros H. unfold wrap64. rewrite Z.mod_small; lia.
Qed.

Lemma wrap64_range (z : Z) : - 2 ^ 63 <= wrap64 z < 2 ^ 63.
Proof.
  unfold wrap64. pose proof (Z.mod_pos_bound (z + 2 ^ 63) (2 ^ 64)). lia.
Qed.

Lemma NextBackoff_cases :
  forall (s : SimpleRetryStrategy) (a : Z),
    0 <= a ->
    exists b,
      NextBackoff s a = Some b
      /\ b <= 30000
      /\ (MaxAttempts s <= 0 \/ MaxAttempts s <= a -> b = -1)
      /\ (a < MaxAttempts s -> 0 <= BaseDelayMs s ->
          BaseDelayMs s * 2 ^ a < 2 ^ 63 ->
          b = Z.min (BaseDelayMs s * 2 ^ a) 30000).
Proof.
  intros s a Ha. unfold NextBackoff, shl64, mul64.
  destruct (Z.leb_spec (MaxAttempts s) 0) as [Hm|Hm].
  { eexists. split; [reflexivity|]. repeat split; try lia. }
  destruct (Z.geb_spec a (MaxAttempts s)) as [Hge|Hlt].
  { eexists. split; [reflexivity|]. repeat split; try lia. }
  destruct (Z.ltb_spec a 0) as [?|_]; [lia|].
  eexists. split; [reflexivity|]. rewrite Z.shiftl_1_l.
  set (p := wrap64 (BaseDelayMs s * wrap64 (2 ^ a))).
  split; [destruct (Z.gtb_spec p 30000); lia|].
  split; [lia|]. intros _ Hb Hfit.
  assert (Hp : p = BaseDelayMs s * 2 ^ a).
  { unfold p. destruct (Z.eq_dec (BaseDelayMs s) 0) as [E|E].
    - rewrite E, !Z.mul_0_l. reflexivity.
    - assert (0 < 2 ^ a) by (apply Z.pow_pos_nonneg; lia).
      assert (2 ^ a < 2 ^ 63) by nia.
      rewrite (wrap64_small (2 ^ a)) by lia.
      apply wrap64_small. nia. }
  rewrite Hp. destruct (Z.gtb_spec (BaseDelayMs s * 2 ^ a) 30000); lia.
Qed.

(** X1.  For an attempt number that is not negative, [NextBackoff] does not
    panic and never asks for more than 30 seconds.  It answers -1 (stop)
    when [MaxAttempts <= 0] or [attempt >= MaxAttempts]; otherwise, for a
    base delay that is not negative and a product that fits in 64 bits, it
    answers [BaseDelayMs * 2^attempt] capped at 30000. *)
Theorem NextBackoff_bounds :
  forall (s : SimpleRetryStrategy) (a : Z),
    0 <= a ->
    exists b,
      NextBackoff s a = Some b
      /\ b <= 30000
      /\ (MaxAttempts s <= 0 \/ MaxAttempts s <= a -> b = -1)
      /\ (a < MaxAttempts s -> 0 <= BaseDelayMs s ->
          BaseDelayMs s * 2 ^ a < 2 ^ 63 ->
          b = Z.min (BaseDelayMs s * 2 ^ a) 30000).
Proof. exact NextBackoff_cases. Qed.

Lemma loop_app {V : Type} (step : state -> outcome V + state)
  (n k : nat) (st : state) :
  loop step (n + k) st
  = match loop step n st with
    | inl r => inl r
    | inr st' => loop step k st'
    end.
Proof.
  revert st. induction n as [|n IH]; intros st; cbn; [reflexivity|].
  destruct (step st) as [o|st']; [reflexivity|apply IH].
Qed.

Lemma patient_wait (s : SimpleRetryStrategy) (a : Z) :
  patient s -> 0 <= a < retries s ->
  exists b, NextBackoff s a = Some b /\ 0 <= b.
Proof.
  intros [Hb Hfit] Ha. unfold retries in Ha.
  destruct (NextBackoff_cases s a ltac:(lia)) as (b & Hn & _ & _ & Hv).
  exists b. split; [exact Hn|].
  assert (Hm : 0 < MaxAttempts s) by lia.
  assert (Hp : 0 < 2 ^ a) by (apply Z.pow_pos_nonneg; lia).
  assert (Hle : 2 ^ a <= 2 ^ (MaxAttempts s - 1))
    by (apply Z.pow_le_mono_r; lia).
  rewrite Hv; [nia|lia|exact Hb|]. specialize (Hfit Hm). nia.
Qed.

Lemma patient_stop (s : SimpleRetryStrategy) :
  NextBackoff s (retries s) = Some (-1).
Proof.
  unfold retries.
  destruct (NextBackoff_cases s (Z.max (MaxAttempts s) 0) ltac:(lia))
    as (b & Hn & _ & Hs & _).
  rewrite Hn. f_equal. apply Hs. lia.
Qed.

(** The retries on one provider that keeps failing: after as many
    iterations as retries are left, the same provider is active and the
    attempt counter stands at the number of retries granted. *)
Lemma retry_phase {V : Type} (s : SimpleRetryStrategy)
  (names : list gostring) (w : world V) (e : error) (name : gostring)
  (n : nat) :
  patient s ->
  (forall k, cancelledAfter w k = false) ->
  (forall k, cancelledWaiting w k = false) ->
  forall st,
    names !! ActiveProvider st = Some name ->
    (forall k, provide w k (ActiveProvider st) = Failed e) ->
    0 <= attempt st -> attempt st + Z.of_nat n = retries s ->
    exists st',
      loop (GenerateEmbedding_step (NextBackoff s) names w) n st = inr st'
      /\ ActiveProvider st' = ActiveProvider st
      /\ initialProviderIndex st' = initialProviderIndex st
      /\ attempt st' = retries s
      /\ calls st' = (calls st + n)%nat.
Proof.
  intros Hp Hca Hcw. induction n as [|n IH]; intros st Hname Hfail Ha Hn.
  - exists st. cbn. repeat split; auto; lia.
  - cbn [loop]. unfold GenerateEmbedding_step at 1.
    rewrite Hname, Hca, Hfail. unfold afterFailure.
    destruct (patient_wait s (attempt st) Hp ltac:(lia)) as (b & -> & Hb).
    destruct (Z.ltb_spec b 0) as [?|_]; [lia|]. rewrite Hcw.
    destruct (IH {| ActiveProvider := ActiveProvider st;
                    initialProviderIndex := initialProviderIndex st;
                    attempt := attempt st + 1;
                    lastErr := Some (Errorf "provider %s failed: %w"
                                       [AStr name; AWrap e]);
                    calls := S (calls st) |})
      as (st' & Hl & H1 & H2 & H3 & H4); cbn; auto; try lia.
    exists st'. rewrite Hl. cbn in *. repeat split; auto. lia.
Qed.

(** X2.  A lone provider that fails every time is invoked once, then once
    more for each retry that the strategy grants (max(MaxAttempts, 0) times),
    and then the call fails with an error that wraps the provider's error. *)
Theorem single_provider_exhausts :
  forall (V : Type) (s : SimpleRetryStrategy) (p : gostring) (e : error)
         (fuel : nat),
    patient s ->
    (Z.to_nat (retries s) + 1 <= fuel)%nat ->
    GenerateEmbedding (V := V) (NextBackoff s) [p] 0 (allFail V e) fuel
    = inl (Exhausted
             (Errorf
                "all embedding providers failed after cycling through: last error: %w"
                [AWrap (Errorf "provider %s failed: %w"
                          [AStr p; AWrap e])]),
           (Z.to_nat (retries s) + 1)%nat).
Proof.
  intros V s p e fuel Hp Hfuel. unfold GenerateEmbedding.
  replace fuel
    with (Z.to_nat (retries s) + (1 + (fuel - Z.to_nat (retries s) - 1)))%nat
    by lia.
  rewrite loop_app.
  assert (Hr : 0 <= retries s) by (unfold retries; lia).
  destruct (retry_phase s [p] (allFail V e) e p (Z.to_nat (retries s)) Hp
              (fun _ => eq_refl) (fun _ => eq_refl) (start 0))
    as (st & -> & HA & HI & Hat & Hc); cbn; auto; try lia.
  cbn [loop Nat.add]. unfold GenerateEmbedding_step.
  rewrite HA. cbn [lookup list_lookup start ActiveProvider allFail provide
                   cancelledAfter]. cbn.
  unfold afterFailure. rewrite Hat, patient_stop. cbn.
  rewrite HA, HI. cbn. rewrite Hc. cbn. do 3 f_equal. lia.
Qed.

(** X3.  With two providers of which the first fails every time and the
    second answers, the call returns the second provider's vector after the
    first provider's invocations (one plus the retries granted) and one
    invocation of the second. *)
Theorem second_provider_answers :
  forall (V : Type) (s : SimpleRetryStrategy) (p0 p1 : gostring)
         (e : error) (v : V) (fuel : nat),
    patient s ->
    (Z.to_nat (retries s) + 2 <= fuel)%nat ->
    GenerateEmbedding (NextBackoff s) [p0; p1] 0 (firstFails V e v) fuel
    = inl (Returned v, (Z.to_nat (retries s) + 2)%nat).
Proof.
  intros V s p0 p1 e v fuel Hp Hfuel. unfold GenerateEmbedding.
  replace fuel
    with (Z.to_nat (retries s) + (2 + (fuel - Z.to_nat (retries s) - 2)))%nat
    by lia.
  rewrite loop_app.
  assert (Hr : 0 <= retries s) by (unfold retries; lia).
  destruct (retry_phase s [p0; p1] (firstFails V e v) e p0
              (Z.to_nat (retries s)) Hp
              (fun _ => eq_refl) (fun _ => eq_refl) (start 0))
    as (st & -> & HA & HI & Hat & Hc); cbn; auto; try lia.
  cbn [loop Nat.add]. unfold GenerateEmbedding_step at 1.
  rewrite HA. cbn [start ActiveProvider]. cbn.
  unfold afterFailure. rewrite Hat, patient_stop. cbn.
  rewrite HA, HI. cbn. rewrite Hc. cbn. do 2 f_equal. lia.
Qed.

End BackoffAndRetries.

(** The statement of X1 at the default strategy and its third retry. *)
Lemma NextBackoff_bounds_witness :
  exists b,
    Fallback.NextBackoff Fallback.defaultStrategy 2 = Some b
    /\ b <= 30000
    /\ b = Z.min (100 * 2 ^ 2) 30000.
Proof.
  destruct (NextBackoff_bounds Fallback.defaultStrategy 2 ltac:(lia))
    as (b & Hb & Hle & _ & Hv).
  exists b. split; [exact Hb|]. split; [exact Hle|].
  apply Hv; [cbn; lia | cbn; lia | vm_compute; reflexivity].
Defined.

(** The statement of X2 at the default strategy: four invocations. *)
Lemma single_provider_exhausts_witness :
  Fallback.GenerateEmbedding (V := list Z)
    (Fallback.NextBackoff Fallback.defaultStrategy) [GoString.runes "p0"] 0
    (Fallback.allFail (list Z) GoErrors.ErrCtx) 9
  = inl (Fallback.Exhausted
           (GoErrors.Errorf
              "all embedding providers failed after cycling through: last error: %w"
              [GoErrors.AWrap
                 (GoErrors.Errorf "provider %s failed: %w"
                    [GoErrors.AStr (GoString.runes "p0");
                     GoErrors.AWrap GoErrors.ErrCtx])]),
         4%nat).
Proof.
  apply (single_provider_exhausts (list Z) Fallback.defaultStrategy
           (GoString.runes "p0") GoErrors.ErrCtx 9).
  - split; [cbn; lia | intros _; vm_compute; reflexivity].
  - vm_compute. lia.
Defined.

(** The statement of X3 at the default strategy: five invocations. *)
Lemma second_provider_answers_witness :
  Fallback.GenerateEmbedding
    (Fallback.NextBackoff Fallback.defaultStrategy)
    [GoString.runes "p0"; GoString.runes "p1"] 0
    (FallbackService.firstFails (list Z) GoErrors.ErrCtx [1; 2]) 9
  = inl (Fallback.Returned [1; 2], 5%nat).
Proof.
  apply (second_provider_answers (list Z) Fallback.defaultStrategy
           (GoString.runes "p0") (GoString.runes "p1") GoErrors.ErrCtx
           [1; 2] 9).
  - split; [cbn; lia | intros _; vm_compute; reflexivity].
  - vm_compute. lia.
Defined.

Section ServiceConstruction.
Import GoInt GoString GoErrors Fallback FallbackService.

Lemma firstMismatch_None (dim : Z) (rest : list Provider) :
  firstMismatch dim rest = None
  <-> Forall (fun p => providerDimension p = dim) rest.
Proof.
  unfold firstMismatch. induction rest as [|p rest IH]; cbn.
  - split; [constructor|reflexivity].
  - destruct (Z.eqb_spec (providerDimension p) dim) as [E|E]; cbn.
    + rewrite IH. split; [intros H; constructor; auto|].
      intros H. inversion H; assumption.
    + split; [discriminate|]. intros H. inversion H; contradiction.
Qed.

Lemma step_keeps_index {V : Type} (strategy : Z -> option Z)
  (names : list gostring) (w : world V) (st st' : state) :
  (ActiveProvider st < length names)%nat ->
  GenerateEmbedding_step strategy names w st = inr st' ->
  (ActiveProvider st' < length names)%nat.
Proof.
  intros Hlt. unfold GenerateEmbedding_step, afterFailure.
  destruct (names !! ActiveProvider st); [|discriminate].
  destruct (cancelledAfter w (calls st)); [discriminate|].
  destruct (provide w (calls st) (ActiveProvider st)); [discriminate|].
  destruct (strategy (attempt st)) as [b|]; [|discriminate].
  destruct (b <? 0).
  - destruct (Nat.eqb _ _); [discriminate|].
    intros [= <-]. cbn. apply Nat.mod_upper_bound. lia.
  - destruct (cancelledWaiting w (calls st)); [discriminate|].
    intros [= <-]. exact Hlt.
Qed.

Lemma loop_keeps_index {V : Type} (strategy : Z -> option Z)
  (names : list gostring) (w : world V) (fuel : nat) (st st' : state) :
  (ActiveProvider st < length names)%nat ->
  loop (GenerateEmbedding_step strategy names w) fuel st = inr st' ->
  (ActiveProvider st' < length names)%nat.
Proof.
  revert st. induction fuel as [|fuel IH]; intros st Hlt; cbn.
  - intros [= <-]. exact Hlt.
  - destruct (GenerateEmbedding_step strategy names w st) as [o|st1] eqn:E;
      [discriminate|].
    apply IH. eapply step_keeps_index; eauto.
Qed.

(** X4.  [NewFallbackEmbeddingService] succeeds exactly when there is at
    least one provider and every provider has the dimension of the first.
    The service it returns starts at the first provider, and [Dimension]
    answers that common dimension, without panicking, at the start and in
    every state that a call of [GenerateEmbedding] reaches, in any world. *)
Theorem new_service_has_one_dimension :
  forall (providers : list Provider) (strategy : option (Z -> option Z)),
    (is_Some (match NewFallbackEmbeddingService providers strategy with
              | inl svc => Some svc
              | inr _ => None
              end)
     <-> exists p0 rest,
           providers = p0 :: rest
           /\ Forall (fun p => providerDimension p = providerDimension p0)
                     rest)
    /\ forall svc,
         NewFallbackEmbeddingService providers strategy = inl svc ->
         Providers svc = providers /\ Active svc = O
         /\ exists dim,
              Dimension svc = Some dim
              /\ forall (V : Type) (w : world V) (fuel : nat) (st : state),
                   loop (GenerateEmbedding_step (Strategy svc)
                           (map providerName providers) w)
                        fuel (start (Active svc)) = inr st ->
                   Dimension (during svc st) = Some dim.
Proof.
  intros providers strategy. unfold NewFallbackEmbeddingService.
  destruct providers as [|p0 rest].
  { split.
    - split; [intros [x Hx]; discriminate|].
      intros (p0 & rest & H & _). discriminate.
    - intros svc H. discriminate. }
  destruct (firstMismatch (providerDimension p0) rest) as [p|] eqn:E.
  { split.
    - split; [intros [x Hx]; discriminate|].
      intros (q0 & rest' & [= <- <-] & HF).
      apply firstMismatch_None in HF. congruence.
    - intros svc H. discriminate. }
  apply firstMismatch_None in E. split.
  - split; [|eauto]. intros _. exists p0, rest. auto.
  - intros svc [= <-]. cbn. repeat split.
    exists (providerDimension p0). split; [reflexivity|].
    intros V w fuel st Hl.
    apply loop_keeps_index in Hl; [|cbn; lia].
    unfold Dimension, during. cbn [Providers Active].
    assert (Hl' : (ActiveProvider st < length (p0 :: rest))%nat).
    { revert Hl. cbn. rewrite ?length_map. auto. }
    destruct (lookup_lt_is_Some_2 (p0 :: rest) _ Hl') as [q Hq].
    rewrite Hq. cbn. f_equal.
    apply list_elem_of_lookup_2 in Hq. apply elem_of_cons in Hq as [->|Hq];
      [reflexivity|].
    rewrite Forall_forall in E. apply E. exact Hq.
Qed.

End ServiceConstruction.

(** The statement of X4 at two providers of 768 dimensions, after one
    failure of the first provider with a strategy that grants no retry. *)
Lemma new_service_has_one_dimension_witness :
  exists svc,
    FallbackService.NewFallbackEmbeddingService FallbackService.twoProviders
      (Some (fun _ => Some (-1))) = inl svc
    /\ FallbackService.Dimension svc = Some 768
    /\ FallbackService.Dimension
         (FallbackService.during svc
            {| Fallback.ActiveProvider := 1; Fallback.initialProviderIndex := 1;
               Fallback.attempt := 0;
               Fallback.lastErr :=
                 Some (GoErrors.Errorf "provider %s failed: %w"
                         [GoErrors.AStr (GoString.runes "openai");
                          GoErrors.AWrap GoErrors.ErrCtx]);
               Fallback.calls := 1 |})
       = Some 768.
Proof.
  destruct (new_service_has_one_dimension FallbackService.twoProviders
              (Some (fun _ => Some (-1)))) as [_ H].
  destruct (FallbackService.NewFallbackEmbeddingService _ _) as [svc|e] eqn:E;
    [|discriminate E].
  destruct (H svc eq_refl) as (_ & _ & dim & Hd & Hl).
  exists svc. split; [reflexivity|].
  assert (Hdim : dim = 768).
  { injection E as <-. vm_compute in Hd. congruence. }
  subst dim. split; [exact Hd|].
  apply (Hl unit (Fallback.allFail unit GoErrors.ErrCtx) 1%nat).
  injection E as <-. reflexivity.
Defined.

(** ** Rows of [content]: creation, lookup, update, deletion *)

Section ContentRows.
Import GoString GoErrors Store StoreMore.

Variable Sum256 : gostring -> list Z.

Lemma send_content (d : db) :
  content (snd (send d)) = content d
  /\ content_id_seq (snd (send d)) = content_id_seq d
  /\ sources (snd (send d)) = sources d
  /\ content_tags (snd (send d)) = content_tags d
  /\ background_jobs (snd (send d)) = background_jobs d.
Proof. unfold send. destruct (faults d); cbn; auto. Qed.

Lemma existsb_hash_false (rows : list Content) (h : gostring) :
  existsb (fun r => eqb (ContentHash r) h) rows = false ->
  ~ In h (map ContentHash rows).
Proof.
  intros H Hin. apply in_map_iff in Hin as (r & <- & Hr).
  assert (E : existsb (fun r0 => eqb (ContentHash r0) (ContentHash r)) rows
              = true).
  { apply existsb_exists. exists r. split; [exact Hr|].
    apply gostring_eqb_refl. }
  congruence.
Qed.

Lemma NoDup_snoc {A : Type} (l : list A) (x : A) :
  List.NoDup l -> ~ In x l -> List.NoDup (l ++ [x]).
Proof.
  induction l as [|y l IH]; intros Hl Hx; cbn.
  - constructor; [easy|constructor].
  - inversion Hl as [|? ? Hy Hl']; subst. constructor.
    + rewrite in_app_iff. cbn. cbn in Hx. intuition.
    + apply IH; [exact Hl'|]. cbn in Hx. tauto.
Qed.

(** The row that [insert_content] writes for [c] under the id [id]. *)
Lemma insert_content_spec (d : db) (c : Content) (now : Z) :
  match insert_content d c now with
  | (inr e, d') =>
      content d' = content d /\ content_id_seq d <= content_id_seq d'
  | (inl (id, _, _), d') =>
      id = content_id_seq d + 1 /\ content_id_seq d' = id
      /\ existsb (fun r => eqb (ContentHash r) (ContentHash c)) (content d)
         = false
      /\ exists row,
           content d' = content d ++ [row] /\ ID row = id
           /\ Body row = Body c /\ ContentHash row = ContentHash c
           /\ LastAccessedAt row = None
  end.
Proof.
  unfold insert_content.
  destruct (send_content d) as (Hc & Hq & _).
  destruct (send d) as [[e|] d1]; cbn [snd] in *.
  { split; [exact Hc|lia]. }
  rewrite Hc, Hq.
  destruct (existsb _ (content d)) eqn:Eh; [cbn; split; [reflexivity|lia]|].
  destruct (existsb (Z.eqb (SourceID c)) (sources d1)); cbn [negb].
  - cbn. repeat split. eexists. repeat split.
  - cbn. split; [reflexivity|lia].
Qed.

Lemma prepared_fields (c : Content) :
  let c1 := set_hash c (calculateHash Sum256 (Body c)) in
  let c2 := match Metadata c1 with
            | None => set_metadata c1 (Some (runes "{}"))
            | Some _ => c1
            end in
  Body c2 = Body c /\ ContentHash c2 = calculateHash Sum256 (Body c)
  /\ ID c2 = ID c.
Proof. destruct c as [i s t b h fp fs ct [m|] ei ie la ma su ca ua]; cbn; auto. Qed.

(** X5.  [CreateContent] either fails and leaves the rows of [content] as
    they were, or appends exactly one row, which carries the id handed back,
    the given body and the hex digest of that body as its hash.  In both
    cases it keeps the hashes of the table distinct and its ids distinct and
    within the sequence. *)
Theorem create_content_appends_one_row :
  forall (now : Z) (d : db) (c : Content),
    let '(err, c', d') := CreateContent Sum256 now d c in
    (hashesUnique d -> hashesUnique d')
    /\ (idsFromSequence d -> idsFromSequence d')
    /\ match err with
       | Some _ => content d' = content d
       | None =>
           exists row,
             content d' = content d ++ [row]
             /\ ID row = ID c' /\ Body row = Body c
             /\ ContentHash row = calculateHash Sum256 (Body c)
             /\ ContentHash c' = ContentHash row
       end.
Proof.
  intros now d c. unfold CreateContent.
  destruct (prepared_fields c) as (Hb & Hh & _).
  set (c2 := match Metadata (set_hash c (calculateHash Sum256 (Body c))) with
             | None => set_metadata (set_hash c (calculateHash Sum256 (Body c)))
                         (Some (runes "{}"))
             | Some _ => set_hash c (calculateHash Sum256 (Body c))
             end) in *.
  pose proof (insert_content_spec d c2 now) as Hspec.
  destruct (insert_content d c2 now) as [[[[id cr] up]|e] d'].
  - destruct Hspec as (Hid & Hseq & Hfresh & row & Hrows & Hrid & Hrb & Hrh & _).
    unfold hashesUnique, idsFromSequence. rewrite Hrows, Hseq. split; [|split].
    + intros Hu. rewrite map_app. cbn. apply NoDup_snoc; [exact Hu|].
      rewrite Hrh. apply existsb_hash_false. exact Hfresh.
    + intros [H1 H2]. split.
      * rewrite map_app. cbn. apply NoDup_snoc; [exact H1|].
        intros Hin. apply in_map_iff in Hin as (r & Hr & Hin).
        rewrite List.Forall_forall in H2. specialize (H2 r Hin). lia.
      * apply Forall_app. split.
        -- eapply List.Forall_impl; [|exact H2]. cbn. intros; lia.
        -- constructor; [lia|constructor].
    + exists row. cbn. rewrite Hrh, Hh, Hrb, Hb. repeat split; auto.
  - destruct Hspec as (Hrows & Hseq).
    assert (Hkeep : (hashesUnique d -> hashesUnique d')
                    /\ (idsFromSequence d -> idsFromSequence d')
                    /\ content d' = content d).
    { unfold hashesUnique, idsFromSequence. rewrite Hrows.
      split; [auto|]. split; [|reflexivity].
      intros [H1 H2]. split; [exact H1|].
      eapply List.Forall_impl; [|exact H2]. cbn. intros; lia. }
    destruct (AsPgError e) as [code|]; [|exact Hkeep].
    destruct (eqb code (runes "23503")); [exact Hkeep|].
    destruct (eqb code (runes "23505")); exact Hkeep.
Qed.

Lemma insert_content_healthy (d : db) (c : Content) (now : Z) :
  faults d = [] -> faults (snd (insert_content d c now)) = [].
Proof.
  intros Hf. unfold insert_content. rewrite (send_healthy d Hf).
  destruct (existsb _ (content d)); [exact Hf|].
  destruct (negb _); exact Hf.
Qed.

Lemma find_app_last {A : Type} (f : A -> bool) (l : list A) (x : A) :
  (forall y, In y l -> f y = false) -> f x = true ->
  List.find f (l ++ [x]) = Some x.
Proof.
  intros Hl Hx. induction l as [|y l IH]; cbn.
  - rewrite Hx. reflexivity.
  - rewrite (Hl y (or_introl eq_refl)). apply IH.
    intros z Hz. apply Hl. right. exact Hz.
Qed.

(** X6.  On a working connection, a content that [CreateContent] has just
    stored is what [GetContent] returns for the id handed back and what
    [FindContentByHash] returns for the hash that was set: a row with the
    given body and the digest of that body. *)
Theorem created_content_is_found :
  forall (now : Z) (d d' : db) (c c' : Content),
    faults d = [] ->
    idsFromSequence d ->
    CreateContent Sum256 now d c = (None, c', d') ->
    exists row,
      GetContent d' (ID c') = (inl row, d')
      /\ FindContentByHash d' (ContentHash c') = (inl row, d')
      /\ ID row = ID c'
      /\ Body row = Body c
      /\ ContentHash row = calculateHash Sum256 (Body c).
Proof.
  intros now d d' c c' Hf [_ Hids] H. unfold CreateContent in H.
  destruct (prepared_fields c) as (Hb & Hh & _).
  set (c2 := match Metadata (set_hash c (calculateHash Sum256 (Body c))) with
             | None => set_metadata (set_hash c (calculateHash Sum256 (Body c)))
                         (Some (runes "{}"))
             | Some _ => set_hash c (calculateHash Sum256 (Body c))
             end) in *.
  pose proof (insert_content_spec d c2 now) as Hspec.
  pose proof (insert_content_healthy d c2 now Hf) as Hf'.
  destruct (insert_content d c2 now) as [[[[id cr] up]|e] d1].
  2:{ destruct (AsPgError e) as [code|]; [|discriminate].
      destruct (eqb code (runes "23503")); [discriminate|].
      destruct (eqb code (runes "23505")); discriminate. }
  injection H as <- <-. cbn [snd] in Hf'.
  destruct Hspec
    as (Hid & Hseq & Hfresh & row & Hrows & Hrid & Hrb & Hrh & Hla).
  exists row. cbn [ID ContentHash set_returning]. split; [|split].
  - unfold GetContent, select_by_id. rewrite (send_healthy d1 Hf'), Hrows.
    rewrite (find_app_last _ _ row);
      [destruct row; cbn in Hla; subst; reflexivity| |].
    + intros y Hy. rewrite List.Forall_forall in Hids. specialize (Hids y Hy).
      apply Z.eqb_neq. lia.
    + apply Z.eqb_eq. exact Hrid.
  - apply FindContentByHash_present; [exact Hf'|]. rewrite Hrows.
    apply find_app_new; [exact Hfresh|exact Hrh].
  - rewrite Hrh, Hh, Hrb, Hb. repeat split; auto.
Qed.

Lemma rewritten_rows_ids (rows : list Content) (f : Content -> Content)
  (p : Content -> bool) :
  (forall r, ID (f r) = ID r) ->
  map ID (map (fun r => if p r then f r else r) rows) = map ID rows.
Proof.
  intros Hf. induction rows as [|r rows IH]; cbn; [reflexivity|].
  rewrite IH. destruct (p r); [rewrite Hf|]; reflexivity.
Qed.

Lemma existsb_id_false (rows : list Content) (id : Z) :
  existsb (fun r => ID r =? id) rows = false
  <-> forall r, In r rows -> ID r <> id.
Proof.
  split.
  - intros H r Hr E.
    assert (existsb (fun r => ID r =? id) rows = true).
    { apply existsb_exists. exists r. split; [exact Hr|].
      apply Z.eqb_eq. exact E. }
    congruence.
  - intros H. destruct (existsb _ rows) eqn:E; [|reflexivity].
    apply existsb_exists in E as (r & Hr & E). apply Z.eqb_eq in E.
    exfalso. exact (H r Hr E).
Qed.

(** X7.  On a working connection [UpdateContent] returns
    [store.ErrNotFound] exactly when no row has the id of the content; a
    call that fails changes no row; a call that succeeds keeps the ids of
    the table, leaves the rows with other ids as they were, and gives the
    row with the id the new body, the digest of that body as its hash, and
    the time of the call as [updated_at]. *)
Theorem update_content_rewrites_one_row :
  forall (now : Z) (d : db) (c : Content),
    faults d = [] ->
    let '(err, c', d') := UpdateContent Sum256 now d c in
    (err = Some ErrNotFound <-> forall r, In r (content d) -> ID r <> ID c)
    /\ match err with
       | Some _ => content d' = content d
       | None =>
           map ID (content d') = map ID (content d)
           /\ (forall r, In r (content d) -> ID r <> ID c ->
               In r (content d'))
           /\ (forall r, In r (content d') -> ID r = ID c ->
               Body r = Body c
               /\ ContentHash r = calculateHash Sum256 (Body c)
               /\ UpdatedAt r = now)
           /\ ContentHash c' = calculateHash Sum256 (Body c)
       end.
Proof.
  intros now d c Hf. unfold UpdateContent, update_content.
  destruct (prepared_fields c) as (Hb & Hh & Hi).
  set (c2 := match Metadata (set_hash c (calculateHash Sum256 (Body c))) with
             | None => set_metadata (set_hash c (calculateHash Sum256 (Body c)))
                         (Some (runes "{}"))
             | Some _ => set_hash c (calculateHash Sum256 (Body c))
             end) in *.
  rewrite (send_healthy d Hf), Hi.
  destruct (existsb (fun r => ID r =? ID c) (content d)) eqn:Eid;
    [change (negb true) with false|change (negb false) with true];
    cbv beta iota zeta.
  2:{ cbn [Is same_sentinel orb]. split; [|reflexivity].
      split; [|reflexivity].
      intros _. apply existsb_id_false. exact Eid. }
  assert (Hpresent : ~ (forall r, In r (content d) -> ID r <> ID c)).
  { intros H. apply existsb_id_false in H. congruence. }
  destruct (existsb (fun r => negb (ID r =? ID c)
                              && eqb (ContentHash r) (ContentHash c2))
                    (content d)) eqn:Edup; cbv beta iota zeta.
  { cbn [Is same_sentinel orb AsPgError]. rewrite gostring_eqb_refl.
    split; [|reflexivity].
    split; [discriminate|intros H; contradiction]. }
  split; [split; [discriminate|intros H; contradiction]|].
  cbn [content with_content]. split; [|split; [|split]].
  - apply rewritten_rows_ids. reflexivity.
  - intros r Hr Hne. apply in_map_iff. exists r.
    destruct (Z.eqb_spec (ID r) (ID c)); [contradiction|]. auto.
  - intros r Hr Hrid. apply in_map_iff in Hr as (r0 & Hr0 & _).
    destruct (Z.eqb_spec (ID r0) (ID c)) as [E|E].
    + subst r. cbn. rewrite Hb, Hh. auto.
    + subst r. contradiction.
  - exact Hh.
Qed.

End ContentRows.

(** ** Deleting a content, marking it embedded, updating a job *)

Section DeleteAndMark.
Import GoString GoErrors Store StoreMore.

Lemma filter_length_zero {A : Type} (p : A -> bool) (l : list A) :
  length (List.filter p l) = O <-> forall x, In x l -> p x = false.
Proof.
  induction l as [|y l IH]; cbn; [intuition|].
  destruct (p y) eqn:E; cbn.
  - split; [discriminate|]. intros H. specialize (H y (or_introl eq_refl)).
    congruence.
  - rewrite IH. split; [intros H x [<-|Hx]; auto|intros H x Hx; auto].
Qed.

Lemma DeleteContent_healthy :
  forall (s : dbc) (id : Z),
    faults (fst s) = [] ->
    let '(err, s') := DeleteContent s id in
    content (fst s')
      = List.filter (fun r => negb (ID r =? id)) (content (fst s))
    /\ content_tags (fst s')
       = List.filter (fun ct => negb (fst ct =? id)) (content_tags (fst s))
    /\ snd s' = List.filter (fun cc => negb (snd cc =? id)) (snd s)
    /\ ((exists r, In r (content (fst s)) /\ ID r = id) -> err = None)
    /\ ((forall r, In r (content (fst s)) -> ID r <> id) ->
        err = Some ErrNotFound).
Proof.
  intros [d cc] id Hf. cbn [fst snd] in *.
  unfold DeleteContent, delete_content_tags, delete_collection_content,
    delete_content.
  cbn [fst snd]. rewrite (send_healthy d Hf). cbn [fst snd].
  assert (Hf1 : forall cts, faults (with_content_tags d cts) = [])
    by (intros; exact Hf).
  rewrite (send_healthy _ (Hf1 _)). cbn [fst snd].
  rewrite (send_healthy _ (Hf1 _)). cbn [fst snd content content_tags
    with_content_tags with_content].
  set (n := length (List.filter (fun r => ID r =? id) (content d))).
  assert (Hidem : forall (A : Type) (p : A -> bool) (l : list A),
             List.filter p (List.filter p l) = List.filter p l).
  { intros A p l. induction l as [|x l IH]; cbn; [reflexivity|].
    destruct (p x) eqn:E; cbn; [rewrite E|]; congruence. }
  destruct (Z.eqb_spec (Z.of_nat n) 0) as [E|E]; cbn [fst snd content
    content_tags with_content_tags with_content];
    rewrite !Hidem; repeat split; auto.
  - intros (r & Hr & Hid). exfalso.
    assert (Hn0 : n = O) by lia. unfold n in Hn0.
    pose proof (proj1 (filter_length_zero _ _) Hn0 r Hr) as Hn.
    cbn in Hn. apply Z.eqb_neq in Hn. contradiction.
  - intros Habs. exfalso. assert (Hz : n = O); [|lia].
    apply (proj2 (filter_length_zero _ _)).
    intros r Hr. apply Z.eqb_neq. apply Habs. exact Hr.
Qed.


(** X9.  [DeleteContent] is not atomic: when the connection fails at the
    third statement, the call returns an error that wraps the failure, the
    content row is still there, and its tag and collection associations are
    already gone. *)
Theorem delete_content_is_not_atomic :
  forall (s : dbc) (id : Z) (e : error) (rest : list (option error)),
    faults (fst s) = None :: None :: Some e :: rest ->
    let '(err, s') := DeleteContent s id in
    err = Some (Errorf "delete content: failed to delete content %d: %w"
                  [AInt id; AWrap e])
    /\ content (fst s') = content (fst s)
    /\ content_tags (fst s')
       = List.filter (fun ct => negb (fst ct =? id)) (content_tags (fst s))
    /\ snd s' = List.filter (fun cc => negb (snd cc =? id)) (snd s).
Proof.
  intros [d cc] id e rest Hf. cbn [fst snd] in *.
  unfold DeleteContent, delete_content_tags, delete_collection_content,
    delete_content, send.
  cbn [fst snd]. rewrite Hf.
  cbn [fst snd faults with_faults with_content_tags content content_tags].
  repeat split.
Qed.

(** X10.  On a working connection [UpdateContentEmbeddingStatus] returns
    [store.ErrNotFound] when no row has the id and nil otherwise.  It never
    changes an id, a body or a hash; it leaves the rows with other ids as
    they were and sets the embedding flag and the embedding id of the rows
    with the id. *)
Theorem update_embedding_status_marks_row :
  forall (now : Z) (d : db) (id : Z) (embeddingID : gostring)
         (isEmbedded : bool),
    faults d = [] ->
    let '(err, d') :=
      UpdateContentEmbeddingStatus now d id embeddingID isEmbedded in
    map ID (content d') = map ID (content d)
    /\ map Body (content d') = map Body (content d)
    /\ map ContentHash (content d') = map ContentHash (content d)
    /\ (forall r, In r (content d) -> ID r <> id -> In r (content d'))
    /\ (forall r, In r (content d') -> ID r = id ->
        IsEmbedded r = isEmbedded /\ EmbeddingID r = Some embeddingID)
    /\ ((exists r, In r (content d) /\ ID r = id) -> err = None)
    /\ ((forall r, In r (content d) -> ID r <> id) ->
        err = Some ErrNotFound).
Proof.
  intros now d id eid ie Hf.
  unfold UpdateContentEmbeddingStatus, update_embedding.
  rewrite (send_healthy d Hf).
  set (n := length (List.filter (fun r => ID r =? id) (content d))).
  set (f := fun r : Content => if ID r =? id then _ else r).
  assert (Hrows : map ID (map f (content d)) = map ID (content d)
                  /\ map Body (map f (content d)) = map Body (content d)
                  /\ map ContentHash (map f (content d))
                     = map ContentHash (content d)).
  { rewrite !map_map. repeat split; apply map_ext; intros r; unfold f;
      destruct (ID r =? id); reflexivity. }
  destruct Hrows as (H1 & H2 & H3).
  assert (Hother : forall r, In r (content d) -> ID r <> id ->
                             In r (map f (content d))).
  { intros r Hr Hne. apply in_map_iff. exists r. split; [|exact Hr].
    unfold f. destruct (Z.eqb_spec (ID r) id); [contradiction|reflexivity]. }
  assert (Hhit : forall r, In r (map f (content d)) -> ID r = id ->
                           IsEmbedded r = ie /\ EmbeddingID r = Some eid).
  { intros r Hr Hid. apply in_map_iff in Hr as (r0 & <- & _).
    unfold f in *. destruct (Z.eqb_spec (ID r0) id); [cbn; auto|].
    contradiction. }
  destruct (Z.eqb_spec (Z.of_nat n) 0) as [E|E];
    cbn [content with_content];
    (split; [exact H1|]); (split; [exact H2|]); (split; [exact H3|]);
    (split; [exact Hother|]); (split; [exact Hhit|]); split; auto.
  - intros (r1 & Hr & Hid). exfalso.
    assert (Hn0 : n = O) by lia. unfold n in Hn0.
    pose proof (proj1 (filter_length_zero _ _) Hn0 r1 Hr) as Hn.
    cbn in Hn. apply Z.eqb_neq in Hn. contradiction.
  - intros Habs. exfalso. assert (Hz : n = O); [|lia].
    apply (proj2 (filter_length_zero _ _)).
    intros r1 Hr. apply Z.eqb_neq. apply Habs. exact Hr.
Qed.

End DeleteAndMark.

(** ** Job rows: recording and updating *)

Section JobRows.
Import GoString GoErrors Store StoreMore.

Lemma existsb_job_false (rows : list JobRow) (u : gostring) :
  existsb (fun r => eqb (job_id r) u) rows = false ->
  ~ In u (map job_id rows).
Proof.
  intros H Hin. apply in_map_iff in Hin as (r & <- & Hr).
  assert (E : existsb (fun r0 => eqb (job_id r0) (job_id r)) rows = true).
  { apply existsb_exists. exists r. split; [exact Hr|].
    apply gostring_eqb_refl. }
  congruence.
Qed.

(** X11.  Whatever the connection does, [RecordJobEnqueue] never changes or
    removes a row of [background_jobs]: it appends at most one row, and only
    a row with a task UUID that the table did not hold, so the UUIDs of the
    table stay distinct.  A nil payload is stored as the empty JSON object
    and a related entity id of 0 as NULL. *)
Theorem record_job_enqueue_only_appends :
  forall (now : Z) (d : db) (p : JobRecordParams),
    let '(err, d') := RecordJobEnqueue now d p in
    (jobIDsUnique d -> jobIDsUnique d')
    /\ (background_jobs d' = background_jobs d
        \/ exists row,
             background_jobs d' = background_jobs d ++ [row]
             /\ err = None
             /\ job_id row = JobID p
             /\ jobRows d (JobID p) = O
             /\ job_payload row = match Payload p with
                                  | Some b => b
                                  | None => runes "{}"
                                  end
             /\ job_related_entity_id row
                = if RelatedEntityID p =? 0 then None
                  else Some (RelatedEntityID p)).
Proof.
  intros now d p. unfold RecordJobEnqueue, insert_job.
  destruct (send_content d) as (_ & _ & _ & _ & Hj).
  destruct (send d) as [[e|] d1]; cbn [snd] in Hj.
  { unfold jobIDsUnique. destruct (Is e ErrNoRows); cbn; rewrite Hj; auto. }
  destruct (existsb _ (background_jobs d1)) eqn:E.
  { cbn [Is same_sentinel orb]. unfold jobIDsUnique. cbn. rewrite Hj. auto. }
  cbv beta iota zeta. unfold jobIDsUnique.
  cbn [background_jobs with_jobs]. rewrite Hj in *. split.
  - intros Hu. rewrite map_app. cbn [map job_id].
    apply NoDup_snoc; [exact Hu|]. apply existsb_job_false. exact E.
  - right. eexists. split; [reflexivity|]. cbn [job_id job_payload
      job_related_entity_id]. repeat split.
    apply jobRows_zero_iff. exact E.
Qed.

Lemma update_job_status_spec :
  forall (now : Z) (d : db) (u status : gostring),
    faults d = [] ->
    let '(err, d') := UpdateJobStatus now d u status in
    map job_id (background_jobs d') = map job_id (background_jobs d)
    /\ (forall r, In r (background_jobs d) -> job_id r <> u ->
        In r (background_jobs d'))
    /\ (forall r, In r (background_jobs d') -> job_id r = u ->
        job_status r = status /\ job_updated_at r = now)
    /\ (jobRows d u <> O -> err = None)
    /\ (jobRows d u = O ->
        exists e, err = Some e /\ Is e ErrNotFound = true).
Proof.
  intros now d u status Hf. unfold UpdateJobStatus, update_job_status.
  rewrite (send_healthy d Hf). fold (jobRows d u).
  set (f := fun r : JobRow => if eqb (job_id r) u then _ else r).
  assert (H1 : map job_id (map f (background_jobs d))
               = map job_id (background_jobs d)).
  { rewrite map_map. apply map_ext. intros r. unfold f.
    destruct (eqb (job_id r) u); reflexivity. }
  assert (H2 : forall r, In r (background_jobs d) -> job_id r <> u ->
                         In r (map f (background_jobs d))).
  { intros r Hr Hne. apply in_map_iff. exists r. split; [|exact Hr].
    unfold f. apply gostring_eqb_neq in Hne. rewrite Hne. reflexivity. }
  assert (H3 : forall r, In r (map f (background_jobs d)) -> job_id r = u ->
                         job_status r = status /\ job_updated_at r = now).
  { intros r Hr Hid. apply in_map_iff in Hr as (r0 & <- & _).
    unfold f in *. destruct (eqb (job_id r0) u) eqn:E; [cbn; auto|].
    apply gostring_eqb_neq in E. contradiction. }
  destruct (Z.eqb_spec (Z.of_nat (jobRows d u)) 0) as [E|E];
    cbn [background_jobs with_jobs];
    (split; [exact H1|]); (split; [exact H2|]); (split; [exact H3|]); split.
  - intros Hn. lia.
  - intros _. eexists. split; [reflexivity|]. reflexivity.
  - reflexivity.
  - intros Hz. lia.
Qed.

(** X12.  On a working connection [UpdateJobStatus] returns an error that
    wraps [store.ErrNotFound] when no row has the task UUID, and nil
    otherwise.  It keeps the UUIDs of the table, leaves the rows with other
    UUIDs as they were, and gives the rows with the UUID the new status and
    the time of the call. *)
Theorem update_job_status_marks_row :
  forall (now : Z) (d : db) (u status : gostring),
    faults d = [] ->
    let '(err, d') := UpdateJobStatus now d u status in
    map job_id (background_jobs d') = map job_id (background_jobs d)
    /\ (forall r, In r (background_jobs d) -> job_id r <> u ->
        In r (background_jobs d'))
    /\ (forall r, In r (background_jobs d') -> job_id r = u ->
        job_status r = status /\ job_updated_at r = now)
    /\ (jobRows d u <> O -> err = None)
    /\ (jobRows d u = O ->
        exists e, err = Some e /\ Is e ErrNotFound = true).
Proof. exact update_job_status_spec. Qed.

(** X13.  A job that [RecordJobEnqueue] has recorded under a new task UUID
    can be updated: on a working connection [UpdateJobStatus] for that UUID
    returns nil and the one row with the UUID carries the new status. *)
Theorem recorded_job_can_be_updated :
  forall (now1 now2 : Z) (d : db) (p : JobRecordParams) (status : gostring),
    faults d = [] ->
    jobRows d (JobID p) = O ->
    exists d1 d2,
      RecordJobEnqueue now1 d p = (None, d1)
      /\ UpdateJobStatus now2 d1 (JobID p) status = (None, d2)
      /\ jobRows d2 (JobID p) = 1%nat
      /\ forall r, In r (background_jobs d2) -> job_id r = JobID p ->
           job_status r = status.
Proof.
  intros now1 now2 d p status Hf Hz.
  destruct (RecordJobEnqueue_new now1 d p Hf Hz) as (d1 & H1 & Hf1 & Hc & _).
  pose proof (update_job_status_spec now2 d1 (JobID p) status Hf1) as H.
  destruct (UpdateJobStatus now2 d1 (JobID p) status) as [err d2] eqn:EU.
  destruct H as (Hids & _ & Hst & Hok & _).
  exists d1, d2. split; [exact H1|]. split.
  - rewrite EU, Hok; [reflexivity|]. rewrite Hc. discriminate.
  - split.
    + unfold jobRows in *.
      assert (Hlen : forall rows rows' : list JobRow,
                 map job_id rows' = map job_id rows ->
                 length (List.filter (fun r => eqb (job_id r) (JobID p)) rows')
                 = length (List.filter (fun r => eqb (job_id r) (JobID p))
                             rows)).
      { intros rows. induction rows as [|r rows IH]; intros [|r' rows'] Hm;
          try discriminate; [reflexivity|].
        cbn in Hm. injection Hm as Hr Hm. cbn. rewrite Hr.
        destruct (eqb (job_id r) (JobID p)); cbn; rewrite (IH _ Hm);
          reflexivity. }
      rewrite (Hlen _ _ Hids). exact Hc.
    + intros r Hr Hid. apply (Hst r Hr Hid).
Qed.

End JobRows.

(** ** The store properties at sample data *)

(** The statement of X5 at the first content stored in an empty table. *)
Lemma create_content_appends_one_row_witness :
  let r := Store.CreateContent ContentService.toyDigest 5 Store.oneSourceDB
             (Store.rawContent 1 (GoString.runes "t") (GoString.runes "hi")) in
  StoreMore.hashesUnique (snd r) /\ StoreMore.idsFromSequence (snd r)
  /\ fst (fst r) = None.
Proof.
  intros r. unfold r.
  pose proof (create_content_appends_one_row ContentService.toyDigest 5
                Store.oneSourceDB
                (Store.rawContent 1 (GoString.runes "t")
                   (GoString.runes "hi"))) as H.
  destruct (Store.CreateContent _ _ _ _) as [[err c'] d'] eqn:E.
  destruct H as (H1 & H2 & _). cbn [fst snd].
  split; [apply H1; constructor|].
  split; [apply H2; split; constructor|].
  vm_compute in E. congruence.
Defined.

(** The statement of X6 at the same content. *)
Lemma created_content_is_found_witness :
  let c := Store.rawContent 1 (GoString.runes "t") (GoString.runes "hi") in
  let r := Store.CreateContent ContentService.toyDigest 5 Store.oneSourceDB c in
  exists row,
    StoreMore.GetContent (snd r) 1 = (inl row, snd r)
    /\ Store.Body row = GoString.runes "hi".
Proof.
  intros c r.
  destruct (created_content_is_found ContentService.toyDigest 5
              Store.oneSourceDB (snd r) c (snd (fst r)))
    as (row & Hg & _ & _ & Hb & _).
  - reflexivity.
  - split; constructor.
  - reflexivity.
  - exists row. split; [exact Hg|exact Hb].
Defined.

(** The statement of X7 at the second sample row, given a new body. *)
Lemma update_content_rewrites_one_row_witness :
  let c := Store.newContent 1 (GoString.runes "a") (GoString.runes "new")
             (GoString.runes "text/plain") in
  let c2 := Store.set_returning c 2 0 0 in
  let r := StoreMore.UpdateContent ContentService.toyDigest 9 Store.twoRowDB
             c2 in
  fst (fst r) = None
  /\ forall row, In row (Store.content (snd r)) -> Store.ID row = 2 ->
       Store.Body row = GoString.runes "new".
Proof.
  intros c c2 r. unfold r.
  pose proof (update_content_rewrites_one_row ContentService.toyDigest 9
                Store.twoRowDB c2 eq_refl) as H.
  destruct (StoreMore.UpdateContent _ _ _ _) as [[err c'] d'] eqn:E.
  destruct H as (_ & H). cbn [fst snd].
  assert (He : err = None) by (vm_compute in E; congruence).
  subst err. split; [reflexivity|].
  destruct H as (_ & _ & H & _). intros row Hr Hid.
  apply (H row Hr Hid).
Defined.


(** The statement of X9 at the sample tables, with a connection that fails
    at the third statement. *)
Lemma delete_content_is_not_atomic_witness :
  let s := (Store.with_faults (fst StoreMore.taggedDB)
              [None; None; Some GoErrors.ErrCtx], snd StoreMore.taggedDB) in
  let r := StoreMore.DeleteContent s 1 in
  Store.content (fst (snd r)) = [Store.rowB; Store.rowA]
  /\ Store.content_tags (fst (snd r)) = [(2, 7)]
  /\ fst r <> None.
Proof.
  intros s r. unfold r.
  pose proof (delete_content_is_not_atomic s 1 GoErrors.ErrCtx [] eq_refl)
    as H.
  destruct (StoreMore.DeleteContent _ _) as [err s'] eqn:E.
  destruct H as (H1 & H2 & H3 & _). cbn [fst snd].
  rewrite H1, H2, H3. repeat split. discriminate.
Defined.

(** The statement of X10 at the sample rows, marking the second one. *)
Lemma update_embedding_status_marks_row_witness :
  let r := StoreMore.UpdateContentEmbeddingStatus 9 Store.twoRowDB 2
             (GoString.runes "e1") true in
  fst r = None
  /\ map Store.Body (Store.content (snd r))
     = [GoString.runes "first"; GoString.runes "second"]
  /\ In Store.rowB (Store.content (snd r)).
Proof.
  intros r. unfold r.
  pose proof (update_embedding_status_marks_row 9 Store.twoRowDB 2
                (GoString.runes "e1") true eq_refl) as H.
  destruct (StoreMore.UpdateContentEmbeddingStatus _ _ _ _ _)
    as [err d'] eqn:E.
  destruct H as (_ & H2 & _ & H4 & _ & H6 & _). cbn [fst snd].
  split; [apply H6; exists Store.rowA; split; [right; left|]; reflexivity|].
  split; [rewrite H2; reflexivity|].
  apply H4; [left; reflexivity|discriminate].
Defined.

(** The statement of X11 at the sample job and an empty table. *)
Lemma record_job_enqueue_only_appends_witness :
  let r := Store.RecordJobEnqueue 3 Store.oneSourceDB StoreMore.sampleJob in
  StoreMore.jobIDsUnique (snd r).
Proof.
  intros r. unfold r.
  pose proof (record_job_enqueue_only_appends 3 Store.oneSourceDB
                StoreMore.sampleJob) as H.
  destruct (Store.RecordJobEnqueue _ _ _) as [err d'].
  destruct H as (H & _). apply H. constructor.
Defined.

(** The statement of X12 at an empty table: the job is not found. *)
Lemma update_job_status_marks_row_witness :
  exists e,
    fst (StoreMore.UpdateJobStatus 4 Store.oneSourceDB (GoString.runes "6f1c")
           (GoString.runes "completed")) = Some e
    /\ GoErrors.Is e GoErrors.ErrNotFound = true.
Proof.
  pose proof (update_job_status_marks_row 4 Store.oneSourceDB
                (GoString.runes "6f1c") (GoString.runes "completed") eq_refl)
    as H.
  destruct (StoreMore.UpdateJobStatus _ _ _ _) as [err d'].
  destruct H as (_ & _ & _ & _ & H). apply H. reflexivity.
Defined.

(** The statement of X13 at the sample job. *)
Lemma recorded_job_can_be_updated_witness :
  exists d1 d2,
    Store.RecordJobEnqueue 3 Store.oneSourceDB StoreMore.sampleJob = (None, d1)
    /\ StoreMore.UpdateJobStatus 4 d1 (GoString.runes "6f1c")
         (GoString.runes "completed") = (None, d2)
    /\ Store.jobRows d2 (GoString.runes "6f1c") = 1%nat.
Proof.
  destruct (recorded_job_can_be_updated 3 4 Store.oneSourceDB
              StoreMore.sampleJob (GoString.runes "completed") eq_refl eq_refl)
    as (d1 & d2 & H1 & H2 & H3 & _).
  exists d1, d2. repeat split; assumption.
Defined.
(** ** The word windows of [simpleChunkText] and [getOverlap] *)

Section SimpleChunks.
Import GoString Words Store Chunking ChunkingMore.

Lemma simpleChunkLoop_lookup (fuel : nat) (words : list gostring)
  (maxTokens overlap : Z) (parserType : gostring) (k i : nat) :
  (len words - Z.of_nat k * stride maxTokens overlap <= Z.of_nat fuel) ->
  simpleChunkLoop fuel words maxTokens overlap parserType
    (Z.of_nat k * stride maxTokens overlap) (Z.of_nat k) !! i
  = if Z.of_nat (k + i) * stride maxTokens overlap <? len words
    then Some (window words maxTokens overlap parserType (k + i))
    else None.
Proof.
  revert k i. induction fuel as [|fuel IH]; intros k i Hfuel.
  - cbn [simpleChunkLoop]. rewrite lookup_nil.
    destruct (Z.ltb_spec (Z.of_nat (k + i) * stride maxTokens overlap)
                (len words)) as [H|H]; [|reflexivity].
    unfold stride in *. nia.
  - cbn [simpleChunkLoop].
    set (st := stride maxTokens overlap) in *.
    assert (Hst : 1 <= st) by (unfold st, stride; lia).
    destruct (Z.ltb_spec (Z.of_nat k * st) (len words)) as [Hlt|Hge].
    + destruct i as [|i].
      * cbn [lookup list_lookup]. rewrite Nat.add_0_r.
        destruct (Z.ltb_spec (Z.of_nat k * st) (len words)); [|lia].
        f_equal. unfold window. fold st. f_equal. f_equal. f_equal.
        unfold width.
        destruct (Z.gtb_spec (Z.of_nat k * st + maxTokens) (len words));
          [destruct (Z.leb_spec (len words) (Z.of_nat k * st))
          |destruct (Z.leb_spec (Z.of_nat k * st + maxTokens)
                       (Z.of_nat k * st))]; lia.
      * cbn [lookup list_lookup].
        replace (if Z.of_nat k * st + maxTokens - overlap <=? Z.of_nat k * st
                 then Z.of_nat k * st + 1
                 else Z.of_nat k * st + maxTokens - overlap)
          with (Z.of_nat (S k) * st).
        2:{ unfold st, stride.
            destruct (Z.leb_spec (Z.of_nat k * Z.max (maxTokens - overlap) 1
                                  + maxTokens - overlap)
                        (Z.of_nat k * Z.max (maxTokens - overlap) 1)); nia. }
        replace (Z.of_nat k + 1) with (Z.of_nat (S k)) by lia.
        etransitivity; [apply (IH (S k) i); nia|].
        replace (S k + i)%nat with (k + S i)%nat by lia. reflexivity.
    + rewrite lookup_nil.
      destruct (Z.ltb_spec (Z.of_nat (k + i) * st) (len words)) as [H|H];
        [nia|reflexivity].
Qed.

Lemma simpleChunkText_lookup (text : gostring) (maxTokens overlap : Z)
  (parserType : gostring) (i : nat) :
  simpleChunkText text maxTokens overlap parserType !! i
  = if Z.of_nat i * stride maxTokens overlap <? len (Fields text)
    then Some (window (Fields text) maxTokens overlap parserType i)
    else None.
Proof.
  unfold simpleChunkText.
  pose proof (simpleChunkLoop_lookup (length (Fields text)) (Fields text)
                maxTokens overlap parserType 0 i) as H.
  cbn [Z.of_nat Z.mul Nat.add] in H. apply H. unfold len. lia.
Qed.

Lemma slice_lookup {A : Type} (l : list A) (a b k : nat) :
  (a + k < b)%nat -> slice l a b !! k = l !! (a + k)%nat.
Proof.
  intros H. unfold slice. rewrite lookup_take_lt by lia. apply lookup_drop.
Qed.

Lemma slice_length {A : Type} (l : list A) (a b : nat) :
  (b <= length l)%nat -> length (slice l a b) = (b - a)%nat.
Proof.
  intros H. unfold slice. rewrite length_take, length_drop. lia.
Qed.

Lemma slice_words (ws : list gostring) (a b : nat) :
  List.Forall word ws -> List.Forall word (slice ws a b).
Proof.
  intros H. unfold slice. apply Forall_take, Forall_drop. exact H.
Qed.

(** The words of a window are the words of the text from its start. *)
Lemma window_words (text : gostring) (maxTokens overlap : Z)
  (parserType : gostring) (i : nat) :
  Fields (Text (window (Fields text) maxTokens overlap parserType i))
  = slice (Fields text)
      (Z.to_nat (Z.of_nat i * stride maxTokens overlap))
      (Z.to_nat (Z.min (Z.of_nat i * stride maxTokens overlap
                        + width maxTokens) (len (Fields text)))).
Proof.
  unfold window. cbn [Text]. apply Fields_Join, slice_words, Fields_words.
Qed.

Lemma simple_chunks_cover (text : gostring) (maxTokens overlap : Z)
  (parserType : gostring) :
  1 <= maxTokens -> 0 <= overlap ->
  let chunks := simpleChunkText text maxTokens overlap parserType in
  (forall c, In c chunks -> 1 <= estimateTokens (Text c) <= maxTokens)
  /\ (forall (j : nat) (w : gostring),
        Fields text !! j = Some w ->
        exists (i k : nat) (c : Chunk),
          chunks !! i = Some c
          /\ Fields (Text c) !! k = Some w
          /\ Z.of_nat j = Z.of_nat i * stride maxTokens overlap + Z.of_nat k).
Proof.
  intros Hm Ho chunks. unfold chunks; clear chunks.
  set (st := stride maxTokens overlap).
  assert (Hst : 1 <= st <= maxTokens) by (unfold st, stride; lia).
  assert (Hw : width maxTokens = maxTokens) by (unfold width; lia).
  split.
  - intros c Hc. apply list_elem_of_In, list_elem_of_lookup_1 in Hc as [i Hi].
    rewrite simpleChunkText_lookup in Hi. fold st in Hi.
    destruct (Z.ltb_spec (Z.of_nat i * st) (len (Fields text))) as [Hlt|];
      [|discriminate].
    injection Hi as <-. unfold estimateTokens.
    rewrite window_words. fold st. rewrite Hw. unfold len in *.
    rewrite slice_length by lia. lia.
  - intros j w Hj.
    pose proof (lookup_lt_Some _ _ _ Hj) as Hlen.
    set (i := Z.to_nat (Z.of_nat j / st)).
    set (k := Z.to_nat (Z.of_nat j mod st)).
    pose proof (Z.div_mod (Z.of_nat j) st ltac:(lia)) as Hdm.
    pose proof (Z.mod_pos_bound (Z.of_nat j) st ltac:(lia)) as Hmod.
    assert (Hdiv : 0 <= Z.of_nat j / st) by (apply Z.div_pos; lia).
    assert (Hi : Z.of_nat i = Z.of_nat j / st) by (unfold i; lia).
    assert (Hk : Z.of_nat k = Z.of_nat j mod st) by (unfold k; lia).
    exists i, k, (window (Fields text) maxTokens overlap parserType i).
    split; [|split].
    + rewrite simpleChunkText_lookup. fold st.
      destruct (Z.ltb_spec (Z.of_nat i * st) (len (Fields text)));
        [reflexivity|]. unfold len in *. nia.
    + rewrite window_words. fold st. rewrite Hw. unfold len.
      rewrite slice_lookup by nia. rewrite <- Hj. f_equal. nia.
    + nia.
Qed.

(** X16.  The words of what [getOverlap] returns are the last [overlap]
    words of the text, all of its words when it has no more than [overlap],
    and none when [overlap] is not positive. *)
Theorem get_overlap_is_the_last_words :
  forall (text : gostring) (overlap : Z),
    Fields (getOverlap text overlap)
    = if overlap <=? 0 then []
      else drop (Z.to_nat (len (Fields text) - overlap)) (Fields text).
Proof.
  intros text overlap.
  unfold getOverlap.
  destruct (Z.leb_spec overlap 0) as [Ho|Ho]; cbn [orb]; [reflexivity|].
  destruct (eqb (TrimSpace text) []) eqn:E.
  - apply gostring_eqb_eq in E. apply TrimSpace_nil_iff in E.
    rewrite E. rewrite drop_nil. reflexivity.
  - rewrite Fields_TrimSpace.
    destruct (Z.leb_spec (len (Fields text)) overlap) as [Hl|Hl].
    + rewrite Fields_TrimSpace.
      replace (Z.to_nat (len (Fields text) - overlap)) with O by lia.
      reflexivity.
    + apply Fields_Join. apply Forall_drop, Fields_words.
Qed.


(** X15.  With [maxTokens >= 1] and [overlap >= 0], every chunk of
    [simpleChunkText] has at least one word and at most [maxTokens], and no
    word of the text is lost: word number [j] of the text is word number [k]
    of chunk number [i] for some [i] and [k] with [j = i * stride + k]. *)
Theorem simple_chunk_text_keeps_every_word :
  forall (text : gostring) (maxTokens overlap : Z) (parserType : gostring),
    1 <= maxTokens -> 0 <= overlap ->
    let chunks := simpleChunkText text maxTokens overlap parserType in
    (forall c, In c chunks -> 1 <= estimateTokens (Text c) <= maxTokens)
    /\ (forall (j : nat) (w : gostring),
          Fields text !! j = Some w ->
          exists (i k : nat) (c : Chunk),
            chunks !! i = Some c
            /\ Fields (Text c) !! k = Some w
            /\ Z.of_nat j
               = Z.of_nat i * stride maxTokens overlap + Z.of_nat k).
Proof. exact simple_chunks_cover. Qed.

End SimpleChunks.

(** ** The labels of the chunks *)

Section Numbering.
Import GoString Words Store Chunking ChunkingMore.

Variable tokenizer : option (gostring -> list gostring).

Lemma inStep_nil : inStep 0 [].
Proof. split; [reflexivity|]. intros i c H. rewrite lookup_nil in H. discriminate. Qed.

Lemma inStep_snoc (meta : Z -> bool -> gmap string value) (idx : Z)
  (chunks : list Chunk) (t : gostring) (w : bool) :
  indexing meta -> inStep idx chunks ->
  inStep (idx + 1) (chunks ++ [{| Text := t; Metadata := meta idx w |}]).
Proof.
  intros Hm [Hi Hn]. split.
  - unfold len in *. rewrite length_app. cbn. lia.
  - intros i c H. apply lookup_app_Some in H as [H|[Hge H]].
    + apply Hn. exact H.
    + destruct (i - length chunks)%nat as [|k] eqn:E; [|destruct k; discriminate].
      injection H as <-. cbn [Metadata]. rewrite Hm. do 2 f_equal.
      unfold len in Hi. lia.
Qed.

Lemma assemble_inStep (meta : Z -> bool -> gmap string value)
  (maxTokens overlap : Z) (pieces : list gostring) (a : assembly) :
  indexing meta ->
  inStep (chunkIndex a) (finalChunks a) ->
  inStep (chunkIndex (assemble tokenizer meta maxTokens overlap pieces a))
         (finalChunks (assemble tokenizer meta maxTokens overlap pieces a)).
Proof.
  intros Hm. revert a. induction pieces as [|piece rest IH]; intros a Ha;
    [exact Ha|].
  cbn [assemble]. apply IH; clear IH.
  destruct ((currentTokens a >? 0) && _);
    [destruct ((_ >? maxTokens) && _)|];
    (destruct rest as [|p rest'];
     [destruct (negb (eqb (TrimSpace _) []))|]);
    cbn [chunkIndex finalChunks]; repeat (apply inStep_snoc; [exact Hm|]);
    exact Ha.
Qed.

Lemma fallbackMeta_indexing : indexing fallbackMeta.
Proof.
  intros i [|]; unfold fallbackMeta.
  - rewrite lookup_insert_ne by discriminate. apply lookup_singleton_eq.
  - apply lookup_singleton_eq.
Qed.

Lemma markdownMeta_indexing (heading : gostring) :
  indexing (markdownMeta heading).
Proof.
  intros i [|]; unfold markdownMeta;
    rewrite ?lookup_insert_ne by discriminate; apply lookup_singleton_eq.
Qed.

Lemma FallbackChunker_numbered (content : Content) (maxTokens overlap : Z) :
  numbered (FallbackChunker_Chunk tokenizer content maxTokens overlap).
Proof.
  unfold FallbackChunker_Chunk.
  destruct (eqb (TrimSpace (Body content)) []); [apply inStep_nil|].
  destruct (applyDefaults maxTokens overlap) as [m o].
  destruct (intermediateChunks m (TrimSpace (Body content))) as [|p ps];
    [apply inStep_nil|].
  apply (assemble_inStep fallbackMeta m o (p :: ps));
    [apply fallbackMeta_indexing|apply inStep_nil].
Qed.

Lemma processSection_inStep (maxTokens overlap : Z)
  (sectionText heading : gostring) (st : Z * list Chunk) :
  inStep (fst st) (snd st) ->
  inStep (fst (processSection tokenizer maxTokens overlap sectionText
                 heading st))
         (snd (processSection tokenizer maxTokens overlap sectionText
                 heading st)).
Proof.
  intros H. unfold processSection.
  destruct (eqb (TrimSpace sectionText) []); [exact H|]. cbn [fst snd].
  apply assemble_inStep; [apply markdownMeta_indexing|exact H].
Qed.

Lemma processSections_inStep (maxTokens overlap : Z) (text : gostring)
  (ms : list (nat * nat * nat * nat)) (st : Z * list Chunk) :
  inStep (fst st) (snd st) ->
  inStep (fst (processSections tokenizer maxTokens overlap text ms st))
         (snd (processSections tokenizer maxTokens overlap text ms st)).
Proof.
  revert st. induction ms as [|[[[m0 m1] g0] g1] rest IH]; intros st H;
    [exact H|].
  cbn [processSections]. apply IH, processSection_inStep, H.
Qed.

Lemma MarkdownChunker_numbered (content : Content) (maxTokens overlap : Z) :
  numbered (MarkdownChunker_Chunk tokenizer content maxTokens overlap).
Proof.
  unfold MarkdownChunker_Chunk.
  destruct (eqb (TrimSpace (Body content)) []); [apply inStep_nil|].
  destruct (applyDefaults maxTokens overlap) as [m o].
  destruct (findAll 0 true 0 (TrimSpace (Body content)))
    as [|[[[m0 m1] g0] g1] rest].
  - apply (processSection_inStep m o _ _ (0, [])), inStep_nil.
  - apply processSections_inStep.
    apply (processSection_inStep m o _ _ (0, [])), inStep_nil.
Qed.

Lemma simpleChunkText_numbered (text : gostring) (maxTokens overlap : Z)
  (parserType : gostring) :
  numbered (simpleChunkText text maxTokens overlap parserType).
Proof.
  intros i c H. rewrite simpleChunkText_lookup in H.
  destruct (_ <? _); [|discriminate]. injection H as <-.
  unfold window. cbn [Metadata]. apply lookup_insert_eq.
Qed.

Lemma htmlChunker_numbered (Parse : gostring -> Node + GoErrors.error)
  (content : Content) (maxTokens overlap : Z) :
  numbered (htmlChunker_Chunk Parse content maxTokens overlap).
Proof.
  destruct (eqb (TrimSpace (Body content)) []) eqn:E.
  - unfold htmlChunker_Chunk. rewrite E. apply inStep_nil.
  - rewrite htmlChunker_Chunk_falls_back by exact E.
    apply simpleChunkText_numbered.
Qed.

Lemma stamp_lookup (parser : gostring) (chunks : list Chunk) (i : nat)
  (c : Chunk) :
  numbered chunks ->
  stamp parser chunks !! i = Some c ->
  Metadata c !! "chunk_index"%string = Some (VInt (Z.of_nat i))
  /\ Metadata c !! "total_chunks"%string
     = Some (VInt (len (stamp parser chunks)))
  /\ Metadata c !! "parser"%string = Some (VStr parser).
Proof.
  intros Hn H. unfold stamp in *.
  change (@map Chunk Chunk) with (@fmap list _ Chunk Chunk) in *.
  apply list_lookup_fmap_Some in H as (c0 & -> & H0).
  cbn [Metadata]. split; [|split].
  - rewrite !lookup_insert_ne by discriminate. apply Hn. exact H0.
  - rewrite lookup_insert_eq. unfold len. rewrite length_fmap. reflexivity.
  - rewrite lookup_insert_ne by discriminate. apply lookup_insert_eq.
Qed.

(** X17.  Whatever the content, its metadata and the parameters are, the
    chunks that [ContentAwareChunk] returns are numbered from 0 in
    [chunk_index], all carry the number of chunks in [total_chunks], and all
    carry the same [parser], which is [markdown], [html] or [fallback]. *)
Theorem content_aware_chunks_are_labelled :
  forall (Parse : gostring -> Node + GoErrors.error)
         (chunkerOverride : gostring -> option gostring)
         (content : Content) (maxTokens overlap : Z),
  let chunks := ContentAwareChunk tokenizer Parse chunkerOverride content
                  maxTokens overlap in
  exists parser,
    In parser parserNames
    /\ forall (i : nat) (c : Chunk),
         chunks !! i = Some c ->
         Metadata c !! "chunk_index"%string = Some (VInt (Z.of_nat i))
         /\ Metadata c !! "total_chunks"%string = Some (VInt (len chunks))
         /\ Metadata c !! "parser"%string = Some (VStr parser).
Proof.
  intros Parse chunkerOverride content maxTokens overlap chunks.
  unfold chunks, ContentAwareChunk; clear chunks.
  match goal with
  | |- context [eqb ?t (runes "markdown")] => generalize t
  end.
  intros t. destruct (eqb t (runes "markdown")).
  - exists (runes "markdown"). split; [left; reflexivity|].
    intros i c. apply stamp_lookup, MarkdownChunker_numbered.
  - destruct (eqb t (runes "html")).
    + exists (runes "html"). split; [right; left; reflexivity|].
      intros i c. apply stamp_lookup, htmlChunker_numbered.
    + exists (runes "fallback"). split; [right; right; left; reflexivity|].
      intros i c. apply stamp_lookup, FallbackChunker_numbered.
Qed.

End Numbering.

(** ** The token limit *)

Section TokenLimit.
Import GoString Words Store Chunking ChunkingMore.

Variable tokenizer : option (gostring -> list gostring).
Hypothesis tokenizer_faithful : faithful tokenizer.

Lemma fieldsAux_app_space (cur a b : gostring) (sp : rune) :
  isSpace sp = true ->
  fieldsAux cur (a ++ sp :: b) = fieldsAux cur a ++ Fields b.
Proof.
  intros Hsp. revert cur. induction a as [|r a IH]; intros cur; cbn.
  - rewrite Hsp. destruct cur; reflexivity.
  - destruct (isSpace r); [destruct cur|]; rewrite IH; reflexivity.
Qed.

Lemma Fields_app_space (a b : gostring) (sp : rune) :
  isSpace sp = true -> Fields (a ++ sp :: b) = Fields a ++ Fields b.
Proof. apply fieldsAux_app_space. Qed.

Lemma Fields_snoc_space (a : gostring) (sp : rune) :
  isSpace sp = true -> Fields (a ++ [sp]) = Fields a.
Proof.
  intros H. rewrite (Fields_app_space a [] sp H). apply app_nil_r.
Qed.

Lemma HasSuffix_space (a : gostring) :
  HasSuffix a (runes " ") = true -> exists a', a = a' ++ [32].
Proof.
  unfold HasSuffix. change (rev (runes " ")) with [32].
  destruct (rev a) as [|x s] eqn:E; cbn; [discriminate|].
  intros H. apply andb_true_iff in H as [H _]. apply Z.eqb_eq in H.
  subst x. exists (rev s). rewrite <- (rev_involutive a), E. reflexivity.
Qed.

Lemma estimateTokens_nonneg (s : gostring) : 0 <= estimateTokens s.
Proof. unfold estimateTokens, len. lia. Qed.

(** Adding a piece to the chunk being built adds its tokens. *)
Lemma add_piece_tokens (cc piece : gostring) :
  estimateTokens
    (cc ++ (if negb (eqb cc []) && negb (HasSuffix cc (runes " "))
            then runes " " else []) ++ piece)
  = estimateTokens cc + estimateTokens piece.
Proof.
  unfold estimateTokens, len.
  destruct (eqb cc []) eqn:E; cbn [negb andb].
  - apply gostring_eqb_eq in E. subst cc. cbn [app]. cbn. lia.
  - destruct (HasSuffix cc (runes " ")) eqn:S; cbn [negb].
    + apply HasSuffix_space in S as [a' ->]. cbn [app].
      rewrite <- app_assoc. cbn [app].
      pose proof (Fields_app_space a' piece 32 eq_refl) as H1.
      pose proof (Fields_snoc_space a' 32 eq_refl) as H2.
      unfold gostring, rune in *. rewrite H1, H2, length_app. lia.
    + change (runes " ") with [32]. cbn [app].
      rewrite (Fields_app_space cc piece 32 eq_refl).
      rewrite length_app. lia.
Qed.

Lemma Join_cons_tokens (x : gostring) (l : list gostring) :
  estimateTokens (Join (x :: l) (runes " "))
  = estimateTokens x + estimateTokens (Join l (runes " ")).
Proof.
  unfold estimateTokens, len. destruct l as [|y l].
  - cbn [Join]. change (Fields []) with (@nil gostring). cbn [length]. lia.
  - change (Join (x :: y :: l) (runes " "))
      with (x ++ 32 :: Join (y :: l) (runes " ")).
    rewrite (Fields_app_space x _ 32 eq_refl), length_app. lia.
Qed.

Lemma pickSentences_tokens (o B : Z) (revSents os : list gostring) (acc : Z) :
  acc = estimateTokens (Join os (runes " ")) -> acc <= o ->
  (forall s, In s revSents -> estimateTokens s <= B) ->
  estimateTokens (Join (pickSentences o revSents os acc) (runes " "))
  <= Z.max o B.
Proof.
  revert os acc. induction revSents as [|s rest IH]; intros os acc Ha Ho HB;
    cbn [pickSentences].
  - lia.
  - assert (HB' : forall s, In s rest -> estimateTokens s <= B)
      by (intros x Hx; apply HB; right; exact Hx).
    destruct (eqb (TrimSpace s) []); [apply IH; assumption|].
    assert (Hs : estimateTokens (TrimSpace s) <= B).
    { unfold estimateTokens. rewrite Fields_TrimSpace. apply HB. left.
      reflexivity. }
    destruct (Z.leb_spec (acc + estimateTokens (TrimSpace s)) o) as [Hle|Hgt].
    + apply IH; [|exact Hle|exact HB'].
      rewrite Join_cons_tokens. lia.
    + destruct os as [|x os']; [cbn [Join]; lia|]. rewrite <- Ha. lia.
Qed.

(** The overlap taken from a text has at most [overlapTokens] tokens, or at
    most those of the text. *)
Lemma calculateSentenceOverlap_tokens (text : gostring) (overlapTokens : Z) :
  estimateTokens (calculateSentenceOverlap tokenizer text overlapTokens)
  <= Z.max overlapTokens (estimateTokens text).
Proof.
  pose proof (estimateTokens_nonneg text) as Hn.
  unfold calculateSentenceOverlap.
  destruct ((overlapTokens <=? 0) || eqb text []) eqn:E; [change (estimateTokens []) with 0; lia|].
  apply orb_false_iff in E as [Ho _]. apply Z.leb_gt in Ho.
  destruct tokenizer as [tokenize|].
  - destruct (tokenize text) as [|s0 sents] eqn:ET; [change (estimateTokens []) with 0; lia|].
    pose proof (pickSentences_tokens overlapTokens (estimateTokens text)
                  (rev (s0 :: sents)) [] 0 eq_refl ltac:(lia)) as HP.
    destruct (pickSentences overlapTokens (rev (s0 :: sents)) [] 0)
      as [|x l]; [change (estimateTokens []) with 0; lia|].
    change (runes " ") with [32] in *. unfold estimateTokens at 1.
    rewrite (Fields_snoc_space _ 32 eq_refl). apply HP.
    intros s Hs. apply in_rev in Hs. apply (tokenizer_faithful text).
    rewrite ET. exact Hs.
  - fold (estimateTokens text).
    set (n := estimateTokens text) in *.
    set (o' := if overlapTokens >? n then n else overlapTokens).
    assert (Ho' : o' <= overlapTokens /\ o' <= n)
      by (unfold o'; destruct (Z.gtb_spec overlapTokens n); lia).
    destruct ((n =? 0) || (o' <=? 0)) eqn:E2; [change (estimateTokens []) with 0; lia|].
    apply orb_false_iff in E2 as [_ E2]. apply Z.leb_gt in E2.
    change (runes " ") with [32]. unfold estimateTokens at 1.
    rewrite (Fields_snoc_space _ 32 eq_refl).
    change [32] with (runes " ").
    rewrite Fields_Join by (apply Forall_drop, Fields_words).
    unfold len. rewrite length_drop. unfold n, estimateTokens, len in *. lia.
Qed.

Lemma nonblank_tokens (s : gostring) :
  eqb (TrimSpace s) [] = false -> 1 <= estimateTokens (TrimSpace s).
Proof.
  intros E. apply gostring_eqb_neq in E.
  unfold estimateTokens, len. rewrite Fields_TrimSpace.
  destruct (Fields s) eqn:F; [|cbn; lia].
  exfalso. apply E. apply TrimSpace_nil_iff. exact F.
Qed.

Lemma wordChunks_withinLimit (fuel : nat) (maxTokens : Z)
  (words : list gostring) (p : gostring) :
  1 <= maxTokens -> Forall word words ->
  In p (wordChunks fuel maxTokens words) -> withinLimit maxTokens p.
Proof.
  intros Hm. revert words. induction fuel as [|fuel IH]; intros words Hw;
    cbn [wordChunks]; [intros []|].
  destruct words as [|w ws]; [intros []|].
  set (n := Z.to_nat (Z.min maxTokens (len (w :: ws)))).
  intros [<-|Hp].
  - unfold withinLimit, estimateTokens.
    rewrite Fields_Join by (apply Forall_take; exact Hw).
    unfold len in *. rewrite length_take. cbn [length] in *. lia.
  - apply (IH (drop n (w :: ws))); [apply Forall_drop; exact Hw|exact Hp].
Qed.

Lemma linePieces_withinLimit (maxTokens : Z) (line p : gostring) :
  1 <= maxTokens ->
  In p (linePieces maxTokens line) -> withinLimit maxTokens p.
Proof.
  intros Hm. unfold linePieces.
  destruct (eqb (TrimSpace line) []) eqn:E; [intros []|].
  destruct (Z.leb_spec (estimateTokens (TrimSpace line)) maxTokens).
  - intros [<-|[]]. split; [apply nonblank_tokens; exact E|assumption].
  - apply wordChunks_withinLimit; [exact Hm|apply Fields_words].
Qed.

Lemma paragraphPieces_withinLimit (maxTokens : Z) (para p : gostring) :
  1 <= maxTokens ->
  In p (paragraphPieces maxTokens para) -> withinLimit maxTokens p.
Proof.
  intros Hm. unfold paragraphPieces.
  destruct (eqb (TrimSpace para) []) eqn:E; [intros []|].
  destruct (Z.leb_spec (estimateTokens (TrimSpace para)) maxTokens).
  - intros [<-|[]]. split; [apply nonblank_tokens; exact E|assumption].
  - intros HI. apply in_flat_map in HI as (line & _ & HI).
    apply (linePieces_withinLimit maxTokens line); assumption.
Qed.

Lemma intermediateChunks_withinLimit (maxTokens : Z) (text p : gostring) :
  1 <= maxTokens ->
  In p (intermediateChunks maxTokens text) -> withinLimit maxTokens p.
Proof.
  intros Hm H. apply in_flat_map in H as (para & _ & H).
  apply (paragraphPieces_withinLimit maxTokens para); assumption.
Qed.

Lemma Forall_snoc_chunk (maxTokens : Z) (chunks : list Chunk) (t : gostring)
  (md : gmap string value) :
  Forall (fun c => withinLimit maxTokens (Text c)) chunks ->
  withinLimit maxTokens t ->
  Forall (fun c => withinLimit maxTokens (Text c))
         (chunks ++ [{| Text := t; Metadata := md |}]).
Proof.
  intros H Ht. apply Forall_app. split; [exact H|].
  constructor; [exact Ht|constructor].
Qed.

Lemma assemble_steady (meta : Z -> bool -> gmap string value)
  (maxTokens overlap : Z) (pieces : list gostring) (a : assembly) :
  1 <= maxTokens -> overlap <= maxTokens ->
  (forall p, In p pieces -> withinLimit maxTokens p) ->
  steady maxTokens a ->
  steady maxTokens (assemble tokenizer meta maxTokens overlap pieces a).
Proof.
  intros Hm Ho. revert a. induction pieces as [|piece rest IH];
    intros a Hp Ha; [exact Ha|].
  cbn [assemble]. apply IH; [intros p H; apply Hp; right; exact H|]. clear IH.
  assert (Hpiece : withinLimit maxTokens piece) by (apply Hp; left; reflexivity).
  clear Hp. destruct Hpiece as [Hp1 Hp2].
  match goal with
  | |- context [HasSuffix (currentChunk ?x) _] => set (a1 := x)
  end.
  assert (H1 : steady maxTokens a1
               /\ currentTokens a1 + estimateTokens piece <= maxTokens
               /\ 0 <= currentTokens a1).
  { destruct Ha as (Hc & Hle & Hf). unfold a1; clear a1.
    pose proof (estimateTokens_nonneg (currentChunk a)) as Hnn.
    destruct (Z.gtb_spec (currentTokens a) 0) as [Hpos|Hz]; cbn [andb].
    2:{ split; [repeat split; assumption|]. lia. }
    destruct (Z.gtb_spec (currentTokens a + estimateTokens piece) maxTokens)
      as [Hex|Hfit].
    2:{ split; [repeat split; assumption|]. lia. }
    set (ov := calculateSentenceOverlap tokenizer (TrimSpace (currentChunk a))
                 overlap).
    pose proof (calculateSentenceOverlap_tokens
                  (TrimSpace (currentChunk a)) overlap) as Hov.
    fold ov in Hov.
    pose proof (estimateTokens_nonneg ov) as Hov0.
    assert (Hfin : withinLimit maxTokens (TrimSpace (currentChunk a))).
    { unfold withinLimit, estimateTokens. rewrite Fields_TrimSpace.
      fold (estimateTokens (currentChunk a)). lia. }
    assert (Hovm : estimateTokens ov <= maxTokens).
    { destruct Hfin as [_ Hfin]. lia. }
    destruct (Z.gtb_spec (estimateTokens ov + estimateTokens piece) maxTokens)
      as [Hex2|Hfit2]; cbn [andb].
    - destruct (Z.gtb_spec (estimateTokens ov) 0) as [Hp0|Hz0].
      + split; [|cbn [currentTokens]; lia].
        split; [reflexivity|]. split; [cbn [currentTokens]; lia|].
        cbn [finalChunks]. apply Forall_snoc_chunk.
        * apply Forall_snoc_chunk; assumption.
        * unfold withinLimit, estimateTokens. rewrite Fields_TrimSpace.
          fold (estimateTokens ov). lia.
      + split; [|cbn [currentTokens]; lia].
        split; [reflexivity|]. split; [cbn [currentTokens]; lia|].
        cbn [finalChunks]. apply Forall_snoc_chunk; assumption.
    - split; [|cbn [currentTokens]; lia].
      split; [reflexivity|]. split; [cbn [currentTokens]; lia|].
      cbn [finalChunks]. apply Forall_snoc_chunk; assumption. }
  clearbody a1. destruct H1 as ((Hc & Hle & Hf) & Hsum & Hnn).
  pose proof (add_piece_tokens (currentChunk a1) piece) as Hadd.
  assert (Hnew : steady maxTokens
            {| currentChunk := currentChunk a1 ++
                 (if negb (eqb (currentChunk a1) [])
                     && negb (HasSuffix (currentChunk a1) (runes " "))
                  then runes " " else []) ++ piece;
               currentTokens := currentTokens a1 + estimateTokens piece;
               chunkIndex := chunkIndex a1;
               finalChunks := finalChunks a1 |}).
  { split; [cbn [currentTokens currentChunk]; lia|].
    split; [cbn [currentTokens]; lia|exact Hf]. }
  assert (Hlast : withinLimit maxTokens
            (TrimSpace (currentChunk a1 ++
               (if negb (eqb (currentChunk a1) [])
                   && negb (HasSuffix (currentChunk a1) (runes " "))
                then runes " " else []) ++ piece))).
  { unfold withinLimit. unfold estimateTokens at 1 2.
    rewrite Fields_TrimSpace.
    match goal with
    | |- context [Fields ?t] => fold (estimateTokens t)
    end. lia. }
  destruct Hnew as (Hn1 & Hn2 & Hn3).
  destruct rest as [|p rest']; [|split; [exact Hn1|split; [exact Hn2|exact Hn3]]].
  destruct (negb (eqb (TrimSpace _) [])) eqn:E;
    [|split; [exact Hn1|split; [exact Hn2|exact Hn3]]].
  split; [exact Hn1|]. split; [exact Hn2|].
  apply (Forall_snoc_chunk maxTokens (finalChunks a1) _ _ Hf Hlast).
Qed.

Lemma FallbackChunker_withinLimit (content : Content)
  (maxTokens overlap : Z) :
  Forall (fun c => withinLimit (fst (applyDefaults maxTokens overlap))
                     (Text c))
         (FallbackChunker_Chunk tokenizer content maxTokens overlap).
Proof.
  unfold FallbackChunker_Chunk.
  destruct (eqb (TrimSpace (Body content)) []); [constructor|].
  pose proof (applyDefaults_range maxTokens overlap) as [Hm Ho].
  destruct (applyDefaults maxTokens overlap) as [m o]. cbn [fst snd] in *.
  pose proof (intermediateChunks_withinLimit m (TrimSpace (Body content)))
    as Hp.
  destruct (intermediateChunks m (TrimSpace (Body content))) as [|p ps];
    [constructor|].
  apply (assemble_steady fallbackMeta m o (p :: ps)); try lia.
  - intros q Hq. apply Hp; [lia|exact Hq].
  - split; [reflexivity|]. split; [cbn; lia|constructor].
Qed.

Lemma processSection_withinLimit (maxTokens overlap : Z)
  (sectionText heading : gostring) (st : Z * list Chunk) :
  1 <= maxTokens -> overlap <= maxTokens ->
  Forall (fun c => withinLimit maxTokens (Text c)) (snd st) ->
  Forall (fun c => withinLimit maxTokens (Text c))
         (snd (processSection tokenizer maxTokens overlap sectionText
                 heading st)).
Proof.
  intros Hm Ho H. unfold processSection.
  destruct (eqb (TrimSpace sectionText) []); [exact H|]. cbn [snd].
  apply assemble_steady; try assumption.
  - intros q Hq.
    apply (intermediateChunks_withinLimit maxTokens (TrimSpace sectionText));
      assumption.
  - split; [reflexivity|]. split; [cbn; lia|exact H].
Qed.

Lemma processSections_withinLimit (maxTokens overlap : Z) (text : gostring)
  (ms : list (nat * nat * nat * nat)) (st : Z * list Chunk) :
  1 <= maxTokens -> overlap <= maxTokens ->
  Forall (fun c => withinLimit maxTokens (Text c)) (snd st) ->
  Forall (fun c => withinLimit maxTokens (Text c))
         (snd (processSections tokenizer maxTokens overlap text ms st)).
Proof.
  intros Hm Ho. revert st.
  induction ms as [|[[[m0 m1] g0] g1] rest IH]; intros st H; [exact H|].
  cbn [processSections]. apply IH, processSection_withinLimit; assumption.
Qed.

Lemma MarkdownChunker_withinLimit (content : Content)
  (maxTokens overlap : Z) :
  Forall (fun c => withinLimit (fst (applyDefaults maxTokens overlap))
                     (Text c))
         (MarkdownChunker_Chunk tokenizer content maxTokens overlap).
Proof.
  unfold MarkdownChunker_Chunk.
  destruct (eqb (TrimSpace (Body content)) []); [constructor|].
  pose proof (applyDefaults_range maxTokens overlap) as [Hm Ho].
  destruct (applyDefaults maxTokens overlap) as [m o]. cbn [fst snd] in *.
  destruct (findAll 0 true 0 (TrimSpace (Body content)))
    as [|[[[m0 m1] g0] g1] rest].
  - apply processSection_withinLimit; try lia. constructor.
  - apply processSections_withinLimit; try lia.
    apply processSection_withinLimit; try lia. constructor.
Qed.

Lemma htmlChunker_withinLimit (Parse : gostring -> Node + GoErrors.error)
  (content : Content) (maxTokens overlap : Z) :
  Forall (fun c => withinLimit (fst (applyDefaults maxTokens overlap))
                     (Text c))
         (htmlChunker_Chunk Parse content maxTokens overlap).
Proof.
  destruct (eqb (TrimSpace (Body content)) []) eqn:E.
  - unfold htmlChunker_Chunk. rewrite E. constructor.
  - rewrite htmlChunker_Chunk_falls_back by exact E.
    pose proof (applyDefaults_range maxTokens overlap) as [Hm Ho].
    apply List.Forall_forall. intros c Hc.
    destruct (simple_chunks_cover (Body content)
                (fst (applyDefaults maxTokens overlap))
                (snd (applyDefaults maxTokens overlap))
                (runes "html-fallback")) as [HA _]; [lia|lia|].
    apply HA. exact Hc.
Qed.

Lemma stamp_withinLimit (maxTokens : Z) (parser : gostring)
  (chunks : list Chunk) :
  Forall (fun c => withinLimit maxTokens (Text c)) chunks ->
  Forall (fun c => withinLimit maxTokens (Text c)) (stamp parser chunks).
Proof.
  intros H. unfold stamp. apply List.Forall_forall. intros c Hc.
  apply in_map_iff in Hc as (c0 & <- & Hc0). cbn [Text].
  rewrite List.Forall_forall in H. apply H. exact Hc0.
Qed.

Lemma ContentAwareChunk_withinLimit (Parse : gostring -> Node + GoErrors.error)
  (chunkerOverride : gostring -> option gostring) (content : Content)
  (maxTokens overlap : Z) :
  Forall (fun c => withinLimit (fst (applyDefaults maxTokens overlap))
                     (Text c))
         (ContentAwareChunk tokenizer Parse chunkerOverride content
            maxTokens overlap).
Proof.
  unfold ContentAwareChunk.
  match goal with
  | |- context [eqb ?t (runes "markdown")] => generalize t
  end.
  intros t. destruct (eqb t (runes "markdown"));
    [|destruct (eqb t (runes "html"))]; apply stamp_withinLimit.
  - apply MarkdownChunker_withinLimit.
  - apply htmlChunker_withinLimit.
  - apply FallbackChunker_withinLimit.
Qed.

(** X18.  With a sentence tokenizer that invents no words (or none at
    all), every chunk that [FallbackChunker.Chunk], [MarkdownChunker.Chunk],
    [htmlChunker.Chunk] or [ContentAwareChunk] returns has at least one word
    and at most [maxTokens] words, where [maxTokens] is the limit after the
    defaults have been applied; chunks made of overlap alone included. *)
Theorem chunks_respect_token_limit :
  forall (Parse : gostring -> Node + GoErrors.error)
         (chunkerOverride : gostring -> option gostring)
         (chunk : Content -> Z -> Z -> list Chunk) (content : Content)
         (maxTokens overlap : Z) (c : Chunk),
    In chunk (entryPoints tokenizer Parse chunkerOverride) ->
    In c (chunk content maxTokens overlap) ->
    1 <= estimateTokens (Text c) <= fst (applyDefaults maxTokens overlap).
Proof.
  intros Parse chunkerOverride chunk content maxTokens overlap c Hchunk Hc.
  assert (H : Forall (fun c => withinLimit
                                 (fst (applyDefaults maxTokens overlap))
                                 (Text c))
                     (chunk content maxTokens overlap)).
  { destruct Hchunk as [<-|[<-|[<-|[<-|[]]]]].
    - apply FallbackChunker_withinLimit.
    - apply MarkdownChunker_withinLimit.
    - apply htmlChunker_withinLimit.
    - apply ContentAwareChunk_withinLimit. }
  rewrite List.Forall_forall in H. apply (H c Hc).
Qed.

End TokenLimit.

(** ** HTML through the dispatcher *)

Section HTMLContent.
Import GoString Words Store Chunking ChunkingMore.

(** X19.  For a content without metadata whose type mentions [html] and
    not [markdown], [ContentAwareChunk] returns the word windows of the raw
    body, markup included, whatever [html.Parse] makes of it; the mark
    [html-fallback] that [simpleChunkText] leaves under [parser] is
    overwritten with [html]. *)
Theorem html_content_is_chunked_as_raw_words :
  forall (tokenizer : option (gostring -> list gostring))
         (Parse : gostring -> Node + GoErrors.error)
         (chunkerOverride : gostring -> option gostring)
         (content : Content) (maxTokens overlap : Z),
    Store.Metadata content = None ->
    Contains (ToLower (ContentType content)) (runes "markdown") = false ->
    Contains (ToLower (ContentType content)) (runes "html") = true ->
    ContentAwareChunk tokenizer Parse chunkerOverride content maxTokens
      overlap
    = stamp (runes "html")
        (simpleChunkText (Body content)
           (fst (applyDefaults maxTokens overlap))
           (snd (applyDefaults maxTokens overlap)) (runes "html-fallback")).
Proof.
  intros tokenizer Parse chunkerOverride content maxTokens overlap Hm Hmd Hh.
  unfold ContentAwareChunk. rewrite Hm.
  change (eqb (runes "fallback") (runes "fallback")) with true.
  cbv beta iota. rewrite Hmd, Hh.
  change (eqb (runes "html") (runes "markdown")) with false.
  change (eqb (runes "html") (runes "html")) with true.
  cbv beta iota. f_equal.
  destruct (eqb (TrimSpace (Body content)) []) eqn:E.
  - unfold htmlChunker_Chunk. rewrite E.
    apply gostring_eqb_eq, TrimSpace_nil_iff in E.
    unfold simpleChunkText. rewrite E. reflexivity.
  - apply htmlChunker_Chunk_falls_back. exact E.
Qed.

End HTMLContent.

(** The statement of X15 at five words, two per chunk with one shared: the
    last word is the first word of the third chunk. *)
Lemma simple_chunk_text_keeps_every_word_witness :
  exists (i k : nat) (c : Chunking.Chunk),
    Chunking.simpleChunkText (GoString.runes "a b c d e") 3 1
      (GoString.runes "simple") !! i = Some c
    /\ GoString.Fields (Chunking.Text c) !! k = Some (GoString.runes "e")
    /\ 4 = Z.of_nat i * ChunkingMore.stride 3 1 + Z.of_nat k.
Proof.
  destruct (simple_chunk_text_keeps_every_word (GoString.runes "a b c d e")
              3 1 (GoString.runes "simple") ltac:(lia) ltac:(lia))
    as [_ H].
  exact (H 4%nat (GoString.runes "e") eq_refl).
Defined.

(** The statement of X17 at the Markdown example: its first chunk. *)
Lemma content_aware_chunks_are_labelled_witness :
  let chunks := Chunking.ContentAwareChunk None
                  (fun _ => inl Chunking.htmlExampleTree) (fun _ => None)
                  Chunking.markdownExample 0 0 in
  exists c,
    chunks !! 0%nat = Some c
    /\ Chunking.Metadata c !! "chunk_index"%string = Some (Chunking.VInt 0)
    /\ Chunking.Metadata c !! "total_chunks"%string = Some (Chunking.VInt 2)
    /\ Chunking.Metadata c !! "parser"%string
       = Some (Chunking.VStr (GoString.runes "markdown")).
Proof.
  intros chunks.
  destruct (content_aware_chunks_are_labelled None
              (fun _ => inl Chunking.htmlExampleTree) (fun _ => None)
              Chunking.markdownExample 0 0) as (p & _ & H).
  fold chunks in H.
  destruct (chunks !! 0%nat) as [c|] eqn:E; [|vm_compute in E; discriminate E].
  destruct (H 0%nat c E) as (H1 & H2 & H3).
  exists c. split; [reflexivity|]. split; [exact H1|].
  split.
  - rewrite H2. reflexivity.
  - assert (Hp : Chunking.Metadata c !! "parser"%string
                 = Some (Chunking.VStr (GoString.runes "markdown"))).
    { revert E. unfold chunks. vm_compute. intros [= <-]. reflexivity. }
    exact Hp.
Defined.

(** The statement of X18 at the fallback chunker without a tokenizer, on a
    text of three words with the default limit: its one chunk. *)
Lemma chunks_respect_token_limit_witness :
  let chunks := Chunking.FallbackChunker_Chunk None
                  (ChunkingMore.typed (GoString.runes "text/plain")
                     (GoString.runes "one two three")) 0 (-1) in
  map Chunking.Text chunks = [GoString.runes "one two three"]
  /\ Forall (fun c => 1 <= Chunking.estimateTokens (Chunking.Text c) <= 200)
            chunks.
Proof.
  intros chunks. split; [reflexivity|].
  assert (E : exists c, chunks = [c] /\ In c chunks).
  { unfold chunks. vm_compute. eexists. split; [reflexivity|].
    left. reflexivity. }
  destruct E as (c & E & Hc). rewrite E. constructor; [|constructor].
  apply (chunks_respect_token_limit None I
           (fun _ => inl Chunking.htmlExampleTree) (fun _ => None)
           (Chunking.FallbackChunker_Chunk None)
           (ChunkingMore.typed (GoString.runes "text/plain")
              (GoString.runes "one two three")) 0 (-1) c).
  - left. reflexivity.
  - exact Hc.
Defined.

(** The statement of X19 at the HTML example. *)
Lemma html_content_is_chunked_as_raw_words_witness :
  map Chunking.Text
    (Chunking.ContentAwareChunk None (fun _ => inl Chunking.htmlExampleTree)
       (fun _ => None) Chunking.htmlExample 0 (-1))
  = [GoString.runes "<p>Hello</p><script>x()</script>"].
Proof.
  rewrite (html_content_is_chunked_as_raw_words None
             (fun _ => inl Chunking.htmlExampleTree) (fun _ => None)
             Chunking.htmlExample 0 (-1) eq_refl eq_refl eq_refl).
  reflexivity.
Defined.

(** ** The input processor: what a result looks like *)

Section ProcessResults.
Import GoString GoErrors InputProcessor InputProcessorMore.

Lemma processURLOrRaw_shape (w : world) (ctx : Z) (input : gostring) :
  let '(res, err) := processURLOrRaw w ctx input in
  match err with
  | Some _ => res = emptyResult
  | None =>
      FilePath res = None /\ FileSize res = None /\ Mtime res = None
      /\ ((inputType res = Some (runes "url") /\ URL res <> None)
          \/ (inputType res = Some (runes "raw") /\ URL res = None
              /\ Body res = input
              /\ ContentType res = runes "text/plain; charset=utf-8"))
  end.
Proof.
  unfold processURLOrRaw.
  destruct (urlParse w input) as [u|e].
  2:{ cbn. repeat split. right. repeat split. }
  destruct (eqb (Scheme u) (runes "http") || eqb (Scheme u) (runes "https")).
  2:{ cbn. repeat split. right. repeat split. }
  destruct (newRequestErr w input); [reflexivity|].
  destruct (Do w _) as [resp|e]; [|reflexivity].
  destruct (negb (StatusCode resp =? StatusOK)); [reflexivity|].
  destruct (readAll resp) as [b|e]; [|reflexivity].
  cbn. repeat split. left. split; [reflexivity|discriminate].
Qed.

(** X20.  A call of [Process] that fails returns the empty result.  One
    that succeeds marks the result as [file], [url] or [raw]: a file has its
    path, size and modification time and no URL; a fetched URL has its URL
    and none of the three; a raw string is the input itself, of type
    [text/plain; charset=utf-8], with neither. *)
Theorem process_result_matches_input_type :
  forall (w : world) (ctx : Z) (input : gostring),
    let '(res, err) := Process w ctx input in
    match err with
    | Some _ => res = emptyResult
    | None =>
        (inputType res = Some (runes "file")
         /\ FilePath res <> None /\ FileSize res <> None
         /\ Mtime res <> None /\ URL res = None)
        \/ (inputType res = Some (runes "url")
            /\ URL res <> None /\ FilePath res = None
            /\ FileSize res = None /\ Mtime res = None)
        \/ (inputType res = Some (runes "raw")
            /\ Body res = input
            /\ ContentType res = runes "text/plain; charset=utf-8"
            /\ URL res = None /\ FilePath res = None
            /\ FileSize res = None /\ Mtime res = None)
    end.
Proof.
  intros w ctx input.
  assert (Hrest :
    let '(res, err) := processURLOrRaw w ctx input in
    match err with
    | Some _ => res = emptyResult
    | None =>
        (inputType res = Some (runes "file")
         /\ FilePath res <> None /\ FileSize res <> None
         /\ Mtime res <> None /\ URL res = None)
        \/ (inputType res = Some (runes "url")
            /\ URL res <> None /\ FilePath res = None
            /\ FileSize res = None /\ Mtime res = None)
        \/ (inputType res = Some (runes "raw")
            /\ Body res = input
            /\ ContentType res = runes "text/plain; charset=utf-8"
            /\ URL res = None /\ FilePath res = None
            /\ FileSize res = None /\ Mtime res = None)
    end).
  { pose proof (processURLOrRaw_shape w ctx input) as H.
    destruct (processURLOrRaw w ctx input) as [res [e|]]; [exact H|].
    destruct H as (H1 & H2 & H3 & [[Ht Hu]|(Ht & Hu & Hb & Hc)]).
    - right. left. repeat split; assumption.
    - right. right. repeat split; assumption. }
  unfold Process.
  destruct (Stat w input) as [fi|e].
  - destruct (IsDir fi); [exact Hrest|].
    destruct (ReadFile w input) as [data|e].
    + left. cbn. repeat split; try discriminate.
    + destruct (Is e ErrPermission); reflexivity.
  - destruct (negb (Is e ErrNotExist)); [reflexivity|exact Hrest].
Qed.

(** X21.  A file wins over a URL, and reading it does not touch the
    network: when [os.Stat] finds the input and it is not a directory,
    [Process] gives the same answer in every environment with the same file
    system, whatever the URL parser and the HTTP client of that environment
    do, and in every context; an answer that is not an error is marked
    [file]. *)
Theorem process_file_ignores_network :
  forall (w w' : world) (ctx ctx' : Z) (input : gostring) (fi : FileInfo),
    Stat w input = inl fi ->
    IsDir fi = false ->
    sameDisk w w' ->
    Process w ctx input = Process w' ctx' input
    /\ (snd (Process w ctx input) = None ->
        inputType (fst (Process w ctx input)) = Some (runes "file")).
Proof.
  intros w w' ctx ctx' input fi Hs Hd (HS & HR & HA & HD & HF).
  unfold Process. rewrite <- HS, Hs, Hd, <- HR.
  destruct (ReadFile w input) as [data|e].
  - rewrite <- HA, <- HD, <- HF. split; [reflexivity|].
    intros _. reflexivity.
  - split; [reflexivity|]. destruct (Is e ErrPermission); discriminate.
Qed.

End ProcessResults.

(** The statement of X20 at a raw string, in an environment without files
    whose URL parser rejects it. *)
Lemma process_result_matches_input_type_witness :
  let r := InputProcessor.Process ContentService.rawWorld 0
             (GoString.runes "hello world") in
  snd r = None
  /\ InputProcessorMore.inputType (fst r) = Some (GoString.runes "raw")
  /\ InputProcessor.Body (fst r) = GoString.runes "hello world".
Proof.
  intros r. unfold r.
  pose proof (process_result_matches_input_type ContentService.rawWorld 0
                (GoString.runes "hello world")) as H.
  destruct (InputProcessor.Process _ _ _) as [res [e|]] eqn:E;
    [vm_compute in E; discriminate E|].
  split; [reflexivity|].
  destruct H as [(Ht & _)|[(Ht & _)|(Ht & Hb & _)]].
  - exfalso. injection E as <-. vm_compute in Ht. discriminate Ht.
  - exfalso. injection E as <-. vm_compute in Ht. discriminate Ht.
  - split; assumption.
Defined.

(** The statement of X21 at the file [notes.txt], with a network that
    answers 200 and one that answers 500. *)
Lemma process_file_ignores_network_witness :
  InputProcessor.Process (InputProcessorMore.withNotes 200) 0
    (GoString.runes "notes.txt")
  = InputProcessor.Process (InputProcessorMore.withNotes 500) 1
      (GoString.runes "notes.txt")
  /\ InputProcessorMore.inputType
       (fst (InputProcessor.Process (InputProcessorMore.withNotes 200) 0
               (GoString.runes "notes.txt")))
     = Some (GoString.runes "file").
Proof.
  destruct (process_file_ignores_network
              (InputProcessorMore.withNotes 200)
              (InputProcessorMore.withNotes 500) 0 1
              (GoString.runes "notes.txt")
              {| InputProcessor.IsDir := false; InputProcessor.Size := 5;
                 InputProcessor.ModTime := 1700000000 |}
              eq_refl eq_refl) as [H1 H2].
  - repeat split.
  - split; [exact H1|]. apply H2. reflexivity.
Defined.

(** ** The content service over its stores *)

Section Enrichment.
Import GoString GoErrors Store ContentService.

Variable W : Type.
Variable cs : collaborators W.

Lemma appends_autoTag (content : Content) : appends W (autoTag W cs content).
Proof.
  unfold autoTag.
  repeat first
    [ apply appends_ret
    | apply appends_invoke
    | apply appends_bind; [|intros ?]
    | match goal with
      | |- appends W (match ?x with _ => _ end) => destruct x
      | |- appends W (if ?x then _ else _) => destruct x
      end ].
Qed.

Lemma appends_enqueueSummarization (content : Content) :
  appends W (enqueueSummarization W cs content).
Proof.
  unfold enqueueSummarization.
  repeat first
    [ apply appends_ret
    | apply appends_invoke
    | apply appends_bind; [|intros ?]
    | match goal with
      | |- appends W (match ?x with _ => _ end) => destruct x
      | |- appends W (if ?x then _ else _) => destruct x
      end ].
Qed.

(** X22.  No failure of an enrichment fails the ingestion: once the input
    has been processed, the source resolved and the content stored without
    error, [AddContent] returns the stored content, [existed] as the store
    reported it and a nil error, whatever the job client, the categoriser
    and the tag store answer.  For a content that existed it makes no
    further call; for a new one, with a job client, the first further call
    enqueues the embedding job for the id of the stored content. *)
Theorem add_content_survives_enrichment_failures :
  forall (params : AddContentParams) (w0 wp ws wc : W) (t0 : list call)
         (inputResult : InputProcessor.Result) (source : Source)
         (existed : bool) (stored : Content),
    let sp := {| Name := SourceName params; Type_ := SourceType params;
                 Desc := None;
                 URL := getSourceURLFromInputResult inputResult |} in
    let built := buildContentModel (SourceRowID source) (Title params)
                   inputResult in
    processor W cs (RawInput params) w0 = (inl inputResult, wp) ->
    ss W cs sp wp = ((Some source, None), ws) ->
    contents W cs built ws = ((existed, None, stored), wc) ->
    exists (w1 : W) (more : list call),
      AddContent W cs params (w0, t0)
      = ((Some stored, existed, None),
         (w1, t0 ++ [Process (RawInput params); GetOrCreateSource sp;
                     CreateContentIfNotExists built] ++ more))
      /\ (existed = true -> more = [] /\ w1 = wc)
      /\ (existed = false ->
          forall j, jobs W cs = Some j ->
          exists rest, more = EnqueueEmbeddingJob (ID stored) :: rest).
Proof.
  intros params w0 wp ws wc t0 inputResult source existed stored sp built
    Hp Hs Hc.
  unfold AddContent, processInput, getOrCreateSource.
  cbv beta delta [bind invoke ret]. cbn [fst snd].
  rewrite Hp. cbn [fst snd]. fold sp. rewrite Hs. cbn [fst snd].
  fold built. rewrite Hc. cbn [fst snd].
  set (three := [Process (RawInput params); GetOrCreateSource sp;
                 CreateContentIfNotExists built]).
  assert (Ht : ((t0 ++ [Process (RawInput params)])
                ++ [GetOrCreateSource sp])
               ++ [CreateContentIfNotExists built] = t0 ++ three).
  { rewrite <- !app_assoc. reflexivity. }
  rewrite Ht. clear Ht.
  destruct existed; cbn [negb].
  - exists wc, []. rewrite app_nil_r. split; [reflexivity|].
    split; [auto|discriminate].
  - unfold enrich. cbv beta delta [bind]. 
    destruct (enqueueEmbeddingJobIfPossible W cs stored (wc, t0 ++ three))
      as [u1 [w1 t1]] eqn:E1.
    destruct (appends_autoTag stored w1 t1) as [a2 H2].
    destruct (autoTag W cs stored (w1, t1)) as [u2 [w2 t2]] eqn:E2.
    cbn [fst snd] in H2. subst t2.
    destruct (appends_enqueueSummarization stored w2 (t1 ++ a2)) as [a3 H3].
    destruct (enqueueSummarization W cs stored (w2, t1 ++ a2))
      as [u3 [w3 t3]] eqn:E3.
    cbn [fst snd] in H3. subst t3.
    unfold enqueueEmbeddingJobIfPossible in E1.
    destruct (jobs W cs) as [j|] eqn:Ej.
    + cbv beta delta [bind invoke ret] in E1. cbn [fst snd] in E1.
      destruct (doEnqueueEmbeddingJob W j (ID stored) wc) as [oe wj].
      injection E1 as <- <- <-.
      exists w3, (EnqueueEmbeddingJob (ID stored) :: a2 ++ a3).
      split; [|split; [discriminate|]].
      * rewrite <- !app_assoc. reflexivity.
      * intros _ j' _. eexists. reflexivity.
    + cbv beta delta [ret] in E1. injection E1 as <- <- <-.
      exists w3, (a2 ++ a3).
      split; [|split; [discriminate|]].
      * rewrite <- !app_assoc. reflexivity.
      * intros _ j' Hj. discriminate Hj.
Qed.

End Enrichment.

Section ServiceOverPrimaryStore.
Import GoString GoErrors Store StoreMore ContentServiceMore.

Lemma find_none_iff (rows : list Content) (id : Z) :
  List.find (fun c => ID c =? id) rows = None
  <-> forall r, In r rows -> ID r <> id.
Proof.
  split.
  - intros H r Hr E. apply (List.find_none _ _ H) in Hr.
    apply Z.eqb_neq in Hr. contradiction.
  - intros H. destruct (List.find _ rows) as [c|] eqn:E; [|reflexivity].
    apply List.find_some in E as [Hc Hid]. apply Z.eqb_eq in Hid.
    exfalso. exact (H c Hc Hid).
Qed.

(** X23.  [ContentService.GetContent] over the primary store.  On a working
    connection an id without a row gives a nil content and an error for which
    [errors.Is(err, store.ErrNotFound)] holds and whose message names the
    id; an id with a row gives that row as it is scanned, and a nil error.
    A connection failure that is not itself [pgx.ErrNoRows] is reported as
    not found exactly when the failure is. *)
Theorem service_get_content_reports_not_found :
  forall (d : db) (id : Z),
    (faults d = [] ->
     (forall r, In r (content d) -> ID r <> id) ->
     exists e,
       GetContent db primaryGet id d = ((None, Some e), d)
       /\ Is e ErrNotFound = true /\ mentionsInt id e = true)
    /\ (faults d = [] ->
        (exists r, In r (content d) /\ ID r = id) ->
        exists r,
          In r (content d) /\ ID r = id
          /\ GetContent db primaryGet id d = ((Some (scanned r), None), d))
    /\ (forall e0 rest,
          faults d = Some e0 :: rest -> Is e0 ErrNoRows = false ->
          exists e,
            fst (GetContent db primaryGet id d) = (None, Some e)
            /\ Is e ErrNotFound = Is e0 ErrNotFound).
Proof.
  intros d id. unfold GetContent, primaryGet, StoreMore.GetContent,
    select_by_id.
  split; [|split].
  - intros Hf Habs. rewrite (send_healthy d Hf).
    rewrite (proj2 (find_none_iff (content d) id) Habs).
    cbn [Is same_sentinel orb].
    eexists. split; [reflexivity|]. split; [reflexivity|].
    cbn. rewrite Z.eqb_refl. reflexivity.
  - intros Hf (r0 & Hr0 & Hid0). rewrite (send_healthy d Hf).
    destruct (List.find (fun c => ID c =? id) (content d)) as [r|] eqn:E.
    + apply List.find_some in E as [Hr Hid]. apply Z.eqb_eq in Hid.
      exists r. repeat split; assumption.
    + exfalso. exact (proj1 (find_none_iff _ _) E r0 Hr0 Hid0).
  - intros e0 rest Hf Hn. unfold send. rewrite Hf. rewrite Hn.
    cbn [fst]. eexists. split; [reflexivity|].
    cbn [Is same_sentinel orb]. reflexivity.
Qed.

(** X24.  [ContentService.DeleteContent] over the primary store deletes the
    embeddings first.  When the vector store fails, the call returns an
    error that wraps the failure twice and the tables of the primary store
    are untouched.  When the vector store is nil or succeeds, on a working
    connection, the vector store is left as its call left it; an id without
    a row gives an error for which [errors.Is(err, store.ErrNotFound)] holds,
    the embeddings being deleted all the same; an id with a row gives nil
    and the rows with that id are gone. *)
Theorem service_delete_content_embeddings_first :
  forall (V : Type) (vs : option (Z -> V -> option error * V)) (id : Z)
         (v : V) (s : dbc),
    let r := DeleteContent dbc V primaryDelete id vs (v, s) in
    (forall del e v',
       vs = Some del -> del id v = (Some e, v') ->
       r = (Some (Errorf "DeleteContent: %w"
                    [AWrap (Errorf "deleteEmbeddingsIfPresent: %w"
                              [AWrap e])]),
            (v', s)))
    /\ (forall v',
          (vs = None /\ v' = v)
          \/ (exists del, vs = Some del /\ del id v = (None, v')) ->
          faults (fst s) = [] ->
          fst (snd r) = v'
          /\ content (fst (snd (snd r)))
             = List.filter (fun c => negb (ID c =? id)) (content (fst s))
          /\ ((forall c, In c (content (fst s)) -> ID c <> id) ->
              exists e, fst r = Some e /\ Is e ErrNotFound = true)
          /\ ((exists c, In c (content (fst s)) /\ ID c = id) ->
              fst r = None)).
Proof.
  intros V vs id v s r. unfold r; clear r. split.
  - intros del e v' -> Hdel.
    unfold DeleteContent, deleteEmbeddingsIfPresent. cbn [fst snd].
    rewrite Hdel. reflexivity.
  - intros v' Hvs Hf.
    assert (Hemb : deleteEmbeddingsIfPresent V id vs v = (None, v')).
    { unfold deleteEmbeddingsIfPresent.
      destruct Hvs as [[-> ->]|(del & -> & Hdel)]; [reflexivity|].
      rewrite Hdel. reflexivity. }
    unfold DeleteContent. cbn [fst snd]. rewrite Hemb.
    unfold deleteContentFromStore, primaryDelete.
    pose proof (DeleteContent_healthy s id Hf) as H.
    destruct (StoreMore.DeleteContent s id) as [err s'].
    destruct H as (Hc & _ & _ & Hsome & Hnone).
    destruct err as [e|]; cbn [fst snd].
    + split; [reflexivity|]. split; [exact Hc|]. split.
      * intros Habs. specialize (Hnone Habs). injection Hnone as ->.
        eexists. split; reflexivity.
      * intros Hex. specialize (Hsome Hex). discriminate Hsome.
    + split; [reflexivity|]. split; [exact Hc|]. split.
      * intros Habs. specialize (Hnone Habs). discriminate Hnone.
      * intros _. reflexivity.
Qed.

End ServiceOverPrimaryStore.

(** The statement of X22 at the first ingestion of "hello world": with every
    enrichment switched on, the call succeeds and the fourth call enqueues
    the embedding job of content 1. *)
Lemma add_content_survives_enrichment_failures_witness :
  snd (fst ContentService.firstAdd) = None
  /\ snd (fst (fst ContentService.firstAdd)) = false
  /\ exists first rest,
       snd (snd ContentService.firstAdd)
       = first ++ ContentService.EnqueueEmbeddingJob 1 :: rest
       /\ length first = 3%nat.
Proof.
  set (ir := fst (InputProcessor.Process ContentService.rawWorld 0
                    (ContentService.RawInput ContentService.helloParams))).
  set (src := {| ContentService.SourceRowID := 1;
                 ContentService.SourceRowName := GoString.runes "cli" |}).
  set (cr := Store.CreateContentIfNotExists ContentService.toyDigest 0
               (fun d => d) Store.oneSourceDB
               (ContentService.buildContentModel 1
                  (ContentService.Title ContentService.helloParams) ir)).
  destruct (add_content_survives_enrichment_failures Store.db
              ContentService.sampleService ContentService.helloParams
              Store.oneSourceDB Store.oneSourceDB Store.oneSourceDB (snd cr)
              [] ir src false (snd (fst cr)))
    as (w1 & more & HA & _ & Hnew).
  - vm_compute. reflexivity.
  - vm_compute. reflexivity.
  - vm_compute. reflexivity.
  - destruct (Hnew eq_refl _ eq_refl) as (rest & ->).
    unfold ContentService.firstAdd. rewrite HA. cbn [fst snd].
    split; [reflexivity|]. split; [reflexivity|].
    eexists _, rest. split; [reflexivity|reflexivity].
Defined.

(** The statement of X23 at the sample rows and the id 7. *)
Lemma service_get_content_reports_not_found_witness :
  exists e,
    ContentServiceMore.GetContent Store.db ContentServiceMore.primaryGet 7
      Store.twoRowDB = ((None, Some e), Store.twoRowDB)
    /\ GoErrors.Is e GoErrors.ErrNotFound = true.
Proof.
  destruct (service_get_content_reports_not_found Store.twoRowDB 7)
    as [H _].
  destruct (H eq_refl) as (e & He & His & _).
  - intros r [<-|[<-|[]]]; discriminate.
  - exists e. split; assumption.
Defined.

(** The statement of X24 at the sample tables and the id 3, which has
    embeddings and no row. *)
Lemma service_delete_content_embeddings_first_witness :
  let r := ContentServiceMore.DeleteContent StoreMore.dbc (list Z)
             ContentServiceMore.primaryDelete 3
             (Some ContentServiceMore.forgetEmbeddings)
             ([1; 3], StoreMore.taggedDB) in
  fst (snd r) = [1]
  /\ exists e, fst r = Some e /\ GoErrors.Is e GoErrors.ErrNotFound = true.
Proof.
  intros r.
  destruct (service_delete_content_embeddings_first (list Z)
              (Some ContentServiceMore.forgetEmbeddings) 3 [1; 3]
              StoreMore.taggedDB) as [_ H].
  destruct (H [1]) as (Hv & _ & Hnone & _).
  - right. exists ContentServiceMore.forgetEmbeddings.
    split; reflexivity.
  - reflexivity.
  - split; [exact Hv|]. apply Hnone.
    intros c [<-|[<-|[]]]; discriminate.
Defined.

(** ** Batches of embeddings *)

Section Batches.
Import GoString GoErrors Fallback.

Lemma batch_loop_returns (V : Type) (strategy : Z -> option Z)
  (names : list gostring) (texts : nat) (w : world (list V)) (fuel : nat)
  (st : state) (vecs : list V) (n : nat) :
  loop (GenerateEmbeddings_step strategy names texts w) fuel st
  = inl (Returned vecs, n) ->
  length vecs = texts
  /\ (calls st < n)%nat
  /\ exists i, (i < length names)%nat /\ provide w (n - 1) i = Vec vecs.
Proof.
  revert st. induction fuel as [|fuel IH]; intros st; cbn [loop];
    [discriminate|].
  destruct (GenerateEmbeddings_step strategy names texts w st)
    as [o|st'] eqn:E.
  - intros [= -> <-]. unfold GenerateEmbeddings_step in E.
    destruct (names !! ActiveProvider st) as [name|] eqn:En; [|discriminate].
    destruct (cancelledAfter w (calls st)); [discriminate|].
    assert (Haf : forall le m1 m2,
              afterFailure strategy (length names) w st le m1 m2
              <> inl (Returned vecs)).
    { intros le m1 m2. unfold afterFailure.
      destruct (strategy (attempt st)) as [b|]; [|discriminate].
      destruct (b <? 0).
      - destruct (Nat.eqb _ _); discriminate.
      - destruct (cancelledWaiting w (calls st)); discriminate. }
    destruct (provide w (calls st) (ActiveProvider st)) as [v|e] eqn:Ep.
    + destruct (Nat.eqb_spec (length v) texts) as [Hl|Hl]; cbn [negb] in E.
      * injection E as ->. split; [exact Hl|]. split; [lia|].
        exists (ActiveProvider st). split.
        -- apply lookup_lt_Some in En. exact En.
        -- replace (S (calls st) - 1)%nat with (calls st) by lia. exact Ep.
      * exfalso. exact (Haf _ _ _ E).
    + exfalso. exact (Haf _ _ _ E).
  - intros H. destruct (IH st' H) as (Hl & Hc & Hi).
    split; [exact Hl|]. split; [|exact Hi].
    unfold GenerateEmbeddings_step, afterFailure in E.
    destruct (names !! ActiveProvider st); [|discriminate].
    destruct (cancelledAfter w (calls st)); [discriminate|].
    assert (Hst : calls st' = S (calls st)).
    { destruct (provide w (calls st) (ActiveProvider st)) as [v|e];
        [destruct (negb (Nat.eqb (length v) texts)); [|discriminate]|];
        (destruct (strategy (attempt st)) as [b|]; [|discriminate]);
        (destruct (b <? 0);
         [destruct (Nat.eqb _ _); [discriminate|]
         |destruct (cancelledWaiting w (calls st)); [discriminate|]]);
        injection E as <-; reflexivity. }
    lia.
Qed.

(** X25.  [GenerateEmbeddings] never returns a batch of the wrong size:
    vectors that it returns are as many as the texts, and they are the reply
    of one of the providers to the last invocation made.  A reply of another
    size is treated as a failure of the provider. *)
Theorem generate_embeddings_returns_one_vector_per_text :
  forall (V : Type) (strategy : Z -> option Z) (names : list gostring)
         (active texts : nat) (w : world (list V)) (fuel : nat)
         (vecs : list V) (n : nat),
    GenerateEmbeddings strategy names active texts w fuel
    = inl (Returned vecs, n) ->
    length vecs = texts
    /\ (0 < n)%nat
    /\ exists i, (i < length names)%nat /\ provide w (n - 1) i = Vec vecs.
Proof.
  intros V strategy names active texts w fuel vecs n H.
  unfold GenerateEmbeddings in H.
  destruct names as [|name names]; [discriminate|].
  apply batch_loop_returns in H as (Hl & Hc & Hi).
  split; [exact Hl|]. split; [lia|exact Hi].
Qed.

End Batches.

(** The statement of X25 at two providers, the first of which answers two
    texts with one vector and the second with two. *)
Lemma generate_embeddings_returns_one_vector_per_text_witness :
  let w : Fallback.world (list Z) :=
    {| Fallback.provide := fun _ i =>
         match i with
         | O => Fallback.Vec [7]
         | _ => Fallback.Vec [7; 8]
         end;
       Fallback.cancelledAfter := fun _ => false;
       Fallback.cancelledWaiting := fun _ => false |} in
  Fallback.GenerateEmbeddings (fun _ => Some (-1))
    [GoString.runes "p0"; GoString.runes "p1"] 0 2 w 5
  = inl (Fallback.Returned [7; 8], 2%nat)
  /\ length [7; 8] = 2%nat.
Proof.
  intros w. split; [reflexivity|].
  exact (proj1 (generate_embeddings_returns_one_vector_per_text Z
                  (fun _ => Some (-1))
                  [GoString.runes "p0"; GoString.runes "p1"] 0 2 w 5
                  [7; 8] 2 eq_refl)).
Defined.

(** ** The flags of the list command *)

Section ListFlags.
Import GoString GoErrors Store Clix.

Lemma splitAux_comma_cons (cur s : gostring) (r : rune) :
  splitAux (runes ",") O cur (r :: s)
  = if r =? 44 then rev cur :: splitAux (runes ",") O [] s
    else splitAux (runes ",") O (r :: cur) s.
Proof.
  cbn [splitAux]. change (runes ",") with [44].
  cbn [HasPrefix length Nat.sub]. unfold rune_eqb.
  destruct (r =? 44); destruct s; reflexivity.
Qed.

Lemma splitAux_comma_free (cur s : gostring) :
  ~ In 44 cur ->
  Forall (fun p => ~ In 44 p) (splitAux (runes ",") O cur s).
Proof.
  revert cur. induction s as [|r s IH]; intros cur Hc.
  - cbn. constructor; [|constructor]. rewrite <- in_rev. exact Hc.
  - rewrite splitAux_comma_cons. destruct (Z.eqb_spec r 44) as [E|E].
    + constructor; [rewrite <- in_rev; exact Hc|]. apply IH. intros [].
    + apply IH. intros [H|H]; [congruence|contradiction].
Qed.

Lemma trimLeft_In (x : rune) (s : gostring) : In x (trimLeft s) -> In x s.
Proof.
  destruct (trimLeft_split s) as (sp & Hs & _). intros H.
  rewrite Hs. apply in_or_app. right. exact H.
Qed.

Lemma TrimSpace_In (x : rune) (s : gostring) : In x (TrimSpace s) -> In x s.
Proof.
  unfold TrimSpace. intros H. apply in_rev in H. apply trimLeft_In in H.
  apply in_rev in H. apply trimLeft_In in H. exact H.
Qed.

Lemma splitAux_comma_app (cur t s : gostring) :
  ~ In 44 t ->
  splitAux (runes ",") O cur (t ++ s)
  = splitAux (runes ",") O (rev t ++ cur) s.
Proof.
  revert cur. induction t as [|r t IH]; intros cur Ht; [reflexivity|].
  cbn [app]. rewrite splitAux_comma_cons.
  destruct (Z.eqb_spec r 44) as [E|E]; [exfalso; apply Ht; left; auto|].
  rewrite IH by (intros H; apply Ht; right; exact H).
  cbn [rev]. rewrite <- app_assoc. reflexivity.
Qed.

Lemma TrimSpace_lead_space (t : gostring) : TrimSpace (32 :: t) = TrimSpace t.
Proof. reflexivity. Qed.

(** The tags read back from the pieces of a list of tag names joined with
    a comma and a space; [lead] is the space left over from the separator. *)
Lemma parse_joined (lead : gostring) (t : gostring) (l : list gostring) :
  lead = [] \/ lead = [32] ->
  Forall tagName (t :: l) ->
  flat_map (fun p => if negb (eqb (TrimSpace p) []) then [TrimSpace p]
                     else [])
           (splitAux (runes ",") O lead (Join (t :: l) (runes ", ")))
  = t :: l.
Proof.
  intros Hlead. revert t lead Hlead.
  induction l as [|t' l IH]; intros t lead Hlead H;
    inversion H as [|? ? (Hne & Htrim & Hcomma) Hrest]; subst.
  - cbn [Join]. rewrite <- (app_nil_r t) at 1.
    rewrite splitAux_comma_app by exact Hcomma.
    cbn [splitAux flat_map]. rewrite rev_app_distr, rev_involutive.
    assert (E : TrimSpace (rev lead ++ t) = t).
    { destruct Hlead as [->| ->]; cbn [rev app]; [exact Htrim|].
      rewrite TrimSpace_lead_space. exact Htrim. }
    rewrite E. apply gostring_eqb_neq in Hne. rewrite Hne. reflexivity.
  - change (Join (t :: t' :: l) (runes ", "))
      with (t ++ 44 :: 32 :: Join (t' :: l) (runes ", ")).
    rewrite splitAux_comma_app by exact Hcomma.
    rewrite splitAux_comma_cons. cbn [Z.eqb Pos.eqb].
    rewrite splitAux_comma_cons. cbn [Z.eqb Pos.eqb].
    cbn [flat_map]. rewrite rev_app_distr, rev_involutive.
    assert (E : TrimSpace (rev lead ++ t) = t).
    { destruct Hlead as [->| ->]; cbn [rev app]; [exact Htrim|].
      rewrite TrimSpace_lead_space. exact Htrim. }
    rewrite E. apply gostring_eqb_neq in Hne. rewrite Hne. cbn [negb app].
    f_equal. apply (IH t' [32]); [right; reflexivity|exact Hrest].
Qed.

(** X26.  Every tag that [ParseTags] returns is a name without white space
    around it and without a comma, and none is empty; and the tags come back
    from their own listing: for such names, [ParseTags] of the names joined
    with a comma and a space is the list of the names. *)
Theorem parse_tags_round_trip :
  forall (tagsStr : gostring) (tags : list gostring),
    Forall tagName (ParseTags tagsStr)
    /\ (Forall tagName tags -> ParseTags (Join tags (runes ", ")) = tags).
Proof.
  intros tagsStr tags. split.
  - unfold ParseTags. destruct (negb (eqb tagsStr [])); [|constructor].
    apply List.Forall_forall. intros t Ht.
    apply in_flat_map in Ht as (p & Hp & Ht).
    destruct (eqb (TrimSpace p) []) eqn:E; cbn [negb] in Ht; [destruct Ht|].
    destruct Ht as [<-|[]]. split; [|split].
    + apply gostring_eqb_neq. exact E.
    + apply TrimSpace_idem.
    + intros Hin. apply TrimSpace_In in Hin.
      pose proof (splitAux_comma_free [] tagsStr (fun H => H)) as Hfree.
      rewrite List.Forall_forall in Hfree. exact (Hfree p Hp Hin).
  - intros H. destruct tags as [|t l]; [reflexivity|].
    unfold ParseTags, Split.
    assert (Hne : eqb (Join (t :: l) (runes ", ")) [] = false).
    { apply gostring_eqb_neq. inversion H as [|? ? (Hne & _) _]; subst.
      destruct t as [|r t]; [contradiction|]. destruct l; discriminate. }
    rewrite Hne. cbn [negb]. apply (parse_joined [] t l); [left|]; auto.
Qed.

(** X27.  The defaults that [ParsePagination] applies for the list command
    are those of the store: [ListContent] answers the parsed limit and
    offset as it answers the values of the flags. *)
Theorem parsed_pagination_lists_the_same :
  forall (d : db) (limit offset : Z) (sortBy sortOrder : gostring)
         (filterTags : list gostring),
    0 < fst (ParsePagination limit offset)
    /\ 0 <= snd (ParsePagination limit offset)
    /\ ListContent d (fst (ParsePagination limit offset))
         (snd (ParsePagination limit offset)) sortBy sortOrder filterTags
       = ListContent d limit offset sortBy sortOrder filterTags.
Proof.
  intros d limit offset sortBy sortOrder filterTags.
  unfold ParsePagination. cbn [fst snd].
  assert (E : listContentQuery (if limit <=? 0 then 20 else limit)
                (if offset <? 0 then 0 else offset) sortBy sortOrder
                filterTags
              = listContentQuery limit offset sortBy sortOrder filterTags).
  { unfold listContentQuery. f_equal.
    - destruct (Z.leb_spec limit 0) as [H|H]; [reflexivity|].
      destruct (Z.leb_spec limit 0); [lia|reflexivity].
    - destruct (Z.ltb_spec offset 0) as [H|H]; [reflexivity|].
      destruct (Z.ltb_spec offset 0); [lia|reflexivity]. }
  split; [destruct (Z.leb_spec limit 0); lia|].
  split; [destruct (Z.ltb_spec offset 0); lia|].
  unfold ListContent. rewrite E. reflexivity.
Qed.

End ListFlags.

(** The statement of X26 at two tags. *)
Lemma parse_tags_round_trip_witness :
  Clix.ParseTags (GoString.runes "go, rocq")
  = [GoString.runes "go"; GoString.runes "rocq"].
Proof.
  apply (proj2 (parse_tags_round_trip []
                  [GoString.runes "go"; GoString.runes "rocq"])).
  repeat constructor; try discriminate;
    intros H; vm_compute in H; intuition discriminate.
Defined.

(** ** Markdown without headings *)

Section PlainMarkdown.
Import GoString Words Store Chunking ChunkingMore.

Variable tokenizer : option (gostring -> list gostring).

Lemma assemble_sameTexts (meta1 meta2 : Z -> bool -> gmap string value)
  (maxTokens overlap : Z) (pieces : list gostring) (a b : assembly) :
  sameTexts a b ->
  sameTexts (assemble tokenizer meta1 maxTokens overlap pieces a)
            (assemble tokenizer meta2 maxTokens overlap pieces b).
Proof.
  revert a b. induction pieces as [|piece rest IH]; intros a b H;
    [exact H|].
  cbn [assemble]. apply IH; clear IH.
  destruct a as [ca ta ia fa], b as [cb tb ib fb].
  destruct H as (H1 & H2 & H3). cbn [currentChunk currentTokens finalChunks
    chunkIndex] in *. subst cb tb.
  destruct ((ta >? 0) && _);
    [destruct ((_ >? maxTokens) && _)|];
    (destruct rest as [|p rest'];
     [destruct (negb (eqb (TrimSpace _) []))|]);
    unfold sameTexts;
    cbn [currentChunk currentTokens finalChunks chunkIndex];
    repeat split; rewrite ?map_app, ?H3; reflexivity.
Qed.

(** X28.  A Markdown text without a heading of level two or more is cut as
    the fallback chunker cuts it: the two chunkers return chunks with the
    same texts, in the same order. *)
Theorem markdown_without_headings_is_cut_as_plain_text :
  forall (content : Content) (maxTokens overlap : Z),
    findAll 0 true 0 (TrimSpace (Body content)) = [] ->
    map Text (MarkdownChunker_Chunk tokenizer content maxTokens overlap)
    = map Text (FallbackChunker_Chunk tokenizer content maxTokens overlap).
Proof.
  intros content maxTokens overlap Hno.
  unfold MarkdownChunker_Chunk, FallbackChunker_Chunk.
  destruct (eqb (TrimSpace (Body content)) []) eqn:E; [reflexivity|].
  destruct (applyDefaults maxTokens overlap) as [m o].
  rewrite Hno. unfold processSection. rewrite TrimSpace_idem, E.
  cbn [fst snd].
  destruct (intermediateChunks m (TrimSpace (Body content))) as [|p ps] eqn:EP;
    [reflexivity|].
  apply (assemble_sameTexts (markdownMeta []) fallbackMeta m o (p :: ps)).
  repeat split.
Qed.

End PlainMarkdown.

(** The statement of X28 at a text of two paragraphs. *)
Lemma markdown_without_headings_is_cut_as_plain_text_witness :
  let content := ChunkingMore.typed (GoString.runes "text/markdown")
                   (GoString.runes "one two" ++ [GoString.nl; GoString.nl]
                    ++ GoString.runes "# three") in
  map Chunking.Text (Chunking.MarkdownChunker_Chunk None content 0 0)
  = map Chunking.Text (Chunking.FallbackChunker_Chunk None content 0 0).
Proof.
  intros content.
  apply (markdown_without_headings_is_cut_as_plain_text None content 0 0).
  reflexivity.
Defined.

(** ** Storing the same body twice *)

Section StoringTwice.
Import GoString GoErrors Store.

Variable Sum256 : gostring -> list Z.

(** X29.  Without a concurrent writer, on a working connection,
    [CreateContentIfNotExists] is idempotent in the body: for a body whose
    digest the table does not hold and a source that exists, the first call
    stores a row and reports [existed = false]; a second call with the same
    body, whatever the other fields, reports [existed = true], returns the
    row of the first call with its id and hash, and stores nothing. *)
Theorem create_content_if_not_exists_twice :
  forall (now now' : Z) (d : db) (c c2 : Content),
    faults d = [] ->
    unhashed d (calculateHash Sum256 (Body c)) ->
    existsb (Z.eqb (SourceID c)) (sources d) = true ->
    Body c2 = Body c ->
    exists c' d' row,
      CreateContentIfNotExists Sum256 now (fun x => x) d c
        = ((false, None), c', d')
      /\ CreateContentIfNotExists Sum256 now' (fun x => x) d' c2
        = ((true, None), row, d')
      /\ ID row = ID c'
      /\ ContentHash row = ContentHash c'
      /\ length (content d') = S (length (content d)).
Proof. exact (CreateContentIfNotExists_idempotent Sum256). Qed.

End StoringTwice.

(** The statement of X29 at the body "hi", stored twice under different
    titles. *)
Lemma create_content_if_not_exists_twice_witness :
  exists c' d' row,
    Store.CreateContentIfNotExists ContentService.toyDigest 5 (fun x => x)
      Store.oneSourceDB
      (Store.rawContent 1 (GoString.runes "t") (GoString.runes "hi"))
    = ((false, None), c', d')
    /\ Store.CreateContentIfNotExists ContentService.toyDigest 6
         (fun x => x) d'
         (Store.rawContent 1 (GoString.runes "u") (GoString.runes "hi"))
       = ((true, None), row, d')
    /\ Store.ID row = 1.
Proof.
  destruct (create_content_if_not_exists_twice ContentService.toyDigest 5 6
              Store.oneSourceDB
              (Store.rawContent 1 (GoString.runes "t") (GoString.runes "hi"))
              (Store.rawContent 1 (GoString.runes "u") (GoString.runes "hi"))
              eq_refl eq_refl eq_refl eq_refl)
    as (c' & d' & row & H1 & H2 & Hid & _).
  exists c', d', row. split; [exact H1|]. split; [exact H2|].
  rewrite Hid. vm_compute in H1. injection H1 as <- _. reflexivity.
Defined.
